(** * Mermaid diagram add-in: diagram identity and lifecycle engine

    A shallow embedding of the metadata store, the selection recovery, the
    geometry planner, the fixed-DPI rasteriser, the shape matcher, the
    dimension parser, the two-phase insertion state, the listing of stored
    diagrams, the placing and replacing of images on a slide and the
    settings block and panel of the add-in, followed by the properties
    proved about them.

    Conventions of the embedding.
    - A JavaScript string is a list of code units ([str]), of which the
      256 of [ascii] are kept; literals are written [lit "..."].
    - The document's custom XML parts are a list of opaque text blobs in
      document order; [add] appends, [delete] removes one part.  The host is
      taken to be reliable: reading, adding and deleting a part succeed.
      Where the source has a path of its own for a failing host call (the
      placing of an image, the registration of a handler), the answer of the
      host is an input of the function.
    - [new Date().toISOString()] and [Math.random()] are inputs ([now], the
      identifier) of the functions that call them.
    - A JavaScript number is an IEEE 754 double: a primitive [float], whose
      operations are those of the machine, with the two zeros, the two
      infinities and [NaN].  [Math.round], [Math.min] and [Math.max] are
      defined on the representation of a double ([Prim2SF]); the exact
      value of a finite double is the rational [valueOf]. *)

From Stdlib Require Import Strings.Ascii Strings.String.
From Stdlib Require Import List Bool Arith Lia ZArith Zpower.
From Stdlib Require Import QArith Qround Qabs Qminmax Qpower Lqa.
From Stdlib Require Import DecimalString Floats.
Import ListNotations.

Close Scope Q_scope.
Close Scope Z_scope.
Open Scope nat_scope.
Open Scope list_scope.

(* ================================================================== *)
(** * Part I: the embedding                                            *)
(* ================================================================== *)

(** ** JavaScript strings *)

Module JsString.

Definition str := list ascii.

Definition lit (s : string) : str := list_ascii_of_string s.
Arguments lit s%_string.

Definition dquote : str := [ascii_of_nat 34].
Definition nl : str := [ascii_of_nat 10].

Fixpoint eqb (a b : str) : bool :=
  match a, b with
  | [], [] => true
  | x :: a', y :: b' => Ascii.eqb x y && eqb a' b'
  | _, _ => false
  end.

(** [s.startsWith(p)] *)
Fixpoint startsWith (p s : str) : bool :=
  match p, s with
  | [], _ => true
  | _ :: _, [] => false
  | x :: p', y :: s' => Ascii.eqb x y && startsWith p' s'
  end.

(** The text before and after the first occurrence of [needle] in [s]. *)
Fixpoint splitOn (needle s : str) : option (str * str) :=
  if startsWith needle s then Some ([], skipn (length needle) s)
  else match s with
       | [] => None
       | c :: s' =>
           match splitOn needle s' with
           | Some (before, rest) => Some (c :: before, rest)
           | None => None
           end
       end.

(** [s.includes(needle)] *)
Definition includes (needle s : str) : bool :=
  match splitOn needle s with
  | Some _ => true
  | None => false
  end.

(** A regular expression of the shape [/OPEN([\s\S]*?)CLOSE/] with literal
    [OPEN] and [CLOSE]: the engine starts at the leftmost [OPEN] and the
    lazy group stops at the first [CLOSE] after it.  If no [CLOSE] follows
    the leftmost [OPEN], none follows a later one either.  The result is
    capture group 1. *)
Definition matchLazyBetween (open close s : str) : option str :=
  match splitOn open s with
  | None => None
  | Some (_, rest) =>
      match splitOn close rest with
      | None => None
      | Some (captured, _) => Some captured
      end
  end.

Definition isEmpty (s : str) : bool :=
  match s with [] => true | _ => false end.

Definition unit_in (codes : list nat) (c : ascii) : bool :=
  existsb (Nat.eqb (nat_of_ascii c)) codes.

(** The class [\s] of regular expressions, which is also the white space
    that [trim] and [parseFloat] strip, among the code units below 256:
    TAB, LF, VT, FF, CR, SPACE and NBSP. *)
Definition isSpace (c : ascii) : bool := unit_in [9; 10; 11; 12; 13; 32; 160] c.

Definition isQuote (c : ascii) : bool := unit_in [34; 39] c.

Fixpoint skipSpaces (s : str) : str :=
  match s with
  | c :: s' => if isSpace c then skipSpaces s' else s
  | [] => []
  end.

(** The longest prefix whose code units satisfy [f], and what follows. *)
Fixpoint span (f : ascii -> bool) (s : str) : str * str :=
  match s with
  | c :: s' => if f c then let (a, b) := span f s' in (c :: a, b) else ([], s)
  | [] => ([], [])
  end.

(** [s.trim().length === 0] *)
Definition isBlank (s : str) : bool := forallb isSpace s.

Definition toLowerUnit (c : ascii) : ascii :=
  let n := nat_of_ascii c in
  if (65 <=? n) && (n <=? 90) ||
     (192 <=? n) && (n <=? 222) && negb (n =? 215)
  then ascii_of_nat (n + 32) else c.

(** [s.toLowerCase()] *)
Definition toLowerCase (s : str) : str := map toLowerUnit s.

(** [s.split(sep)] for a one-unit separator: the fields between the
    separators, empty fields included. *)
Fixpoint splitUnit (sep : ascii) (s : str) : list str :=
  match s with
  | [] => [[]]
  | c :: s' =>
      if Ascii.eqb c sep then [] :: splitUnit sep s'
      else match splitUnit sep s' with
           | field :: fields => (c :: field) :: fields
           | [] => [[c]]
           end
  end.

(** [s.split(/\s+/)]: the fields between the maximal runs of white space;
    a run at either end leaves an empty field there. *)
Fixpoint splitSpacesFrom (inRun : bool) (s : str) : list str :=
  match s with
  | [] => [[]]
  | c :: s' =>
      if isSpace c
      then if inRun then splitSpacesFrom true s'
           else [] :: splitSpacesFrom true s'
      else match splitSpacesFrom false s' with
           | field :: fields => (c :: field) :: fields
           | [] => [[c]]
           end
  end.

Definition splitSpaces (s : str) : list str := splitSpacesFrom false s.

(** A regular expression without alternatives that is tried at every
    position from the left: the first position where it matches wins. *)
Fixpoint matchFirst {A : Type} (here : str -> option A) (s : str) : option A :=
  match here s with
  | Some r => Some r
  | None => match s with
            | [] => None
            | _ :: s' => matchFirst here s'
            end
  end.

End JsString.
Import JsString.

(** ** JavaScript numbers *)

Module JsNumber.

Definition number := float.
Bind Scope float_scope with number.

(** [isNaN(x)] *)
Definition isNaN (x : number) : bool := PrimFloat.is_nan x.

(** The double whose value is the positive integer [p] with sign [s], for
    [p] of at most 53 binary digits: the mantissa is shifted up to 53
    digits. *)
Definition SFinteger (s : bool) (p : positive) : spec_float :=
  let (m, e) := shl_align p 0 (Zpos (digits2_pos p) - prec)%Z in
  S754_finite s m e.

(** [Math.round] on the representation of a double: the integer closest to
    [x], the one towards plus infinity of two that are equally close.  A
    double whose exponent is not negative is an integer; so are the zeros,
    and the infinities and [NaN] are returned as they are.  Otherwise the
    value is [m / 2 ^ (- e)] up to its sign and its floor after adding one
    half is taken exactly; a result of zero keeps the sign of [x]. *)
Definition SFround (x : spec_float) : spec_float :=
  match x with
  | S754_finite s m e =>
      if (0 <=? e)%Z then x
      else
        match Z.shiftr (cond_Zopp s (Zpos m) + 2 ^ (- e - 1))%Z (- e)%Z with
        | Z0 => S754_zero s
        | Zpos p => SFinteger false p
        | Zneg p => SFinteger true p
        end
  | _ => x
  end.

Definition Math_round (x : number) : number := SF2Prim (SFround (Prim2SF x)).

(** [Math.min] and [Math.max] on representations: [NaN] if either argument
    is; the negative zero is below the positive one. *)
Definition SFmin (x y : spec_float) : spec_float :=
  match SFcompare x y with
  | None => S754_nan
  | Some Lt => x
  | Some Gt => y
  | Some Eq =>
      match x, y with
      | S754_zero sx, S754_zero sy => S754_zero (sx || sy)
      | _, _ => x
      end
  end.

Definition SFmax (x y : spec_float) : spec_float :=
  match SFcompare x y with
  | None => S754_nan
  | Some Lt => y
  | Some Gt => x
  | Some Eq =>
      match x, y with
      | S754_zero sx, S754_zero sy => S754_zero (sx && sy)
      | _, _ => x
      end
  end.

Definition Math_min (a b : number) : number :=
  SF2Prim (SFmin (Prim2SF a) (Prim2SF b)).

Definition Math_max (a b : number) : number :=
  SF2Prim (SFmax (Prim2SF a) (Prim2SF b)).

(** [Math.abs] *)
Definition Math_abs (a : number) : number := PrimFloat.abs a.

(** The exact value of a finite double, [m * 2 ^ e] with its sign; zero
    for the others. *)
Definition pow2 (e : Z) : Q := Qpower 2 e.

Definition SFvalue (x : spec_float) : Q :=
  match x with
  | S754_finite s m e => (inject_Z (cond_Zopp s (Zpos m)) * pow2 e)%Q
  | _ => 0%Q
  end.

Definition valueOf (x : number) : Q := SFvalue (Prim2SF x).

(** A double that is neither [NaN] nor infinite. *)
Definition SFfinite (x : spec_float) : bool :=
  match x with
  | S754_finite _ _ _ | S754_zero _ => true
  | _ => false
  end.

Definition isFinite (x : number) : bool := SFfinite (Prim2SF x).

End JsNumber.
Import JsNumber.

(** ** The canvas and the platform primitives *)

(** What the rasteriser does to its canvas, in order. *)
Inductive CanvasOp : Type :=
| SetSize (w h : number)
| SetSmoothing (quality : str)
| SetFillStyle (style : str)
| FillRect (x y w h : number)
| DrawImage (x y w h : number).

(** Completion of a call: it returns a value or throws an [Error] whose
    message is kept. *)
Inductive completion (A : Type) : Type :=
| Returned (a : A)
| Thrown (message : str).
Arguments Returned {A} a.
Arguments Thrown {A} message.

(** The primitives of the browser that the add-in calls and does not
    define.
    - [parseFloat s]: the number read from the front of [s], or [NaN].
    - [textContentOf tag xml]: the [textContent] of
      [new DOMParser().parseFromString(xml, 'text/xml').querySelector(tag)],
      [None] when no element is selected.
    - [imageLoads svg]: whether an [Image] whose source is the markup fires
      [onload] (it fires [onerror] otherwise).
    - [pngBase64 ops]: the second field of
      [canvas.toDataURL('image/png', 1.0).split(',')] for a canvas that has
      gone through [ops]; encoding may throw. *)
Class Platform : Type := {
  parseFloat : str -> number;
  textContentOf : str -> str -> option str;
  imageLoads : str -> bool;
  pngBase64 : list CanvasOp -> completion str
}.

(** ** The document's custom XML parts *)

Definition store := list str.

Definition add (st : store) (xml : str) : store := st ++ [xml].

Fixpoint delete (i : nat) (st : store) : store :=
  match i, st with
  | _, [] => []
  | O, _ :: rest => rest
  | S j, p :: rest => p :: delete j rest
  end.

Definition xmlDecl : str :=
  lit "<?xml version=" ++ dquote ++ lit "1.0" ++ dquote ++
  lit " encoding=" ++ dquote ++ lit "UTF-8" ++ dquote ++ lit "?>".

Definition CDATA_OPEN : str := lit "<Code><![CDATA[".
Definition CDATA_CLOSE : str := lit "]]></Code>".

(** The template literal [`<Id>${diagramId}</Id>`]. *)
Definition idMarker (diagramId : str) : str :=
  lit "<Id>" ++ diagramId ++ lit "</Id>".

Record DiagramData : Type := { id : str; code : str }.

(** ** The presentation host (PowerPoint) *)

Module PowerPoint.

Record Tag : Type := { key : str; value : str }.

(** A shape of a slide: its geometry and its tags; [tags] is [None] when
    loading the tags of the shape throws. *)
Record Shape : Type := {
  left : number; top : number; width : number; height : number;
  tags : option (list Tag)
}.

Record Slide : Type := { shapes : list Shape }.

(** What the host answers to the calls of the add-in: the selected shapes
    and the selected slides ([None] when the call throws) and the custom
    XML parts. *)
Record Presentation : Type := {
  selectedShapes : option (list Shape);
  selectedSlides : option (list Slide);
  customXmlParts : store
}.

Definition bool_str (b : bool) : str := if b then lit "true" else lit "false".

(** The block written by [storeDiagramDataAfterInsertion]. *)
Definition insertedXml (diagramId mermaidCode : str) (shapeTagged : bool)
  (now : str) : str :=
  xmlDecl ++ nl ++
  lit "<MermaidDiagram>" ++ nl ++
  lit "  <Id>" ++ diagramId ++ lit "</Id>" ++ nl ++
  lit "  " ++ CDATA_OPEN ++ mermaidCode ++ CDATA_CLOSE ++ nl ++
  lit "  <ShapeTagged>" ++ bool_str shapeTagged ++ lit "</ShapeTagged>" ++ nl ++
  lit "  <CreatedAt>" ++ now ++ lit "</CreatedAt>" ++ nl ++
  lit "</MermaidDiagram>".

(** The block written by [updateDiagramData]. *)
Definition updatedXml (diagramId mermaidCode now : str) : str :=
  xmlDecl ++ nl ++
  lit "<MermaidDiagram>" ++ nl ++
  lit "  <Id>" ++ diagramId ++ lit "</Id>" ++ nl ++
  lit "  " ++ CDATA_OPEN ++ mermaidCode ++ CDATA_CLOSE ++ nl ++
  lit "  <ShapeTagged>true</ShapeTagged>" ++ nl ++
  lit "  <UpdatedAt>" ++ now ++ lit "</UpdatedAt>" ++ nl ++
  lit "</MermaidDiagram>".

Section WithPlatform.
Context {P : Platform}.

(** [idElement && idElement.textContent === diagramId] *)
Definition idElementIs (xml diagramId : str) : bool :=
  match textContentOf (lit "Id") xml with
  | Some t => JsString.eqb t diagramId
  | None => false
  end.

(** The loop of [updateDiagramData] from part [i] on, [items] being the
    parts not yet visited and [st] the whole store. *)
Fixpoint updateLoop (items : list str) (i : nat) (st : store)
  (diagramId mermaidCode now : str) : completion unit * store :=
  match items with
  | [] => (Thrown (lit "Diagram data not found for update"), st)
  | xmlPart :: rest =>
      if negb (isEmpty xmlPart) && idElementIs xmlPart diagramId
      then (Returned tt, add (delete i st) (updatedXml diagramId mermaidCode now))
      else updateLoop rest (S i) st diagramId mermaidCode now
  end.

Definition updateDiagramData (st : store) (diagramId mermaidCode now : str)
  : completion unit * store :=
  updateLoop st 0 st diagramId mermaidCode now.

(** The loop over the tags of the shape: the value of the first tag whose
    lower-cased key is [mermaid_diagram_id], the empty string if none. *)
Fixpoint diagramTag (items : list Tag) : str :=
  match items with
  | [] => []
  | tag :: rest =>
      if JsString.eqb (toLowerCase (key tag)) (lit "mermaid_diagram_id")
      then value tag
      else diagramTag rest
  end.

(** The loop over the custom XML parts once a tag has been found. *)
Fixpoint lookupByTag (parts : list str) (diagramId : str) : option DiagramData :=
  match parts with
  | [] => None
  | xml :: rest =>
      if negb (isEmpty xml)
      then match textContentOf (lit "Id") xml, textContentOf (lit "Code") xml with
           | Some idText, Some codeText =>
               if JsString.eqb idText diagramId
               then Some {| id := diagramId; code := codeText |}
               else lookupByTag rest diagramId
           | _, _ => lookupByTag rest diagramId
           end
      else lookupByTag rest diagramId
  end.

(** The steps of [getSelectedDiagram] after a shape has been settled on. *)
Definition diagramOfShape (doc : Presentation) (selectedShape : Shape)
  : option DiagramData :=
  let diagramId :=
    match tags selectedShape with
    | Some items => diagramTag items
    | None => []
    end in
  if negb (isEmpty diagramId)
  then lookupByTag (customXmlParts doc) diagramId
  else None.

Definition getSelectedDiagram (isOfficeContext : bool) (doc : Presentation)
  : option DiagramData :=
  if negb isOfficeContext then None
  else
    match selectedShapes doc with
    | Some (_ :: _ :: _) => None
    | Some [selectedShape] => diagramOfShape doc selectedShape
    | Some [] | None =>
        (* no selection: the most recent shape of the first selected slide *)
        match selectedSlides doc with
        | None => None
        | Some [] => None
        | Some (slide :: _) =>
            match nth_error (shapes slide) (length (shapes slide) - 1) with
            | None => None
            | Some lastShape => diagramOfShape doc lastShape
            end
        end
    end.

End WithPlatform.
(** *** Placing and replacing the image of a diagram *)

(** The object that [svgToPng] resolves with; [width] and [height] of the
    source are the natural size of the image. *)
Record PngResult : Type :=
  { base64 : str; naturalWidth : number; naturalHeight : number }.

(** The status passed to the callback of [setSelectedDataAsync], with
    [result.error?.message]. *)
Inductive AsyncResult : Type := Succeeded | Failed (message : option str).

(** What a call leaves behind outside the add-in, in the order in which it
    happens. *)
Inductive Effect : Type :=
| ImagePlaced (data : str) (imageLeft imageTop imageWidth imageHeight : number)
| ShapeDeleted (slide shape : nat)
| TagAdded (diagramId : str)
| RecordStoredAfterInsertion (diagramId mermaidCode : str)
| RecordStored (diagramId mermaidCode : str)
| ClipboardWritten (data : str).

(** What the host answers during one call of [insertDiagram]:
    - [selectedSlideCount]: [slides.items.length] after the first
      [context.sync()], which may throw;
    - [officeDocument]: whether [Office.context.document] is there;
    - [firstPlacement], [secondPlacement]: the status of the two calls of
      [setSelectedDataAsync];
    - [storedAfterInsertion]: [storeDiagramDataAfterInsertion] returns or
      throws, the text kept being the string conversion of what it throws;
    - [storedData]: [storeDiagramData] returns or throws;
    - [clipboardWritten]: [fetch] and [navigator.clipboard.write] return or
      throw. *)
Record InsertionAnswers : Type := {
  selectedSlideCount : completion nat;
  officeDocument : bool;
  firstPlacement : AsyncResult;
  storedAfterInsertion : completion unit;
  secondPlacement : AsyncResult;
  storedData : completion unit;
  clipboardWritten : completion unit
}.

Definition clipboardSuccess : str :=
  lit "SUCCESS: Could not insert directly. High-resolution PNG copied to clipboard! Go to PowerPoint and paste with Ctrl+V (Cmd+V on Mac).".

Definition insertionFailed : str :=
  lit "Failed to insert diagram. Please check PowerPoint is running and a slide is selected, or try refreshing the page.".

Definition shapeNotFound : str :=
  lit "Diagram shape not found - no shape with matching mermaid_diagram_id tag".

(** The promise around [setSelectedDataAsync]; [describe] is the message of
    the rejection for a failed status. *)
Definition setSelectedData (officeDocument : bool) (answer : AsyncResult)
  (describe : option str -> str) (data : str)
  (imageLeft imageTop imageWidth imageHeight : number)
  : completion unit * list Effect :=
  if officeDocument then
    match answer with
    | Succeeded =>
        (Returned tt, [ImagePlaced data imageLeft imageTop imageWidth imageHeight])
    | Failed message => (Thrown (describe message), [])
    end
  else (Thrown (lit "Office context not available"), []).

(** [`Office API insertion failed: ${result.error?.message || 'Unknown error'}`] *)
Definition insertionRejected (message : option str) : str :=
  lit "Office API insertion failed: " ++
  match message with
  | Some m => if isEmpty m then lit "Unknown error" else m
  | None => lit "Unknown error"
  end.

(** [`Failed to insert updated image: ${result.error?.message}`] *)
Definition replacementRejected (message : option str) : str :=
  lit "Failed to insert updated image: " ++
  match message with
  | Some m => m
  | None => lit "undefined"
  end.

(** [tag.key.toLowerCase() === 'mermaid_diagram_id' && tag.value === diagramId]
    for one of the tags of the shape; a shape whose tags cannot be loaded is
    passed over. *)
Definition carriesDiagram (diagramId : str) (shape : Shape) : bool :=
  match tags shape with
  | Some items =>
      existsb (fun tag =>
                 JsString.eqb (toLowerCase (key tag)) (lit "mermaid_diagram_id") &&
                 JsString.eqb (value tag) diagramId) items
  | None => false
  end.

(** The loop of [updateDiagram] over the shapes of a slide, from shape [j]. *)
Fixpoint findShape (items : list Shape) (j : nat) (diagramId : str)
  : option (nat * Shape) :=
  match items with
  | [] => None
  | shape :: rest =>
      if carriesDiagram diagramId shape then Some (j, shape)
      else findShape rest (S j) diagramId
  end.

(** The loop of [updateDiagram] over the slides, from slide [i]. *)
Fixpoint findTarget (slides : list Slide) (i : nat) (diagramId : str)
  : option (nat * nat * Shape) :=
  match slides with
  | [] => None
  | slide :: rest =>
      match findShape (shapes slide) 0 diagramId with
      | Some (j, shape) => Some (i, j, shape)
      | None => findTarget rest (S i) diagramId
      end
  end.

Section OnSlides.
Context {P : Platform}.

(** [naturalWidth] and [naturalHeight] of the image loaded from the
    markup. *)
Variable naturalSize : str -> number * number.

Definition svgToPng (svgString : str) : completion PngResult * list CanvasOp :=
  if imageLoads svgString then
    let scaleFactor := 2%float in
    let canvasWidth := (fst (naturalSize svgString) * scaleFactor)%float in
    let canvasHeight := (snd (naturalSize svgString) * scaleFactor)%float in
    let ops := [ SetSize canvasWidth canvasHeight;
                 SetSmoothing (lit "high");
                 DrawImage 0 0 canvasWidth canvasHeight ] in
    match pngBase64 ops with
    | Returned b =>
        (Returned {| base64 := b;
                     naturalWidth := fst (naturalSize svgString);
                     naturalHeight := snd (naturalSize svgString) |}, ops)
    | Thrown _ => (Thrown (lit "Failed to convert diagram to image"), ops)
    end
  else (Thrown (lit "Failed to load diagram image"), []).

Definition copyPngToClipboard (written : completion unit) (svgContent : str)
  : completion unit * list Effect :=
  match fst (svgToPng svgContent), written with
  | Returned pngResult, Returned _ =>
      (Returned tt, [ClipboardWritten (base64 pngResult)])
  | _, _ =>
      (Thrown (lit "Failed to copy image to clipboard. Browser clipboard permissions may be required."), [])
  end.

(** The outer [try] block of [insertDiagram]. *)
Definition primaryInsertion (host : InsertionAnswers)
  (diagramId mermaidCode svgContent : str) : completion unit * list Effect :=
  match fst (svgToPng svgContent) with
  | Thrown message => (Thrown message, [])
  | Returned pngResult =>
      match selectedSlideCount host with
      | Thrown message => (Thrown message, [])
      | Returned 0 =>
          (Thrown (lit "No slide selected. Please select a slide first."), [])
      | Returned (S _) =>
          match setSelectedData (officeDocument host) (firstPlacement host)
                  insertionRejected (base64 pngResult) 50 50
                  (naturalWidth pngResult) (naturalHeight pngResult) with
          | (Thrown message, placed) => (Thrown message, placed)
          | (Returned _, placed) =>
              match storedAfterInsertion host with
              | Returned _ =>
                  (Returned tt,
                   placed ++ [RecordStoredAfterInsertion diagramId mermaidCode])
              | Thrown storageError =>
                  (Thrown (lit "Image inserted successfully, but metadata storage failed: "
                           ++ storageError), placed)
              end
          end
      end
  end.

(** The [try] block of the first [catch]. *)
Definition fallbackInsertion (host : InsertionAnswers)
  (diagramId mermaidCode svgContent : str) : completion unit * list Effect :=
  match fst (svgToPng svgContent) with
  | Thrown message => (Thrown message, [])
  | Returned pngResult =>
      match setSelectedData (officeDocument host) (secondPlacement host)
              insertionRejected
              (lit "data:image/png;base64," ++ base64 pngResult) 50 50
              (naturalWidth pngResult) (naturalHeight pngResult) with
      | (Thrown message, placed) => (Thrown message, placed)
      | (Returned _, placed) =>
          match storedData host with
          | Returned _ => (Returned tt, placed ++ [RecordStored diagramId mermaidCode])
          | Thrown message => (Thrown message, placed)
          end
      end
  end.

(** [insertDiagram] of the presentation host; [diagramId] is the value of
    [generateDiagramId()]. *)
Definition insertDiagram (isOfficeContext : bool) (host : InsertionAnswers)
  (diagramId mermaidCode svgContent : str) : completion unit * list Effect :=
  if negb isOfficeContext then (Returned tt, [])
  else
    match primaryInsertion host diagramId mermaidCode svgContent with
    | (Returned _, done) => (Returned tt, done)
    | (Thrown _, done) =>
        match fallbackInsertion host diagramId mermaidCode svgContent with
        | (Returned _, done') => (Returned tt, done ++ done')
        | (Thrown _, done') =>
            match copyPngToClipboard (clipboardWritten host) svgContent with
            | (Returned _, copied) =>
                (Thrown clipboardSuccess, done ++ done' ++ copied)
            | (Thrown message, copied) =>
                if startsWith (lit "SUCCESS:") message
                then (Thrown message, done ++ done' ++ copied)
                else (Thrown insertionFailed, done ++ done' ++ copied)
            end
        end
    end.

(** [updateDiagram] of the presentation host.  [slides] are the slides of
    the presentation, [retagged] tells whether the first selected slide has
    a last shape and [tags.add] went through on it; a failure there is
    passed over by the source. *)
Definition updateDiagram (isOfficeContext : bool) (slides : list Slide)
  (officeDocument : bool) (placement : AsyncResult) (retagged : bool)
  (st : store) (diagramId mermaidCode svgContent now : str)
  : completion unit * list Effect * store :=
  if negb isOfficeContext then (Returned tt, [], st)
  else
    match fst (svgToPng svgContent) with
    | Thrown message => (Thrown message, [], st)
    | Returned pngResult =>
        match findTarget slides 0 diagramId with
        | None => (Thrown shapeNotFound, [], st)
        | Some (i, j, targetShape) =>
            match setSelectedData officeDocument placement replacementRejected
                    (base64 pngResult)
                    (left targetShape) (top targetShape)
                    (width targetShape) (height targetShape) with
            | (Thrown message, placed) =>
                (Thrown message, ShapeDeleted i j :: placed, st)
            | (Returned _, placed) =>
                let tagged := if retagged then [TagAdded diagramId] else [] in
                let stored := updateDiagramData st diagramId mermaidCode now in
                (fst stored, ShapeDeleted i j :: placed ++ tagged, snd stored)
            end
        end
    end.

End OnSlides.
End PowerPoint.

(** ** The document host (Word) *)

Module WordInserter.

Record InlinePicture : Type := { altTextDescription : str }.

(** A [{width, height}] object. *)
Record Size : Type := { width : number; height : number }.

Record PageDimensions : Type := {
  pageWidth : number; pageHeight : number;
  marginLeft : number; marginRight : number;
  marginTop : number; marginBottom : number
}.

Record Png : Type := { base64 : str; pixelWidth : number; pixelHeight : number }.

(** US Letter with one-inch margins, in points. *)
Definition getDocumentPageDimensions : PageDimensions :=
  {| pageWidth := 612; pageHeight := 792;
     marginLeft := 72; marginRight := 72; marginTop := 72; marginBottom := 72 |}.

(** [calculateOptimalDiagramSize] up to its [return]: the target width and
    height before they are rounded. *)
Definition targetSize (svgWidth svgHeight pageWidth pageHeight
  marginLeft marginRight marginTop marginBottom : number) : number * number :=
  let availableWidth := (pageWidth - marginLeft - marginRight)%float in
  let availableHeight := (pageHeight - marginTop - marginBottom)%float in
  let svgAspectRatio := (svgWidth / svgHeight)%float in
  let availableAspectRatio := (availableWidth / availableHeight)%float in
  let fitted :=
    if (availableAspectRatio <? svgAspectRatio)%float
    then (availableWidth, (availableWidth / svgAspectRatio)%float)
    else ((availableHeight * svgAspectRatio)%float, availableHeight) in
  let minSize := 144%float in
  if (fst fitted <? minSize)%float && (snd fitted <? minSize)%float
  then if (1 <? svgAspectRatio)%float
       then (minSize, (minSize / svgAspectRatio)%float)
       else ((minSize * svgAspectRatio)%float, minSize)
  else fitted.

Definition calculateOptimalDiagramSize (svgWidth svgHeight pageWidth pageHeight
  marginLeft marginRight marginTop marginBottom : number) : Size :=
  let target := targetSize svgWidth svgHeight pageWidth pageHeight
                  marginLeft marginRight marginTop marginBottom in
  {| width := Math_round (fst target);
     height := Math_round (snd target) |}.

(** The expression [/viewBox\s*=\s*[Q]([^Q]+)[Q]/] of the source, [Q]
    standing for the two quote characters, tried at the front of [s]; the
    result is capture group 1.  Each greedy run is followed by a unit
    outside its class, so giving units back cannot make a failed attempt
    succeed. *)
Definition viewBoxHere (s : str) : option str :=
  if startsWith (lit "viewBox") s then
    match skipSpaces (skipn (length (lit "viewBox")) s) with
    | c :: r =>
        if Ascii.eqb c "="%char then
          match skipSpaces r with
          | q :: r' =>
              if isQuote q then
                match span (fun u => negb (isQuote u)) r' with
                | ((_ :: _) as captured, _ :: _) => Some captured
                | _ => None
                end
              else None
          | [] => None
          end
        else None
    | [] => None
    end
  else None.

(** A unit of the class [[^Q\s>]]: no quote, no white space, no [>]. *)
Definition isValueUnit (c : ascii) : bool :=
  negb (isQuote c || isSpace c || Ascii.eqb c ">"%char).

(** The expression [/NAME\s*=\s*[Q]?([^Q\s>]+)/] tried at the front of
    [s], for the literal [NAME]. *)
Definition attributeHere (name s : str) : option str :=
  if startsWith name s then
    match skipSpaces (skipn (length name) s) with
    | c :: r =>
        if Ascii.eqb c "="%char then
          let r1 := skipSpaces r in
          let r2 := match r1 with
                    | q :: r' => if isQuote q then r' else r1
                    | [] => []
                    end in
          match fst (span isValueUnit r2) with
          | [] => None
          | captured => Some captured
          end
        else None
    | [] => None
    end
  else None.

Definition unknownSize : Size := {| width := 0; height := 0 |}.


(** The block written by [storeDiagramMetadata]. *)
Definition metadataXml (diagramId mermaidCode now : str) : str :=
  xmlDecl ++ nl ++
  lit "<MermaidDiagram>" ++ nl ++
  lit "  <Id>" ++ diagramId ++ lit "</Id>" ++ nl ++
  lit "  " ++ CDATA_OPEN ++ mermaidCode ++ CDATA_CLOSE ++ nl ++
  lit "  <CreatedAt>" ++ now ++ lit "</CreatedAt>" ++ nl ++
  lit "</MermaidDiagram>".

Definition storeDiagramMetadata (st : store) (diagramId mermaidCode now : str)
  : completion unit * store :=
  (Returned tt, add st (metadataXml diagramId mermaidCode now)).

(** [xml.value.match(/<Code><!\[CDATA\[([\s\S]*?)\]\]><\/Code>/)] *)
Definition codeMatch (xml : str) : option str :=
  matchLazyBetween CDATA_OPEN CDATA_CLOSE xml.

(** The scan of [getSelectedDiagram] over the custom XML parts: the first
    part that carries both markers and whose code can be extracted wins; a
    part whose code cannot be extracted is passed over. *)
Fixpoint findMetadata (parts : list str) (diagramId : str) : option DiagramData :=
  match parts with
  | [] => None
  | xml :: rest =>
      if includes (lit "<MermaidDiagram>") xml && includes (idMarker diagramId) xml
      then match codeMatch xml with
           | Some c => Some {| id := diagramId; code := c |}
           | None => findMetadata rest diagramId
           end
      else findMetadata rest diagramId
  end.

Definition getSelectedDiagram (st : store) (selectedPictures : list InlinePicture)
  : option DiagramData :=
  match selectedPictures with
  | [] => None
  | selectedPicture :: _ =>
      let altText := altTextDescription selectedPicture in
      if isEmpty altText || negb (startsWith (lit "MERMAID_ID:") altText)
      then None
      else findMetadata st (skipn (length (lit "MERMAID_ID:")) altText)
  end.

(** The picture that [performActualInsertion] leaves in the document: its
    alternative text is the template literal [`MERMAID_ID:${diagramId}`]. *)
Definition insertedPicture (diagramId : str) : InlinePicture :=
  {| altTextDescription := lit "MERMAID_ID:" ++ diagramId |}.

(** The picture that [updateDiagram] leaves in the document: the source
    sets its width and its height and no alternative text, and a new
    picture has none. *)
Definition replacementPicture : InlinePicture := {| altTextDescription := [] |}.

(** An expression of the shape [/OPEN([^c]+)CLOSE/] with literal [OPEN] and
    [CLOSE], tried at the front of [s]; the result is capture group 1.  In
    every use [CLOSE] starts with the excluded unit [c], so the greedy run
    ends where [CLOSE] has to start and giving units back cannot make a
    failed attempt succeed. *)
Definition classBetweenHere (open : str) (stop : ascii) (close : str) (s : str)
  : option str :=
  if startsWith open s then
    match span (fun u => negb (Ascii.eqb u stop)) (skipn (length open) s) with
    | ((_ :: _) as captured, rest) =>
        if startsWith close rest then Some captured else None
    | ([], _) => None
    end
  else None.

(** An element of the array [diagrams] of [listStoredDiagrams]. *)
Record Listed : Type := { listedId : str; created : str; codePreview : str }.

(** What [listStoredDiagrams] pushes for one part, if anything: the part has
    to carry the root element and all three expressions have to match. *)
Definition listedEntry (xml : str) : option Listed :=
  if includes (lit "<MermaidDiagram>") xml then
    match matchFirst (classBetweenHere (lit "<Id>") "<"%char (lit "</Id>")) xml,
          matchFirst (classBetweenHere (lit "<CreatedAt>") "<"%char
                        (lit "</CreatedAt>")) xml,
          matchFirst (classBetweenHere CDATA_OPEN "]"%char CDATA_CLOSE) xml with
    | Some idMatch, Some createdMatch, Some codeMatch =>
        Some {| listedId := idMatch;
                created := createdMatch;
                codePreview := firstn 50 codeMatch ++ lit "..." |}
    | _, _, _ => None
    end
  else None.

(** The array [diagrams] after the loop over the parts. *)
Fixpoint diagrams (parts : list str) : list Listed :=
  match parts with
  | [] => []
  | xml :: rest =>
      match listedEntry xml with
      | Some d => d :: diagrams rest
      | None => diagrams rest
      end
  end.

(** A non-negative integer in a template literal. *)
Definition decimal (n : nat) : str :=
  lit (NilEmpty.string_of_uint (Nat.to_uint n)).

(** [fields.join(sep)] *)
Fixpoint join (sep : str) (fields : list str) : str :=
  match fields with
  | [] => []
  | [field] => field
  | field :: rest => field ++ sep ++ join sep rest
  end.

(** [diagrams.map((d, index) => ...)], [index] counting from [from]. *)
Fixpoint listing (from : nat) (ds : list Listed) : list str :=
  match ds with
  | [] => []
  | d :: rest =>
      (decimal (from + 1) ++ lit ". ID: " ++ listedId d ++ nl ++
       lit "   Created: " ++ created d ++ nl ++
       lit "   Code: " ++ codePreview d) :: listing (S from) rest
  end.

Definition listStoredDiagrams (st : store) : str :=
  match diagrams st with
  | [] => lit "No Mermaid diagrams found in this document."
  | found =>
      lit "Found " ++ decimal (length found) ++ lit " Mermaid diagram(s):" ++
      nl ++ nl ++ join (nl ++ nl) (listing 0 found)
  end.

(** The answer of the host to [addHandlerAsync] or [removeHandlerAsync]:
    the status passed to the callback, or an exception thrown by the call
    itself. *)
Inductive AsyncResult : Type := Succeeded | Failed (message : str).

(** The inserter and what it shares with the host: the two fields of the
    instance, the number of [DocumentSelectionChanged] handlers registered
    with the document, and the custom XML parts. *)
Record State : Type := {
  insertionMode : bool;
  pendingInsertion : option (str * str);
  handlers : nat;
  customXmlParts : store
}.

Definition checkWordApiSupport (wordApi13 wordApi11 : bool) : bool :=
  if wordApi13 then true else if wordApi11 then true else false.

Definition enterInsertionMode (answer : completion AsyncResult)
  (mermaidCode svgContent : str) (s : State) : completion unit * State :=
  let s1 := {| insertionMode := true;
               pendingInsertion := Some (mermaidCode, svgContent);
               handlers := handlers s;
               customXmlParts := customXmlParts s |} in
  match answer with
  | Returned Succeeded =>
      (Returned tt,
       {| insertionMode := true;
          pendingInsertion := Some (mermaidCode, svgContent);
          handlers := S (handlers s);
          customXmlParts := customXmlParts s |})
  | Returned (Failed _) | Thrown _ =>
      (Thrown (lit "Could not enter insertion mode"), s1)
  end.

(** [removeHandlerAsync] is called without a handler, which removes every
    handler of the event type; a failed status and an exception are both
    passed over. *)
Definition exitInsertionMode (answer : completion AsyncResult) (s : State)
  : completion unit * State :=
  (Returned tt,
   {| insertionMode := false;
      pendingInsertion := None;
      handlers := match answer with
                  | Returned Succeeded => 0
                  | Returned (Failed _) | Thrown _ => handlers s
                  end;
      customXmlParts := customXmlParts s |}).

Definition awaitingPlacement : str :=
  lit "SUCCESS: Click in your document where you want the diagram to be inserted.".

Definition insertDiagram (wordApi13 wordApi11 : bool)
  (answer : completion AsyncResult) (mermaidCode svgContent : str) (s : State)
  : completion unit * State :=
  if negb (checkWordApiSupport wordApi13 wordApi11)
  then (Thrown (lit "Word API 1.1 not supported. Please use Microsoft Word 2016 or newer."), s)
  else if isEmpty svgContent || isBlank svgContent
  then (Thrown (lit "SVG content is empty or invalid"), s)
  else if negb (includes (lit "<svg") svgContent)
  then (Thrown (lit "Content does not appear to be valid SVG"), s)
  else
    match enterInsertionMode answer mermaidCode svgContent s with
    | (Returned _, s') => (Thrown awaitingPlacement, s')
    | (Thrown message, s') =>
        if startsWith (lit "SUCCESS:") message
        then (Thrown message, s')
        else (Thrown (lit "Failed to prepare insertion: " ++ message), s')
    end.

Section WithPlatform.
Context {P : Platform}.

(** The body of the [try] block of [parseSvgViewBox]. *)
Definition tryParseSvgViewBox (svgString : str) : completion Size :=
  let fromViewBox :=
    match matchFirst viewBoxHere svgString with
    | Some captured =>
        match splitSpaces captured with
        | [_; _; w; h] =>
            let width := parseFloat w in
            let height := parseFloat h in
            if negb (isNaN width) && negb (isNaN height) &&
               (0 <? width)%float && (0 <? height)%float
            then Some {| width := width; height := height |}
            else None
        | _ => None
        end
    | None => None
    end in
  match fromViewBox with
  | Some size => Returned size
  | None =>
      match matchFirst (attributeHere (lit "width")) svgString,
            matchFirst (attributeHere (lit "height")) svgString with
      | Some w, Some h =>
          let width := parseFloat w in
          let height := parseFloat h in
          if negb (isNaN width) && negb (isNaN height) &&
             (0 <? width)%float && (0 <? height)%float
          then Returned {| width := width; height := height |}
          else Returned unknownSize
      | _, _ => Returned unknownSize
      end
  end.

Definition parseSvgViewBox (svgString : str) : Size :=
  match tryParseSvgViewBox svgString with
  | Returned size => size
  | Thrown _ => unknownSize
  end.

(** The promise of [convertSvgToPngForWord] and what happened to the canvas.
    A message of [pngBase64] is the thrown value as a template literal
    prints it. *)
Definition convertSvgToPngForWord (svgString : str)
  (targetDisplayWidth targetDisplayHeight : number)
  : completion Png * list CanvasOp :=
  if imageLoads svgString then
    let pixelsPerPoint := (300 / 72)%float in
    let canvasWidth := Math_round (targetDisplayWidth * pixelsPerPoint)%float in
    let canvasHeight := Math_round (targetDisplayHeight * pixelsPerPoint)%float in
    let ops := [ SetSize canvasWidth canvasHeight;
                 SetSmoothing (lit "high");
                 SetFillStyle (lit "white");
                 FillRect 0 0 canvasWidth canvasHeight;
                 DrawImage 0 0 canvasWidth canvasHeight ] in
    match pngBase64 ops with
    | Returned b =>
        (Returned {| base64 := b; pixelWidth := canvasWidth;
                     pixelHeight := canvasHeight |}, ops)
    | Thrown canvasError =>
        (Thrown (lit "Canvas processing failed: " ++ canvasError), ops)
    end
  else (Thrown (lit "Failed to load SVG image"), []).

(** The index of the first part that holds the identifier marker: the loop
    of [updateDiagram] up to its [break]. *)
Fixpoint findMarked (items : list str) (i : nat) (diagramId : str) : option nat :=
  match items with
  | [] => None
  | xml :: rest =>
      if includes (idMarker diagramId) xml then Some i
      else findMarked rest (S i) diagramId
  end.

(** [updateDiagram] on the custom XML parts.  The deletion of the old part
    is queued in the batch of the call and reaches the document with its
    last [context.sync()], after [storeDiagramMetadata] has added the new
    part in a batch of its own; a batch that throws is dropped. *)
Definition updateDiagram (st : store) (diagramId mermaidCode svgContent now : str)
  : completion unit * store :=
  match findMarked st 0 diagramId with
  | None =>
      (Thrown (lit "Failed to update diagram: " ++
               lit "Diagram with ID " ++ diagramId ++
               lit " not found. It may have been deleted or moved."), st)
  | Some i =>
      let pageDimensions := getDocumentPageDimensions in
      let svgDimensions := parseSvgViewBox svgContent in
      let unparsed := (width svgDimensions <=? 0)%float ||
                      (height svgDimensions <=? 0)%float in
      let svgWidth := if unparsed then 800%float else width svgDimensions in
      let svgHeight := if unparsed then 600%float else height svgDimensions in
      let optimalSize :=
        calculateOptimalDiagramSize svgWidth svgHeight
          (pageWidth pageDimensions) (pageHeight pageDimensions)
          (marginLeft pageDimensions) (marginRight pageDimensions)
          (marginTop pageDimensions) (marginBottom pageDimensions) in
      match convertSvgToPngForWord svgContent
              (width optimalSize) (height optimalSize) with
      | (Thrown message, _) =>
          (Thrown (lit "Failed to update diagram: " ++ message), st)
      | (Returned _, _) =>
          let st1 := snd (storeDiagramMetadata st diagramId mermaidCode now) in
          (Returned tt, delete i st1)
      end
  end.

Definition insertionComplete : str :=
  lit "INSERTION_COMPLETE: Diagram inserted successfully at your chosen location!".

(** [performActualInsertion] on the custom XML parts; [diagramId] is the
    identifier that [generateId] draws. *)
Definition performActualInsertion (mermaidCode svgContent diagramId now : str)
  (st : store) : completion unit * store :=
  let pageDimensions := getDocumentPageDimensions in
  let svgDimensions := parseSvgViewBox svgContent in
  let svgWidth := if (0 <? width svgDimensions)%float
                  then width svgDimensions else 800%float in
  let svgHeight := if (0 <? height svgDimensions)%float
                   then height svgDimensions else 600%float in
  let optimalSize :=
    calculateOptimalDiagramSize svgWidth svgHeight
      (pageWidth pageDimensions) (pageHeight pageDimensions)
      (marginLeft pageDimensions) (marginRight pageDimensions)
      (marginTop pageDimensions) (marginBottom pageDimensions) in
  match convertSvgToPngForWord svgContent
          (width optimalSize) (height optimalSize) with
  | (Thrown message, _) => (Thrown message, st)
  | (Returned _, _) =>
      (Thrown insertionComplete,
       snd (storeDiagramMetadata st diagramId mermaidCode now))
  end.

Definition insertAtCurrentPosition (answer : completion AsyncResult)
  (diagramId now : str) (s : State) : completion unit * State :=
  match insertionMode s, pendingInsertion s with
  | true, Some (mermaidCode, svgContent) =>
      let (result, st') :=
        performActualInsertion mermaidCode svgContent diagramId now
          (customXmlParts s) in
      let s1 := {| insertionMode := insertionMode s;
                   pendingInsertion := pendingInsertion s;
                   handlers := handlers s;
                   customXmlParts := st' |} in
      let s2 := snd (exitInsertionMode answer s1) in
      match result with
      | Returned _ => (Returned tt, s2)
      | Thrown message =>
          if startsWith (lit "INSERTION_COMPLETE:") message
          then (Returned tt, s2)
          else (Thrown message, s2)
      end
  | _, _ => (Thrown (lit "Not in insertion mode"), s)
  end.

End WithPlatform.
End WordInserter.

(** ** The shape matcher *)

Module Matcher.

(** [Math.min(a, b) / Math.max(a, b)] *)
Definition sizeRatio (a b : number) : number :=
  (Math_min a b / Math_max a b)%float.

Section WithPlatform.
Context {P : Platform}.

Definition shapesApproximatelyMatch (info1 info2 : str) : bool :=
  let parts1 := map parseFloat (splitUnit ","%char info1) in
  let parts2 := map parseFloat (splitUnit ","%char info2) in
  match parts1, parts2 with
  | [left1; top1; width1; height1], [left2; top2; width2; height2] =>
      let positionTolerance := 5%float in
      let leftMatch := (Math_abs (left1 - left2) <=? positionTolerance)%float in
      let topMatch := (Math_abs (top1 - top2) <=? positionTolerance)%float in
      if negb leftMatch || negb topMatch then false
      else
        let sizeTolerancePercent := 0.5%float in
        let widthRatio := sizeRatio width1 width2 in
        let heightRatio := sizeRatio height1 height2 in
        let widthMatch := (1 - sizeTolerancePercent <=? widthRatio)%float in
        let heightMatch := (1 - sizeTolerancePercent <=? heightRatio)%float in
        if negb widthMatch || negb heightMatch then false else true
  | _, _ => false
  end.

End WithPlatform.
End Matcher.

(** ** The settings block *)

Module Settings.

Inductive OfficePlatform : Type := PowerPoint | Word | Unknown.

Definition platformName (p : OfficePlatform) : str :=
  match p with
  | PowerPoint => lit "PowerPoint"
  | Word => lit "Word"
  | Unknown => lit "Unknown"
  end.

Inductive Theme : Type := default | dark | forest | base | custom.

Definition themeName (t : Theme) : str :=
  match t with
  | default => lit "default"
  | dark => lit "dark"
  | forest => lit "forest"
  | base => lit "base"
  | custom => lit "custom"
  end.

(** [fontSize] is the number as a template literal prints it. *)
Record MermaidSettings : Type := {
  fontFamily : str;
  fontSize : str;
  primaryColor : str;
  primaryTextColor : str;
  primaryBorderColor : str;
  lineColor : str;
  backgroundColor : str;
  secondaryColor : str;
  tertiaryColor : str;
  theme : Theme
}.

Definition SETTINGS_ROOT : str := lit "<MermaidSettings>".

Definition settingsXml (settings : MermaidSettings) (now : str) : str :=
  xmlDecl ++ nl ++
  SETTINGS_ROOT ++ nl ++
  lit "  <FontFamily><![CDATA[" ++ fontFamily settings ++ lit "]]></FontFamily>" ++ nl ++
  lit "  <FontSize>" ++ fontSize settings ++ lit "</FontSize>" ++ nl ++
  lit "  <PrimaryColor>" ++ primaryColor settings ++ lit "</PrimaryColor>" ++ nl ++
  lit "  <PrimaryTextColor>" ++ primaryTextColor settings ++ lit "</PrimaryTextColor>" ++ nl ++
  lit "  <PrimaryBorderColor>" ++ primaryBorderColor settings ++ lit "</PrimaryBorderColor>" ++ nl ++
  lit "  <LineColor>" ++ lineColor settings ++ lit "</LineColor>" ++ nl ++
  lit "  <BackgroundColor>" ++ backgroundColor settings ++ lit "</BackgroundColor>" ++ nl ++
  lit "  <SecondaryColor>" ++ secondaryColor settings ++ lit "</SecondaryColor>" ++ nl ++
  lit "  <TertiaryColor>" ++ tertiaryColor settings ++ lit "</TertiaryColor>" ++ nl ++
  lit "  <Theme>" ++ themeName (theme settings) ++ lit "</Theme>" ++ nl ++
  lit "  <UpdatedAt>" ++ now ++ lit "</UpdatedAt>" ++ nl ++
  lit "</MermaidSettings>".

(** [xmlContent.value && xmlContent.value.includes('<MermaidSettings>')] *)
Definition isSettingsPart (xml : str) : bool :=
  negb (isEmpty xml) && includes SETTINGS_ROOT xml.

(** The loop that removes the existing settings: [n] parts of the loaded
    [items] are still to be visited, from part [n - 1] down to part 0. *)
Fixpoint removeExisting (n : nat) (items : list str) (st : store) : store :=
  match n with
  | O => st
  | S i =>
      match nth_error items i with
      | Some xmlPart =>
          if isSettingsPart xmlPart
          then removeExisting i items (delete i st)
          else removeExisting i items st
      | None => removeExisting i items st
      end
  end.

Definition saveSettings (isOfficeContext : bool) (platform : OfficePlatform)
  (settings : MermaidSettings) (now : str) (st : store)
  : completion unit * store :=
  if negb isOfficeContext then (Returned tt, st)
  else
    match platform with
    | PowerPoint | Word =>
        (Returned tt,
         add (removeExisting (length st) st st) (settingsXml settings now))
    | Unknown =>
        (Thrown (lit "Unsupported platform for settings: " ++ platformName platform),
         st)
    end.

(** The object spread [{...settings, primaryColor: .., .., tertiaryColor: ..}]
    of the settings panel: the seven colours are replaced, the fonts and the
    theme are kept. *)
Definition withColors (settings : MermaidSettings)
  (primary primaryText primaryBorder line background secondary tertiary : str)
  : MermaidSettings :=
  {| fontFamily := fontFamily settings;
     fontSize := fontSize settings;
     primaryColor := primary;
     primaryTextColor := primaryText;
     primaryBorderColor := primaryBorder;
     lineColor := line;
     backgroundColor := background;
     secondaryColor := secondary;
     tertiaryColor := tertiary;
     theme := theme settings |}.

(** [handlePresetChange] of the settings panel: the settings that it hands
    to [setLocalSettings]. *)
Definition handlePresetChange (localSettings : MermaidSettings) (preset : Theme)
  : MermaidSettings :=
  let newSettings :=
    {| fontFamily := fontFamily localSettings;
       fontSize := fontSize localSettings;
       primaryColor := primaryColor localSettings;
       primaryTextColor := primaryTextColor localSettings;
       primaryBorderColor := primaryBorderColor localSettings;
       lineColor := lineColor localSettings;
       backgroundColor := backgroundColor localSettings;
       secondaryColor := secondaryColor localSettings;
       tertiaryColor := tertiaryColor localSettings;
       theme := preset |} in
  match preset with
  | dark =>
      withColors newSettings (lit "#64b5f6") (lit "#ffffff") (lit "#64b5f6")
        (lit "#ffffff") (lit "#1e1e1e") (lit "#424242") (lit "#616161")
  | forest =>
      withColors newSettings (lit "#4caf50") (lit "#2e7d32") (lit "#4caf50")
        (lit "#2e7d32") (lit "#f1f8e9") (lit "#c8e6c9") (lit "#a5d6a7")
  | default =>
      withColors newSettings (lit "#0078d4") (lit "#000000") (lit "#0078d4")
        (lit "#000000") (lit "#ffffff") (lit "#e6f3ff") (lit "#b3d9ff")
  | base | custom => newSettings
  end.

(** The object that [loadSettings] resolves with: [fontSize] is a number and
    [theme] is the text of its element, whatever that text is. *)
Record LoadedSettings : Type := {
  loadedFontFamily : str;
  loadedFontSize : Z;
  loadedPrimaryColor : str;
  loadedPrimaryTextColor : str;
  loadedPrimaryBorderColor : str;
  loadedLineColor : str;
  loadedBackgroundColor : str;
  loadedSecondaryColor : str;
  loadedTertiaryColor : str;
  loadedTheme : str
}.

Definition defaultSettings : LoadedSettings :=
  {| loadedFontFamily := lit "Arial, sans-serif";
     loadedFontSize := 16;
     loadedPrimaryColor := lit "#0078d4";
     loadedPrimaryTextColor := lit "#000000";
     loadedPrimaryBorderColor := lit "#0078d4";
     loadedLineColor := lit "#000000";
     loadedBackgroundColor := lit "#ffffff";
     loadedSecondaryColor := lit "#e6f3ff";
     loadedTertiaryColor := lit "#b3d9ff";
     loadedTheme := lit "default" |}.

(** [element?.textContent || fallback]: a missing element and an empty text
    both give the fallback. *)
Definition orDefault (text : option str) (fallback : str) : str :=
  match text with
  | Some t => if isEmpty t then fallback else t
  | None => fallback
  end.

Section Loading.
Context {P : Platform}.

(** [parseInt s]: the integer read from the front of [s], or [NaN]. *)
Variable parseInt : str -> option Z.

(** What [loadSettings] makes of one settings part: nothing when the parser
    reports an error or one of the first three elements is missing. *)
Definition readSettings (xml : str) : option LoadedSettings :=
  match textContentOf (lit "parsererror") xml with
  | Some _ => None
  | None =>
      match textContentOf (lit "FontFamily") xml,
            textContentOf (lit "FontSize") xml,
            textContentOf (lit "PrimaryColor") xml with
      | Some fontFamilyText, Some fontSizeText, Some primaryColorText =>
          Some {| loadedFontFamily :=
                    orDefault (Some fontFamilyText) (loadedFontFamily defaultSettings);
                  loadedFontSize :=
                    match parseInt (orDefault (Some fontSizeText) (lit "16")) with
                    | Some n => if (n =? 0)%Z then loadedFontSize defaultSettings
                                else n
                    | None => loadedFontSize defaultSettings
                    end;
                  loadedPrimaryColor :=
                    orDefault (Some primaryColorText)
                      (loadedPrimaryColor defaultSettings);
                  loadedPrimaryTextColor :=
                    orDefault (textContentOf (lit "PrimaryTextColor") xml)
                      (loadedPrimaryTextColor defaultSettings);
                  loadedPrimaryBorderColor :=
                    orDefault (textContentOf (lit "PrimaryBorderColor") xml)
                      (loadedPrimaryBorderColor defaultSettings);
                  loadedLineColor :=
                    orDefault (textContentOf (lit "LineColor") xml)
                      (loadedLineColor defaultSettings);
                  loadedBackgroundColor :=
                    orDefault (textContentOf (lit "BackgroundColor") xml)
                      (loadedBackgroundColor defaultSettings);
                  loadedSecondaryColor :=
                    orDefault (textContentOf (lit "SecondaryColor") xml)
                      (loadedSecondaryColor defaultSettings);
                  loadedTertiaryColor :=
                    orDefault (textContentOf (lit "TertiaryColor") xml)
                      (loadedTertiaryColor defaultSettings);
                  loadedTheme :=
                    orDefault (textContentOf (lit "Theme") xml)
                      (loadedTheme defaultSettings) |}
      | _, _, _ => None
      end
  end.

(** The loop of [loadSettings] over the parts and the [return] after it. *)
Fixpoint loadLoop (items : list str) : LoadedSettings :=
  match items with
  | [] => defaultSettings
  | xmlPart :: rest =>
      if isSettingsPart xmlPart
      then match readSettings xmlPart with
           | Some loadedSettings => loadedSettings
           | None => loadLoop rest
           end
      else loadLoop rest
  end.

Definition loadSettings (isOfficeContext : bool) (platform : OfficePlatform)
  (st : store) : LoadedSettings :=
  if negb isOfficeContext then defaultSettings
  else
    match platform with
    | PowerPoint | Word => loadLoop st
    | Unknown => defaultSettings
    end.

End Loading.

End Settings.

(** ** A platform to run the embedding on

    [readDecimal] reads a decimal literal the way [parseFloat] does (white
    space, sign, [Infinity] or digits, fraction, exponent; the rest of the
    text is ignored) and returns the double nearest to it; [readElement]
    reads the text of a childless element of a well-formed document, written
    plainly or as one CDATA section. *)

Module Sample.

Definition digitOf (c : ascii) : option Z :=
  let n := nat_of_ascii c in
  if (48 <=? n) && (n <=? 57) then Some (Z.of_nat (n - 48)) else None.

Fixpoint readDigits (s : str) (acc : Z) (count : nat) : Z * nat * str :=
  match s with
  | c :: s' =>
      match digitOf c with
      | Some d => readDigits s' (10 * acc + d)%Z (S count)
      | None => (acc, count, s)
      end
  | [] => (acc, count, [])
  end.

Definition readSign (s : str) : bool * str :=
  match s with
  | c :: r =>
      if Ascii.eqb c "-"%char then (true, r)
      else if Ascii.eqb c "+"%char then (false, r)
      else (false, s)
  | [] => (false, [])
  end.

Definition readExponent (s : str) : Z :=
  match s with
  | c :: r =>
      if Ascii.eqb c "e"%char || Ascii.eqb c "E"%char then
        let (negative, r1) := readSign r in
        let '(v, n, _) := readDigits r1 0%Z 0 in
        if n =? 0 then 0%Z else if negative then (- v)%Z else v
      else 0%Z
  | [] => 0%Z
  end.

(** The double nearest to [n / d], ties to even. *)
Definition roundedQuotient (negative : bool) (n : Z) (d : positive) : number :=
  match n with
  | Zpos _ =>
      let '(q, e, l) := SFdiv_core_binary prec emax n 0 (Zpos d) 0 in
      SF2Prim (binary_round_aux prec emax negative q e l)
  | _ => if negative then neg_zero else zero
  end.

Definition readDecimal (s : str) : number :=
  let (negative, r) := readSign (skipSpaces s) in
  if startsWith (lit "Infinity") r
  then (if negative then neg_infinity else infinity)
  else
    let '(whole, nWhole, r1) := readDigits r 0%Z 0 in
    let '(fraction, nFraction, r2) :=
      match r1 with
      | c :: r' => if Ascii.eqb c "."%char then readDigits r' 0%Z 0
                   else (0%Z, 0, r1)
      | [] => (0%Z, 0, r1)
      end in
    if nWhole + nFraction =? 0 then nan
    else
      let digits := (whole * 10 ^ Z.of_nat nFraction + fraction)%Z in
      let exponent := (readExponent r2 - Z.of_nat nFraction)%Z in
      if (0 <=? exponent)%Z
      then roundedQuotient negative (digits * 10 ^ exponent)%Z 1
      else roundedQuotient negative digits (Z.to_pos (10 ^ (- exponent))).

Definition readElement (tag xml : str) : option str :=
  match matchLazyBetween (lit "<" ++ tag ++ lit ">") (lit "</" ++ tag ++ lit ">") xml with
  | Some text =>
      match matchLazyBetween (lit "<![CDATA[") (lit "]]>") text with
      | Some inner => Some inner
      | None => Some text
      end
  | None => None
  end.

(** [readInteger] reads an integer the way [parseInt] does: white space,
    sign, decimal digits; the rest of the text is ignored. *)
Definition readInteger (s : str) : option Z :=
  let (negative, r) := readSign (skipSpaces s) in
  let '(v, n, _) := readDigits r 0%Z 0 in
  if n =? 0 then None else Some (if negative then (- v)%Z else v).

Definition platform : Platform :=
  {| parseFloat := readDecimal;
     textContentOf := readElement;
     imageLoads := includes (lit "<svg");
     pngBase64 := fun _ => Returned (lit "iVBORw0KGgo=") |}.

End Sample.

(** ** Vocabulary of the properties *)

Definition metadataHead : str :=
  xmlDecl ++ nl ++ lit "<MermaidDiagram>" ++ nl ++ lit "  <Id>".
Definition metadataMid : str := lit "</Id>" ++ nl ++ lit "  ".
Definition metadataTail (now : str) : str :=
  nl ++ lit "  <CreatedAt>" ++ now ++ lit "</CreatedAt>" ++ nl ++
  lit "</MermaidDiagram>".

Definition metadataTailOpen : str := nl ++ lit "  <CreatedAt>".
Definition metadataTailClose : str :=
  lit "</CreatedAt>" ++ nl ++ lit "</MermaidDiagram>".

(** No code unit of [s] is [c]. *)
Definition without (c : ascii) (s : str) : Prop :=
  forallb (fun u => negb (Ascii.eqb u c)) s = true.

(** The shape that [getSelectedDiagram] looks at: the selected shape when
    exactly one is selected; the last shape of the first selected slide
    when none is selected or the selection cannot be read. *)
Inductive examines (doc : PowerPoint.Presentation) (s : PowerPoint.Shape) : Prop :=
| examines_selected :
    PowerPoint.selectedShapes doc = Some [s] -> examines doc s
| examines_most_recent (slide : PowerPoint.Slide) (others : list PowerPoint.Slide) :
    PowerPoint.selectedShapes doc = Some [] \/ PowerPoint.selectedShapes doc = None ->
    PowerPoint.selectedSlides doc = Some (slide :: others) ->
    nth_error (PowerPoint.shapes slide) (length (PowerPoint.shapes slide) - 1) = Some s ->
    examines doc s.

Definition carriesTag (s : PowerPoint.Shape) : Prop :=
  exists items t,
    PowerPoint.tags s = Some items /\ In t items /\
    toLowerCase (PowerPoint.key t) = lit "mermaid_diagram_id".

(** The states in which the recovery has nothing to return. *)
Inductive failsClosed {P : Platform} (doc : PowerPoint.Presentation) : Prop :=
| several_selected (s1 s2 : PowerPoint.Shape) (others : list PowerPoint.Shape) :
    PowerPoint.selectedShapes doc = Some (s1 :: s2 :: others) -> failsClosed doc
| nothing_to_examine :
    (forall s, ~ examines doc s) -> failsClosed doc
| not_tagged (s : PowerPoint.Shape) :
    examines doc s -> ~ carriesTag s -> failsClosed doc
| tag_without_record (s : PowerPoint.Shape) (items : list PowerPoint.Tag) :
    examines doc s -> PowerPoint.tags s = Some items ->
    (forall xml, In xml (PowerPoint.customXmlParts doc) ->
       textContentOf (lit "Id") xml <> Some (PowerPoint.diagramTag items)) ->
    failsClosed doc.

(** The same shape somewhere else and of another size. *)
Definition relocate (g : PowerPoint.Shape -> number * number * number * number)
  (s : PowerPoint.Shape)
  : PowerPoint.Shape :=
  let '(l, t, w, h) := g s in
  {| PowerPoint.left := l; PowerPoint.top := t;
     PowerPoint.width := w; PowerPoint.height := h;
     PowerPoint.tags := PowerPoint.tags s |}.

Definition relocateAll (g : PowerPoint.Shape -> number * number * number * number)
  (doc : PowerPoint.Presentation) : PowerPoint.Presentation :=
  {| PowerPoint.selectedShapes :=
       option_map (map (relocate g)) (PowerPoint.selectedShapes doc);
     PowerPoint.selectedSlides :=
       option_map
         (map (fun slide =>
                 {| PowerPoint.shapes := map (relocate g) (PowerPoint.shapes slide) |}))
         (PowerPoint.selectedSlides doc);
     PowerPoint.customXmlParts := PowerPoint.customXmlParts doc |}.

(** The canvas is sized [w] by [h], then filled with white over its whole
    area, and only then is the image drawn over that area; nothing is
    painted before the fill. *)
Definition whiteThenImage (ops : list CanvasOp) (w h : number) : Prop :=
  exists quality,
    ops = [ SetSize w h; SetSmoothing quality;
            SetFillStyle (lit "white"); FillRect 0 0 w h;
            DrawImage 0 0 w h ].

(** A double that is finite with its value between two bounds. *)
Definition within (lo hi : Q) (x : number) : Prop :=
  isFinite x = true /\ (lo <= valueOf x <= hi)%Q.

(** The error of one operation of double arithmetic on numbers of ordinary
    size is at most [eps] of the exact result, plus [tiny] near zero; that
    of two operations in a row is within [delta], and [slack] covers what
    the planner accumulates. *)
Definition eps : Q := 1 # 562949953421312.
Definition tiny : Q := pow2 (-1072).
Definition delta : Q := 1 # 281474976710656.
Definition slack : Q := 1 # 70368744177664.

(** A target of the planner keeps the aspect ratio of the diagram: both
    sides are finite, and their roundings are within one half, and the
    error of the double arithmetic, of a width and a height whose ratio is
    exactly that of the diagram. *)
Definition keepsAspect (svgWidth svgHeight : number) (target : number * number) : Prop :=
  isFinite (fst target) = true /\ isFinite (snd target) = true /\
  exists targetWidth targetHeight : Q,
    (targetWidth * valueOf svgHeight == targetHeight * valueOf svgWidth)%Q /\
    isFinite (Math_round (fst target)) = true /\
    isFinite (Math_round (snd target)) = true /\
    (Qabs (valueOf (Math_round (fst target)) - targetWidth)
     <= (1 # 2) + slack * (1 + Qabs targetWidth))%Q /\
    (Qabs (valueOf (Math_round (snd target)) - targetHeight)
     <= (1 # 2) + slack * (1 + Qabs targetHeight))%Q.

(** A run of white space, and a text that holds none. *)
Definition whiteSpace (ws : str) : Prop := forallb isSpace ws = true.
Definition unspaced (field : str) : Prop :=
  forallb (fun u => negb (isSpace u)) field = true.

(** The declaration [viewBox = 'value'] right after [before] in
    [svgString]: the name, white space, the equals sign, white space, a
    quote, a [value] that is not empty and holds no quote, and a quote. *)
Definition viewBoxAt (svgString before value : str) : Prop :=
  exists (ws1 ws2 : str) (q1 q2 : ascii) (after : str),
    svgString = before ++ lit "viewBox" ++ ws1 ++ "="%char :: ws2
                  ++ q1 :: value ++ q2 :: after /\
    whiteSpace ws1 /\ whiteSpace ws2 /\
    isQuote q1 = true /\ isQuote q2 = true /\
    value <> [] /\ forallb (fun u => negb (isQuote u)) value = true.

(** The declaration that a search from the left finds: no declaration
    starts before it. *)
Definition firstViewBox (svgString value : str) : Prop :=
  exists before,
    viewBoxAt svgString before value /\
    forall before' value',
      viewBoxAt svgString before' value' -> length before <= length before'.

(** The attribute [name = value] right after [before] in [svgString]: the
    name, white space, the equals sign, white space, a quote or none, and
    the [value]: the longest run, not empty, of units that are no quote, no
    white space and no [>]. *)
Definition attributeAt (name svgString before value : str) : Prop :=
  exists ws1 ws2 quote after : str,
    svgString = before ++ name ++ ws1 ++ "="%char :: ws2
                  ++ quote ++ value ++ after /\
    whiteSpace ws1 /\ whiteSpace ws2 /\
    (quote = [] \/ exists q, quote = [q] /\ isQuote q = true) /\
    value <> [] /\ forallb WordInserter.isValueUnit value = true /\
    match after with
    | c :: _ => WordInserter.isValueUnit c = false
    | [] => True
    end.

Definition firstAttribute (name svgString value : str) : Prop :=
  exists before,
    attributeAt name svgString before value /\
    forall before' value',
      attributeAt name svgString before' value' -> length before <= length before'.

(** [value] is the four fields [x], [y], [w] and [h] with white space
    between them; white space at the front or at the end of [value] leaves
    [x] or [h] empty. *)
Definition fourFields (value x y w h : str) : Prop :=
  exists ws1 ws2 ws3 : str,
    value = x ++ ws1 ++ y ++ ws2 ++ w ++ ws3 ++ h /\
    whiteSpace ws1 /\ ws1 <> [] /\ whiteSpace ws2 /\ ws2 <> [] /\
    whiteSpace ws3 /\ ws3 <> [] /\
    unspaced x /\ unspaced y /\ y <> [] /\ unspaced w /\ w <> [] /\ unspaced h.

(** A number above zero; [NaN] is not. *)
Definition aboveZero (x : number) : Prop := (0 <? x)%float = true.

Section Parsing.
Context {P : Platform}.

(** The size that the [viewBox] declaration gives: the declaration found
    first has four fields of which the last two read as numbers above
    zero. *)
Definition viewBoxSize (svgString : str) (size : WordInserter.Size) : Prop :=
  exists value x y w h : str,
    firstViewBox svgString value /\ fourFields value x y w h /\
    aboveZero (parseFloat w) /\ aboveZero (parseFloat h) /\
    size = {| WordInserter.width := parseFloat w;
              WordInserter.height := parseFloat h |}.

(** The size that the attributes give: the first [width] and the first
    [height] attribute both read as numbers above zero. *)
Definition attributesSize (svgString : str) (size : WordInserter.Size) : Prop :=
  exists w h : str,
    firstAttribute (lit "width") svgString w /\
    firstAttribute (lit "height") svgString h /\
    aboveZero (parseFloat w) /\ aboveZero (parseFloat h) /\
    size = {| WordInserter.width := parseFloat w;
              WordInserter.height := parseFloat h |}.

(** The dimensions of a markup: those of the [viewBox]; without them those
    of the attributes; without either the size 0 by 0. *)
Definition dimensionsOf (svgString : str) (size : WordInserter.Size) : Prop :=
  viewBoxSize svgString size \/
  (forall other, ~ viewBoxSize svgString other) /\
  (attributesSize svgString size \/
   (forall other, ~ attributesSize svgString other) /\
   size = WordInserter.unknownSize).

End Parsing.

(** [t] does not start with a unit of the class [f]. *)
Definition notStarting (f : ascii -> bool) (t : str) : Prop :=
  match t with
  | c :: _ => f c = false
  | [] => True
  end.

(** No insertion is pending and no handler is registered. *)
Definition idle (parts : store) : WordInserter.State :=
  {| WordInserter.insertionMode := false;
     WordInserter.pendingInsertion := None;
     WordInserter.handlers := 0;
     WordInserter.customXmlParts := parts |}.

(** Phase 1 is done: the diagram waits for its place, one handler listens. *)
Definition awaiting (mermaidCode svgContent : str) (parts : store)
  : WordInserter.State :=
  {| WordInserter.insertionMode := true;
     WordInserter.pendingInsertion := Some (mermaidCode, svgContent);
     WordInserter.handlers := 1;
     WordInserter.customXmlParts := parts |}.

(** The markup passes the checks of [insertDiagram]. *)
Definition looksLikeSvg (svgContent : str) : Prop :=
  isEmpty svgContent = false /\ isBlank svgContent = false /\
  includes (lit "<svg") svgContent = true.

Definition keepsPart (xml : str) : bool :=
  negb (includes Settings.SETTINGS_ROOT xml).

(** ** Sample inputs *)

Definition sampleNow : str := lit "2024-05-01T10:00:00.000Z".

(** A source text with a newline, quotes and the sequence [']]>']. *)
Definition sampleCode : str :=
  lit "graph TD" ++ nl ++ lit "  A[" ++ dquote ++ lit "a]]>b" ++ dquote ++
  lit "] --> B['c']".

Definition sampleStore : store :=
  [WordInserter.metadataXml (lit "mermaid-k3j9x0q1a") (lit "graph LR") sampleNow].

Definition sampleSlideParts : store :=
  [PowerPoint.insertedXml (lit "mermaid_1714557600000_k3j9x0q1a") (lit "graph LR")
     false sampleNow].

(** The store of a document with one diagram, whose source text quotes the
    identifier marker of a diagram that the store does not hold. *)
Definition quotingStore : store :=
  [WordInserter.metadataXml (lit "mermaid-k3j9x0q1a")
     (lit "graph TD" ++ nl ++ lit "  A[<Id>mermaid-7f3k2m9qz</Id>] --> B")
     (lit "2024-04-30T08:15:00.000Z")].

(** The record of a diagram whose shape was tagged at insertion. *)
Definition sampleOld : str :=
  PowerPoint.insertedXml (lit "mermaid-7f3k2m9qz") (lit "graph TD") true
    (lit "2024-04-30T08:15:00.000Z").

(** The record of a diagram whose shape could not be tagged. *)
Definition sampleUntagged : str :=
  PowerPoint.insertedXml (lit "mermaid-7f3k2m9qz") (lit "graph TD") false
    (lit "2024-04-30T08:15:00.000Z").

Definition taggedShape : PowerPoint.Shape :=
  {| PowerPoint.left := 50; PowerPoint.top := 50;
     PowerPoint.width := 600; PowerPoint.height := 450;
     PowerPoint.tags :=
       Some [{| PowerPoint.key := lit "MERMAID_DIAGRAM_ID";
                PowerPoint.value := lit "mermaid-7f3k2m9qz" |}] |}.

Definition plainShape : PowerPoint.Shape :=
  {| PowerPoint.left := 10; PowerPoint.top := 20;
     PowerPoint.width := 300; PowerPoint.height := 200;
     PowerPoint.tags := Some [] |}.

(** One tagged shape is selected and the store has no record for its tag. *)
Definition orphanSelected : PowerPoint.Presentation :=
  {| PowerPoint.selectedShapes := Some [taggedShape];
     PowerPoint.selectedSlides :=
       Some [{| PowerPoint.shapes := [plainShape; taggedShape] |}];
     PowerPoint.customXmlParts := sampleSlideParts |}.

(** Nothing is selected; the last shape of the slide is tagged and its
    record is in the store. *)
Definition nothingSelected : PowerPoint.Presentation :=
  {| PowerPoint.selectedShapes := Some [];
     PowerPoint.selectedSlides :=
       Some [{| PowerPoint.shapes := [plainShape; taggedShape] |}];
     PowerPoint.customXmlParts := sampleSlideParts ++ [sampleOld] |}.

Definition sampleSettings : Settings.MermaidSettings :=
  {| Settings.fontFamily := lit "Arial, sans-serif";
     Settings.fontSize := lit "16";
     Settings.primaryColor := lit "#0078d4";
     Settings.primaryTextColor := lit "#000000";
     Settings.primaryBorderColor := lit "#0078d4";
     Settings.lineColor := lit "#000000";
     Settings.backgroundColor := lit "#ffffff";
     Settings.secondaryColor := lit "#e6f3ff";
     Settings.tertiaryColor := lit "#b3d9ff";
     Settings.theme := Settings.default |}.

(** Two settings blocks of earlier saves around a diagram record. *)
Definition twiceSaved : store :=
  [Settings.settingsXml sampleSettings (lit "2024-04-29T09:00:00.000Z")] ++
  sampleStore ++
  [Settings.settingsXml sampleSettings (lit "2024-04-30T09:00:00.000Z")].

(** ** Proof automation *)

(** Discharges a bounded quantification over positions of a literal by
    running through the positions. *)
Ltac each_position k Hk :=
  vm_compute in Hk;
  do 80 (try (destruct k as [|k]; [try reflexivity; try (exfalso; lia)|]));
  try (exfalso; lia).

(* ================================================================== *)
(** * Part II: properties                                              *)
(* ================================================================== *)

(** ** String search *)

Lemma startsWith_app (p s : str) : startsWith p (p ++ s) = true.
Proof.
  induction p as [|x p IH]; simpl; [reflexivity|].
  now rewrite Ascii.eqb_refl, IH.
Qed.

Lemma startsWith_inv (p s : str) :
  startsWith p s = true -> exists r, s = p ++ r.
Proof.
  revert s; induction p as [|x p IH]; intros s H.
  - now exists s.
  - destruct s as [|y s]; simpl in H; [discriminate|].
    apply andb_true_iff in H as [Hxy H].
    apply Ascii.eqb_eq in Hxy; subst y.
    destruct (IH _ H) as [r ->]. now exists r.
Qed.

Lemma skipn_length_app (p s : str) : skipn (length p) (p ++ s) = s.
Proof. induction p; simpl; auto. Qed.

Lemma splitOn_startsWith (n s : str) :
  startsWith n s = true -> splitOn n s = Some ([], skipn (length n) s).
Proof. intros H. destruct s; simpl; now rewrite H. Qed.

Lemma splitOn_here (n s : str) : splitOn n (n ++ s) = Some ([], s).
Proof.
  rewrite splitOn_startsWith by apply startsWith_app.
  now rewrite skipn_length_app.
Qed.

Lemma includes_here (n a s : str) :
  startsWith n s = true -> includes n (a ++ s) = true.
Proof.
  intros H. unfold includes.
  induction a as [|c a IH]; simpl app.
  - now rewrite (splitOn_startsWith _ _ H).
  - simpl. destruct (startsWith n (c :: a ++ s)); [reflexivity|].
    destruct (splitOn n (a ++ s)) as [[? ?]|]; [reflexivity|discriminate].
Qed.

Lemma includes_app_mid (n a s : str) : includes n (a ++ n ++ s) = true.
Proof. apply includes_here, startsWith_app. Qed.

Lemma includes_app_l (n a s : str) :
  includes n a = true -> includes n (a ++ s) = true.
Proof.
  unfold includes. intros H.
  destruct (splitOn n a) as [[b r]|] eqn:E; [clear H|discriminate].
  revert b r E. induction a as [|c a IH]; intros b r E.
  - simpl in E. destruct (startsWith n []) eqn:S0; [|discriminate].
    destruct n; [|discriminate]. destruct s; reflexivity.
  - simpl in E. destruct (startsWith n (c :: a)) eqn:S0.
    + apply startsWith_inv in S0 as [t Ht]. rewrite Ht, <- app_assoc.
      now rewrite (splitOn_startsWith _ _ (startsWith_app n (t ++ s))).
    + destruct (splitOn n a) as [[b' r']|] eqn:E'; [|discriminate].
      simpl. destruct (startsWith n (c :: a ++ s)); [reflexivity|].
      specialize (IH _ _ eq_refl).
      destruct (splitOn n (a ++ s)) as [[? ?]|]; [reflexivity|discriminate].
Qed.

(** A prefix longer than the needle decides [startsWith] on its own. *)
Lemma startsWith_app_long (n a s : str) :
  length n <= length a -> startsWith n (a ++ s) = startsWith n a.
Proof.
  revert a; induction n as [|x n IH]; intros a L; [reflexivity|].
  destruct a as [|y a]; simpl in L; [lia|].
  simpl. rewrite IH by lia. reflexivity.
Qed.

(** A prefix shorter than the needle leaves the rest of the needle to be
    matched against what follows. *)
Lemma startsWith_app_short (n a s : str) :
  length a <= length n ->
  startsWith n (a ++ s) = true -> startsWith (skipn (length a) n) s = true.
Proof.
  revert n; induction a as [|y a IH]; intros n L H; [exact H|].
  destruct n as [|x n]; simpl in L; [lia|].
  simpl in H. apply andb_true_iff in H as [_ H].
  simpl. apply IH; [lia|exact H].
Qed.

(** No occurrence of [n] starts inside [a] when [a] is followed by [s]:
    [a] does not contain [n], and no proper suffix of [n] starts [s]. *)
Lemma no_start_inside (n a s : str) :
  includes n a = false ->
  (forall k, 0 < k < length n -> startsWith (skipn k n) s = false) ->
  forall a1 a2, a = a1 ++ a2 -> a2 <> [] -> startsWith n (a2 ++ s) = false.
Proof.
  intros Hinc Hedge a1 a2 -> Hne.
  destruct (startsWith n (a2 ++ s)) eqn:E; [exfalso|reflexivity].
  destruct (le_lt_dec (length n) (length a2)) as [L|L].
  - rewrite startsWith_app_long in E by exact L.
    rewrite <- (app_nil_r a2), (includes_here n a1 _) in Hinc;
      [discriminate|now rewrite app_nil_r].
  - apply startsWith_app_short in E; [|lia].
    rewrite Hedge in E; [discriminate|].
    destruct a2; [congruence|simpl in *; lia].
Qed.

Lemma splitOn_skip (n a s : str) :
  (forall a1 a2, a = a1 ++ a2 -> a2 <> [] -> startsWith n (a2 ++ s) = false) ->
  splitOn n (a ++ s) =
  match splitOn n s with
  | Some (before, rest) => Some (a ++ before, rest)
  | None => None
  end.
Proof.
  induction a as [|c a IH]; intros H.
  - simpl. destruct (splitOn n s) as [[? ?]|]; reflexivity.
  - pose proof (H [] (c :: a) eq_refl ltac:(discriminate)) as H0.
    simpl app in *. simpl splitOn. rewrite H0.
    rewrite IH.
    + destruct (splitOn n s) as [[? ?]|]; reflexivity.
    + intros a1 a2 -> Hne. apply (H (c :: a1) a2); [reflexivity|exact Hne].
Qed.

(** The first occurrence of [n] in [a ++ n ++ s] is the one written out. *)
Lemma splitOn_first (n a s : str) :
  includes n a = false ->
  (forall k, 0 < k < length n -> startsWith (skipn k n) (n ++ s) = false) ->
  splitOn n (a ++ n ++ s) = Some (a, s).
Proof.
  intros Hinc Hedge.
  rewrite splitOn_skip by (eapply no_start_inside; eassumption).
  now rewrite splitOn_here, app_nil_r.
Qed.

Lemma splitOn_sound (n s before rest : str) :
  splitOn n s = Some (before, rest) -> s = before ++ n ++ rest.
Proof.
  revert before rest; induction s as [|c s IH]; intros before rest H.
  - simpl in H. destruct (startsWith n []) eqn:E; [|discriminate].
    destruct n; [|discriminate]. injection H as <- <-. reflexivity.
  - simpl in H. destruct (startsWith n (c :: s)) eqn:E.
    + injection H as <- <-. apply startsWith_inv in E as [r Hr].
      rewrite Hr, skipn_length_app. reflexivity.
    + destruct (splitOn n s) as [[b r]|]; [|discriminate].
      injection H as <- <-. now rewrite (IH b r eq_refl).
Qed.

Lemma splitOn_app_l (n a s before rest : str) :
  splitOn n a = Some (before, rest) ->
  splitOn n (a ++ s) = Some (before, rest ++ s).
Proof.
  revert before rest; induction a as [|c a IH]; intros before rest H.
  - simpl in H. destruct (startsWith n []) eqn:E; [|discriminate].
    destruct n; [|discriminate]. injection H as <- <-.
    destruct s; reflexivity.
  - simpl in H. destruct (startsWith n (c :: a)) eqn:E.
    + injection H as <- <-.
      apply startsWith_inv in E as [r Hr].
      rewrite Hr, <- app_assoc.
      rewrite (splitOn_startsWith _ _ (startsWith_app n (r ++ s))).
      now rewrite !skipn_length_app.
    + destruct (splitOn n a) as [[b r]|] eqn:Ea; [|discriminate].
      injection H as <- <-.
      assert (Hs : startsWith n ((c :: a) ++ s) = false).
      { destruct (startsWith n ((c :: a) ++ s)) eqn:Es; [|reflexivity].
        destruct (le_lt_dec (length n) (length (c :: a))) as [L|L].
        - rewrite startsWith_app_long in Es by exact L. congruence.
        - apply splitOn_sound in Ea.
          assert (length a = length (b ++ n ++ r)) by now rewrite <- Ea.
          rewrite !length_app in H. simpl in L. lia. }
      simpl app in *. simpl splitOn. rewrite Hs.
      now rewrite (IH b r eq_refl).
Qed.

Lemma splitOn_skip_idx (n a s : str) :
  (forall k, k < length a -> startsWith n (skipn k a ++ s) = false) ->
  splitOn n (a ++ s) =
  match splitOn n s with
  | Some (before, rest) => Some (a ++ before, rest)
  | None => None
  end.
Proof.
  intros H. apply splitOn_skip. intros a1 a2 -> Hne.
  specialize (H (length a1)).
  rewrite skipn_app, skipn_all, Nat.sub_diag in H. simpl in H.
  apply H. rewrite length_app. destruct a2; [congruence|simpl; lia].
Qed.

Lemma matchFirst_skip {A : Type} (here : str -> option A) (a s : str) :
  (forall a1 a2, a = a1 ++ a2 -> a2 <> [] -> here (a2 ++ s) = None) ->
  matchFirst here (a ++ s) = matchFirst here s.
Proof.
  induction a as [|c a IH]; intros H; [reflexivity|].
  pose proof (H [] (c :: a) eq_refl ltac:(discriminate)) as H0.
  simpl app in *. simpl matchFirst. rewrite H0.
  apply IH. intros a1 a2 -> Hne.
  apply (H (c :: a1) a2); [reflexivity|exact Hne].
Qed.

Lemma matchFirst_skip_idx {A : Type} (here : str -> option A) (a s : str) :
  (forall k, k < length a -> here (skipn k a ++ s) = None) ->
  matchFirst here (a ++ s) = matchFirst here s.
Proof.
  intros H. apply matchFirst_skip. intros a1 a2 -> Hne.
  specialize (H (length a1)).
  rewrite skipn_app, skipn_all, Nat.sub_diag in H. simpl in H.
  apply H. rewrite length_app. destruct a2; [congruence|simpl; lia].
Qed.

Lemma matchFirst_here {A : Type} (here : str -> option A) (s : str) (r : A) :
  here s = Some r -> matchFirst here s = Some r.
Proof. intros H. destruct s; simpl; now rewrite H. Qed.

(** ** C1: the source text through [storeDiagramMetadata] and back *)

Lemma metadataXml_shape (diagramId mermaidCode now : str) :
  WordInserter.metadataXml diagramId mermaidCode now =
  metadataHead ++ diagramId ++ metadataMid ++
  CDATA_OPEN ++ mermaidCode ++ CDATA_CLOSE ++ metadataTail now.
Proof. reflexivity. Qed.

Lemma codeMatch_metadataXml (diagramId mermaidCode now : str) :
  includes CDATA_CLOSE mermaidCode = false ->
  includes CDATA_OPEN diagramId = false ->
  WordInserter.codeMatch (WordInserter.metadataXml diagramId mermaidCode now)
  = Some mermaidCode.
Proof.
  intros Hcode Hid. rewrite metadataXml_shape.
  unfold WordInserter.codeMatch, matchLazyBetween.
  rewrite (splitOn_skip_idx CDATA_OPEN metadataHead).
  2:{ intros k Hk. each_position k Hk. }
  rewrite (splitOn_skip CDATA_OPEN diagramId).
  2:{ apply no_start_inside; [exact Hid|]. intros k Hk. each_position k Hk. }
  rewrite (splitOn_skip_idx CDATA_OPEN metadataMid).
  2:{ intros k Hk. each_position k Hk. }
  rewrite splitOn_here.
  rewrite splitOn_first; [reflexivity|exact Hcode|].
  intros k Hk. each_position k Hk.
Qed.

Lemma metadataXml_markers (diagramId mermaidCode now : str) :
  includes (lit "<MermaidDiagram>")
    (WordInserter.metadataXml diagramId mermaidCode now) = true /\
  includes (idMarker diagramId)
    (WordInserter.metadataXml diagramId mermaidCode now) = true.
Proof.
  split.
  - apply (includes_app_mid (lit "<MermaidDiagram>") (xmlDecl ++ nl)).
  - unfold WordInserter.metadataXml, idMarker.
    set (rest := nl ++ _ ++ CDATA_OPEN ++ _).
    replace (xmlDecl ++ nl ++ lit "<MermaidDiagram>" ++ nl ++ lit "  <Id>" ++
             diagramId ++ lit "</Id>" ++ rest)
      with ((xmlDecl ++ nl ++ lit "<MermaidDiagram>" ++ nl ++ lit "  ") ++
            (lit "<Id>" ++ diagramId ++ lit "</Id>") ++ rest).
    + apply includes_app_mid.
    + rewrite <- !app_assoc. reflexivity.
Qed.

Lemma findMetadata_fresh (st : store) (xml diagramId : str) :
  Forall (fun p => includes (idMarker diagramId) p = false) st ->
  WordInserter.findMetadata (st ++ [xml]) diagramId =
  WordInserter.findMetadata [xml] diagramId.
Proof.
  induction 1 as [|p st Hp _ IH]; [reflexivity|].
  simpl app. cbn [WordInserter.findMetadata].
  rewrite Hp, andb_false_r. exact IH.
Qed.

(** C1 (as amended): a record written by [storeDiagramMetadata] is read back
    by [getSelectedDiagram] with exactly the source text that was stored,
    whatever newlines, quotes or [']]>'] sequences it holds, provided the
    text does not contain the closing sequence [']]></Code>'] of its own
    field, the identifier does not contain the opening sequence of that
    field, and no part already in the store carries the identifier
    marker. *)
Theorem metadata_roundtrip
  (st : store) (diagramId mermaidCode now : str)
  (others : list WordInserter.InlinePicture) :
  includes CDATA_CLOSE mermaidCode = false ->
  includes CDATA_OPEN diagramId = false ->
  Forall (fun p => includes (idMarker diagramId) p = false) st ->
  WordInserter.getSelectedDiagram
    (snd (WordInserter.storeDiagramMetadata st diagramId mermaidCode now))
    ({| WordInserter.altTextDescription := lit "MERMAID_ID:" ++ diagramId |}
       :: others)
  = Some {| id := diagramId; code := mermaidCode |}.
Proof.
  intros Hcode Hid Hfresh.
  unfold WordInserter.getSelectedDiagram, WordInserter.storeDiagramMetadata, add.
  cbn [snd WordInserter.altTextDescription].
  change (isEmpty (lit "MERMAID_ID:" ++ diagramId)) with false.
  rewrite startsWith_app, skipn_length_app. cbn [orb negb].
  rewrite findMetadata_fresh by exact Hfresh.
  cbn [WordInserter.findMetadata].
  destruct (metadataXml_markers diagramId mermaidCode now) as [-> ->].
  now rewrite codeMatch_metadataXml.
Qed.

Lemma metadata_roundtrip_witness :
  includes CDATA_CLOSE sampleCode = false /\
  includes CDATA_OPEN (lit "mermaid-7f3k2m9qz") = false /\
  Forall (fun p => includes (idMarker (lit "mermaid-7f3k2m9qz")) p = false)
    sampleStore /\
  WordInserter.getSelectedDiagram
    (snd (WordInserter.storeDiagramMetadata sampleStore
            (lit "mermaid-7f3k2m9qz") sampleCode sampleNow))
    [{| WordInserter.altTextDescription :=
          lit "MERMAID_ID:" ++ lit "mermaid-7f3k2m9qz" |}]
  = Some {| id := lit "mermaid-7f3k2m9qz"; code := sampleCode |}.
Proof.
  assert (H1 : includes CDATA_CLOSE sampleCode = false) by reflexivity.
  assert (H2 : includes CDATA_OPEN (lit "mermaid-7f3k2m9qz") = false)
    by reflexivity.
  assert (H3 : Forall
                 (fun p => includes (idMarker (lit "mermaid-7f3k2m9qz")) p = false)
                 sampleStore) by (repeat constructor).
  refine (conj H1 (conj H2 (conj H3 _))).
  exact (metadata_roundtrip sampleStore (lit "mermaid-7f3k2m9qz") sampleCode
           sampleNow [] H1 H2 H3).
Defined.

(** C1 fails as stated: a source text that holds the closing sequence of
    its own field comes back cut short. *)
Lemma metadata_roundtrip_counterexample :
  WordInserter.getSelectedDiagram
    (snd (WordInserter.storeDiagramMetadata []
            (lit "mermaid-7f3k2m9qz") (lit "A-->B %% ]]></Code> note") sampleNow))
    [{| WordInserter.altTextDescription := lit "MERMAID_ID:mermaid-7f3k2m9qz" |}]
  = Some {| id := lit "mermaid-7f3k2m9qz"; code := lit "A-->B %% " |}
  /\ lit "A-->B %% " <> lit "A-->B %% ]]></Code> note".
Proof. split; [reflexivity|discriminate]. Qed.

(** The condition on the source text cannot be dropped: a text that holds
    the closing sequence never comes back whole. *)
Lemma metadata_roundtrip_only_if
  (diagramId mermaidCode now : str) :
  includes CDATA_OPEN diagramId = false ->
  includes CDATA_CLOSE mermaidCode = true ->
  exists kept,
    WordInserter.codeMatch (WordInserter.metadataXml diagramId mermaidCode now)
      = Some kept /\
    length kept < length mermaidCode.
Proof.
  intros Hid Hcode. rewrite metadataXml_shape.
  unfold WordInserter.codeMatch, matchLazyBetween.
  rewrite (splitOn_skip_idx CDATA_OPEN metadataHead).
  2:{ intros k Hk. each_position k Hk. }
  rewrite (splitOn_skip CDATA_OPEN diagramId).
  2:{ apply no_start_inside; [exact Hid|]. intros k Hk. each_position k Hk. }
  rewrite (splitOn_skip_idx CDATA_OPEN metadataMid).
  2:{ intros k Hk. each_position k Hk. }
  rewrite splitOn_here.
  unfold includes in Hcode.
  destruct (splitOn CDATA_CLOSE mermaidCode) as [[kept rest]|] eqn:E;
    [|discriminate].
  rewrite (splitOn_app_l _ _ _ _ _ E).
  exists kept. split; [reflexivity|].
  apply splitOn_sound in E. rewrite E, !length_app. simpl. lia.
Qed.


(** ** C3: an update of an identifier that the store does not hold *)

Lemma str_eqb_eq (a b : str) : JsString.eqb a b = true <-> a = b.
Proof.
  revert b; induction a as [|x a IH]; intros [|y b]; simpl;
    try (split; [discriminate|discriminate]); [tauto|].
  rewrite andb_true_iff, Ascii.eqb_eq, IH.
  split; [intros [-> ->]; reflexivity|intros [= -> ->]; auto].
Qed.

Lemma str_eqb_refl (a : str) : JsString.eqb a a = true.
Proof. now apply str_eqb_eq. Qed.

Lemma idElementIs_true {P : Platform} (xml diagramId : str) :
  PowerPoint.idElementIs xml diagramId = true <->
  textContentOf (lit "Id") xml = Some diagramId.
Proof.
  unfold PowerPoint.idElementIs.
  destruct (textContentOf (lit "Id") xml) as [t|].
  - rewrite str_eqb_eq. split; congruence.
  - split; discriminate.
Qed.

Lemma updateLoop_none {P : Platform} (items : list str) (i : nat) (st : store)
  (diagramId mermaidCode now : str) :
  (forall xml, In xml items -> textContentOf (lit "Id") xml <> Some diagramId) ->
  PowerPoint.updateLoop items i st diagramId mermaidCode now =
  (Thrown (lit "Diagram data not found for update"), st).
Proof.
  revert i; induction items as [|xml rest IH]; intros i H; [reflexivity|].
  cbn [PowerPoint.updateLoop].
  destruct (PowerPoint.idElementIs xml diagramId) eqn:E.
  - apply idElementIs_true in E. now elim (H xml (or_introl eq_refl)).
  - rewrite andb_false_r. apply IH. intros x Hx. apply H. now right.
Qed.

Lemma findMarked_none (items : list str) (i : nat) (diagramId : str) :
  (forall xml, In xml items -> includes (idMarker diagramId) xml = false) ->
  WordInserter.findMarked items i diagramId = None.
Proof.
  revert i; induction items as [|xml rest IH]; intros i H; [reflexivity|].
  cbn [WordInserter.findMarked].
  rewrite (H xml (or_introl eq_refl)). apply IH.
  intros x Hx. apply H. now right.
Qed.

(** When no custom XML part answers to the identifier (on the presentation
    host no part has an [Id] element with that text, on the document host
    no part holds the [<Id>...</Id>] marker of the identifier anywhere in
    its text), the update throws its not-found error and the store is the
    one it was given: no part added, deleted or changed. *)
Theorem update_missing_id_is_not_found {P : Platform}
  (slideParts documentParts : store) (diagramId mermaidCode svgContent now : str) :
  (forall xml, In xml slideParts ->
     textContentOf (lit "Id") xml <> Some diagramId) ->
  (forall xml, In xml documentParts ->
     includes (idMarker diagramId) xml = false) ->
  PowerPoint.updateDiagramData slideParts diagramId mermaidCode now =
    (Thrown (lit "Diagram data not found for update"), slideParts) /\
  WordInserter.updateDiagram documentParts diagramId mermaidCode svgContent now =
    (Thrown (lit "Failed to update diagram: Diagram with ID " ++ diagramId ++
             lit " not found. It may have been deleted or moved."),
     documentParts).
Proof.
  intros Hslide Hdoc. split.
  - now apply updateLoop_none.
  - unfold WordInserter.updateDiagram.
    now rewrite findMarked_none.
Qed.

Lemma update_missing_id_is_not_found_witness :
  (forall xml, In xml sampleSlideParts ->
     textContentOf (Platform := Sample.platform) (lit "Id") xml
     <> Some (lit "mermaid-7f3k2m9qz")) /\
  (forall xml, In xml sampleStore ->
     includes (idMarker (lit "mermaid-7f3k2m9qz")) xml = false) /\
  PowerPoint.updateDiagramData (P := Sample.platform) sampleSlideParts
    (lit "mermaid-7f3k2m9qz") sampleCode sampleNow =
    (Thrown (lit "Diagram data not found for update"), sampleSlideParts) /\
  WordInserter.updateDiagram (P := Sample.platform) sampleStore
    (lit "mermaid-7f3k2m9qz") sampleCode (lit "<svg></svg>") sampleNow =
    (Thrown (lit "Failed to update diagram: Diagram with ID " ++
             lit "mermaid-7f3k2m9qz" ++
             lit " not found. It may have been deleted or moved."),
     sampleStore).
Proof.
  assert (H1 : forall xml, In xml sampleSlideParts ->
            textContentOf (Platform := Sample.platform) (lit "Id") xml
            <> Some (lit "mermaid-7f3k2m9qz")).
  { intros xml [<-|[]]. vm_compute. discriminate. }
  assert (H2 : forall xml, In xml sampleStore ->
            includes (idMarker (lit "mermaid-7f3k2m9qz")) xml = false).
  { intros xml [<-|[]]. reflexivity. }
  refine (conj H1 (conj H2 _)).
  exact (update_missing_id_is_not_found (P := Sample.platform)
           sampleSlideParts sampleStore (lit "mermaid-7f3k2m9qz") sampleCode
           (lit "<svg></svg>") sampleNow H1 H2).
Defined.

(** C3, where the code departs from it: the store below holds one record,
    of the diagram [mermaid-k3j9x0q1a], whose source text quotes the marker
    of [mermaid-7f3k2m9qz]; no record has that identifier.  The update of
    [mermaid-7f3k2m9qz] on the presentation host compares the parsed [Id]
    element and throws its not-found error, leaving the store as it was;
    the update on the document host looks for the marker anywhere in a
    part, takes the record of the other diagram for its own, deletes it and
    writes a new one, and returns normally. *)
Theorem word_update_replaces_foreign_record :
  quotingStore =
    [WordInserter.metadataXml (lit "mermaid-k3j9x0q1a")
       (lit "graph TD" ++ nl ++ lit "  A[<Id>mermaid-7f3k2m9qz</Id>] --> B")
       (lit "2024-04-30T08:15:00.000Z")] /\
  (forall xml, In xml quotingStore ->
     textContentOf (Platform := Sample.platform) (lit "Id") xml
     = Some (lit "mermaid-k3j9x0q1a")) /\
  PowerPoint.updateDiagramData (P := Sample.platform) quotingStore
    (lit "mermaid-7f3k2m9qz") (lit "graph LR") sampleNow =
  (Thrown (lit "Diagram data not found for update"), quotingStore) /\
  WordInserter.updateDiagram (P := Sample.platform) quotingStore
    (lit "mermaid-7f3k2m9qz") (lit "graph LR")
    (lit "<svg viewBox='0 0 800 600'></svg>") sampleNow =
  (Returned tt,
   [WordInserter.metadataXml (lit "mermaid-7f3k2m9qz") (lit "graph LR") sampleNow]).
Proof.
  split; [reflexivity|]. split; [|split; vm_compute; reflexivity].
  intros xml [<-|[]]. vm_compute. reflexivity.
Qed.

(** ** C4: what an update does to the store *)

Lemma delete_app_here (before after : store) (old : str) :
  delete (length before) (before ++ old :: after) = before ++ after.
Proof. induction before as [|p before IH]; simpl; [reflexivity|now rewrite IH]. Qed.

Lemma updateLoop_found {P : Platform} (before after st : store) (old : str)
  (i : nat) (diagramId mermaidCode now : str) :
  (forall xml, In xml before ->
     negb (isEmpty xml) && PowerPoint.idElementIs xml diagramId = false) ->
  negb (isEmpty old) && PowerPoint.idElementIs old diagramId = true ->
  PowerPoint.updateLoop (before ++ old :: after) i st diagramId mermaidCode now =
  (Returned tt,
   add (delete (i + length before) st)
       (PowerPoint.updatedXml diagramId mermaidCode now)).
Proof.
  intros Hbefore Hold. revert i.
  induction before as [|p before IH]; intros i.
  - simpl app. cbn [PowerPoint.updateLoop length].
    rewrite Hold. now rewrite Nat.add_0_r.
  - simpl app. cbn [PowerPoint.updateLoop length].
    rewrite (Hbefore p (or_introl eq_refl)).
    rewrite IH by (intros x Hx; apply Hbefore; now right).
    now rewrite Nat.add_succ_r.
Qed.

Lemma first_answer (f : str -> bool) (st : store) :
  (exists xml, In xml st /\ f xml = true) ->
  exists before old after,
    st = before ++ old :: after /\ f old = true /\
    forall xml, In xml before -> f xml = false.
Proof.
  induction st as [|p st IH]; intros (xml & Hin & Hf); [destruct Hin|].
  destruct (f p) eqn:Ep.
  - exists [], p, st. repeat split; [exact Ep|intros ? []].
  - destruct IH as (before & old & after & -> & Hold & Hbefore).
    + destruct Hin as [<-|Hin]; [congruence|now exists xml].
    + exists (p :: before), old, after. repeat split; [exact Hold|].
      intros x [<-|Hx]; [exact Ep|now apply Hbefore].
Qed.

(** C4 (as amended): when the store holds a record with the identifier, the
    update takes out one part, the first whose [Id] element has that text,
    and appends one new block, which holds the same identifier, the new
    source text, [ShapeTagged] set to true and an [UpdatedAt] time stamp;
    every other part stays as it was and in the same order.  Nothing else
    of the old block is carried over. *)
Theorem update_replaces_one_record {P : Platform}
  (st : store) (diagramId mermaidCode now : str) :
  (exists xml, In xml st /\ xml <> [] /\
               textContentOf (lit "Id") xml = Some diagramId) ->
  exists before old after,
    st = before ++ old :: after /\
    (forall xml, In xml before ->
       xml = [] \/ textContentOf (lit "Id") xml <> Some diagramId) /\
    textContentOf (lit "Id") old = Some diagramId /\
    PowerPoint.updateDiagramData st diagramId mermaidCode now =
    (Returned tt,
     before ++ after ++
     [xmlDecl ++ nl ++
      lit "<MermaidDiagram>" ++ nl ++
      lit "  <Id>" ++ diagramId ++ lit "</Id>" ++ nl ++
      lit "  <Code><![CDATA[" ++ mermaidCode ++ lit "]]></Code>" ++ nl ++
      lit "  <ShapeTagged>true</ShapeTagged>" ++ nl ++
      lit "  <UpdatedAt>" ++ now ++ lit "</UpdatedAt>" ++ nl ++
      lit "</MermaidDiagram>"]).
Proof.
  intros (xml & Hin & Hne & Hid).
  destruct (first_answer
              (fun x => negb (isEmpty x) && PowerPoint.idElementIs x diagramId) st)
    as (before & old & after & -> & Hold & Hbefore).
  { exists xml. split; [exact Hin|].
    apply andb_true_iff. split; [now destruct xml|now apply idElementIs_true]. }
  exists before, old, after. split; [reflexivity|].
  split.
  { intros x Hx. specialize (Hbefore x Hx).
    destruct x as [|c x]; [now left|right].
    cbn [isEmpty negb andb] in Hbefore. intros Hid'.
    apply idElementIs_true in Hid'. congruence. }
  split; [apply idElementIs_true; now apply andb_true_iff in Hold|].
  unfold PowerPoint.updateDiagramData.
  rewrite updateLoop_found by assumption.
  simpl plus. rewrite delete_app_here. unfold add.
  now rewrite <- app_assoc.
Qed.

Lemma update_replaces_one_record_witness :
  (exists xml, In xml (sampleSlideParts ++ sampleOld :: sampleStore) /\
               xml <> [] /\
               textContentOf (Platform := Sample.platform) (lit "Id") xml
               = Some (lit "mermaid-7f3k2m9qz")) /\
  exists before old after,
    sampleSlideParts ++ sampleOld :: sampleStore = before ++ old :: after /\
    (forall xml, In xml before ->
       xml = [] \/
       textContentOf (Platform := Sample.platform) (lit "Id") xml
       <> Some (lit "mermaid-7f3k2m9qz")) /\
    textContentOf (Platform := Sample.platform) (lit "Id") old
      = Some (lit "mermaid-7f3k2m9qz") /\
    PowerPoint.updateDiagramData (P := Sample.platform)
      (sampleSlideParts ++ sampleOld :: sampleStore)
      (lit "mermaid-7f3k2m9qz") sampleCode sampleNow =
    (Returned tt,
     before ++ after ++
     [xmlDecl ++ nl ++
      lit "<MermaidDiagram>" ++ nl ++
      lit "  <Id>" ++ lit "mermaid-7f3k2m9qz" ++ lit "</Id>" ++ nl ++
      lit "  <Code><![CDATA[" ++ sampleCode ++ lit "]]></Code>" ++ nl ++
      lit "  <ShapeTagged>true</ShapeTagged>" ++ nl ++
      lit "  <UpdatedAt>" ++ sampleNow ++ lit "</UpdatedAt>" ++ nl ++
      lit "</MermaidDiagram>"]).
Proof.
  assert (H : exists xml, In xml (sampleSlideParts ++ sampleOld :: sampleStore) /\
                xml <> [] /\
                textContentOf (Platform := Sample.platform) (lit "Id") xml
                = Some (lit "mermaid-7f3k2m9qz")).
  { exists sampleOld. split; [right; left; reflexivity|].
    split; [vm_compute; discriminate|reflexivity]. }
  split; [exact H|].
  exact (update_replaces_one_record (P := Sample.platform)
           (sampleSlideParts ++ sampleOld :: sampleStore)
           (lit "mermaid-7f3k2m9qz") sampleCode sampleNow H).
Defined.

(** C4 fails as stated: the record written at insertion says when it was
    created; after the update its block no longer does. *)
Lemma update_replaces_one_record_counterexample :
  let updated :=
    snd (PowerPoint.updateDiagramData (P := Sample.platform) [sampleOld]
           (lit "mermaid-7f3k2m9qz") (lit "graph LR") sampleNow) in
  includes (lit "<CreatedAt>2024-04-30T08:15:00.000Z</CreatedAt>") sampleOld = true /\
  exists block,
    updated = [block] /\
    includes (lit "<CreatedAt>") block = false /\
    includes (lit "2024-04-30T08:15:00.000Z") block = false.
Proof.
  cbv zeta. split; [reflexivity|].
  eexists. split; [reflexivity|]. split; reflexivity.
Qed.

(** The flag of a record whose shape could not be tagged is set by the
    update all the same. *)
Example update_sets_shape_tagged :
  includes (lit "<ShapeTagged>false</ShapeTagged>") sampleUntagged = true /\
  exists block,
    snd (PowerPoint.updateDiagramData (P := Sample.platform) [sampleUntagged]
           (lit "mermaid-7f3k2m9qz") (lit "graph LR") sampleNow) = [block] /\
    includes (lit "<ShapeTagged>true</ShapeTagged>") block = true /\
    includes (lit "<ShapeTagged>false</ShapeTagged>") block = false.
Proof.
  split; [reflexivity|].
  eexists. split; [reflexivity|]. split; reflexivity.
Qed.

(** ** C2: selection recovery on the presentation host *)

Lemma diagramTag_absent (items : list PowerPoint.Tag) :
  (forall t, In t items ->
     toLowerCase (PowerPoint.key t) <> lit "mermaid_diagram_id") ->
  PowerPoint.diagramTag items = [].
Proof.
  induction items as [|t items IH]; intros H; [reflexivity|].
  cbn [PowerPoint.diagramTag].
  destruct (JsString.eqb _ _) eqn:E.
  - apply str_eqb_eq in E. now elim (H t (or_introl eq_refl)).
  - apply IH. intros x Hx. apply H. now right.
Qed.

Lemma lookupByTag_none {P : Platform} (parts : list str) (diagramId : str) :
  (forall xml, In xml parts -> textContentOf (lit "Id") xml <> Some diagramId) ->
  PowerPoint.lookupByTag parts diagramId = None.
Proof.
  induction parts as [|xml rest IH]; intros H; [reflexivity|].
  cbn [PowerPoint.lookupByTag].
  assert (IH' : PowerPoint.lookupByTag rest diagramId = None)
    by (apply IH; intros x Hx; apply H; now right).
  pose proof (H xml (or_introl eq_refl)) as Hx.
  destruct (negb (isEmpty xml)); [|exact IH'].
  destruct (textContentOf (lit "Id") xml) as [idText|]; [|exact IH'].
  destruct (textContentOf (lit "Code") xml); [|exact IH'].
  destruct (JsString.eqb idText diagramId) eqn:E; [|exact IH'].
  apply str_eqb_eq in E. congruence.
Qed.

Lemma getSelectedDiagram_examined {P : Platform}
  (doc : PowerPoint.Presentation) (s : PowerPoint.Shape) :
  examines doc s ->
  PowerPoint.getSelectedDiagram true doc = PowerPoint.diagramOfShape doc s.
Proof.
  unfold PowerPoint.getSelectedDiagram. cbn [negb].
  intros [Hsel|slide others Hsel Hslides Hlast].
  - now rewrite Hsel.
  - rewrite Hslides, Hlast. now destruct Hsel as [-> | ->].
Qed.

Lemma getSelectedDiagram_unexamined {P : Platform} (doc : PowerPoint.Presentation) :
  (forall s, ~ examines doc s) -> PowerPoint.getSelectedDiagram true doc = None.
Proof.
  intros H. unfold PowerPoint.getSelectedDiagram. cbn [negb].
  destruct (PowerPoint.selectedShapes doc) as [[|s1 [|s2 rest]]|] eqn:Hsel;
    try reflexivity.
  - destruct (PowerPoint.selectedSlides doc) as [[|slide others]|] eqn:Hslides;
      try reflexivity.
    destruct (nth_error _ _) as [s|] eqn:Hlast; [|reflexivity].
    elim (H s). eapply examines_most_recent; eauto.
  - elim (H s1). now apply examines_selected.
  - destruct (PowerPoint.selectedSlides doc) as [[|slide others]|] eqn:Hslides;
      try reflexivity.
    destruct (nth_error _ _) as [s|] eqn:Hlast; [|reflexivity].
    elim (H s). eapply examines_most_recent; eauto.
Qed.

Lemma diagramOfShape_relocate {P : Platform}
  (g : PowerPoint.Shape -> number * number * number * number) (doc : PowerPoint.Presentation)
  (s : PowerPoint.Shape) :
  PowerPoint.diagramOfShape (relocateAll g doc) (relocate g s) =
  PowerPoint.diagramOfShape doc s.
Proof.
  unfold PowerPoint.diagramOfShape, relocate.
  destruct (g s) as [[[l t] w] h]. reflexivity.
Qed.

Lemma getSelectedDiagram_relocate {P : Platform} (isOfficeContext : bool)
  (g : PowerPoint.Shape -> number * number * number * number) (doc : PowerPoint.Presentation) :
  PowerPoint.getSelectedDiagram isOfficeContext (relocateAll g doc) =
  PowerPoint.getSelectedDiagram isOfficeContext doc.
Proof.
  unfold PowerPoint.getSelectedDiagram.
  destruct isOfficeContext; [cbn [negb]|reflexivity].
  assert (Hrecent :
    match PowerPoint.selectedSlides (relocateAll g doc) with
    | Some (slide :: _) =>
        match nth_error (PowerPoint.shapes slide)
                (length (PowerPoint.shapes slide) - 1) with
        | Some lastShape =>
            PowerPoint.diagramOfShape (relocateAll g doc) lastShape
        | None => None
        end
    | _ => None
    end =
    match PowerPoint.selectedSlides doc with
    | Some (slide :: _) =>
        match nth_error (PowerPoint.shapes slide)
                (length (PowerPoint.shapes slide) - 1) with
        | Some lastShape => PowerPoint.diagramOfShape doc lastShape
        | None => None
        end
    | _ => None
    end).
  { cbn [relocateAll PowerPoint.selectedSlides].
    destruct (PowerPoint.selectedSlides doc) as [[|slide others]|];
      try reflexivity.
    cbn [option_map map PowerPoint.shapes].
    rewrite length_map, nth_error_map.
    destruct (nth_error _ _) as [s|]; [|reflexivity].
    apply diagramOfShape_relocate. }
  destruct (PowerPoint.selectedShapes doc) as [[|s1 [|s2 rest]]|] eqn:Hsel;
    cbn [relocateAll PowerPoint.selectedShapes] in *;
    rewrite Hsel; cbn [option_map map].
  - destruct (PowerPoint.selectedSlides doc) as [[|? ?]|];
      cbn [option_map map] in *; try reflexivity; exact Hrecent.
  - apply diagramOfShape_relocate.
  - reflexivity.
  - destruct (PowerPoint.selectedSlides doc) as [[|? ?]|];
      cbn [option_map map] in *; try reflexivity; exact Hrecent.
Qed.

(** C2 (as amended): [getSelectedDiagram] returns null, and never an error,
    when several shapes are selected, when there is no shape to look at,
    when the shape it looks at carries no [mermaid_diagram_id] tag, and when
    the tag leads to no stored record.  The shape it looks at is the one
    selected shape or, when no shape is selected, the most recent shape of
    the first selected slide.  Where the shapes are and how large they are
    never enters the result. *)
Theorem selection_recovery_fails_closed {P : Platform}
  (isOfficeContext : bool) (doc : PowerPoint.Presentation) :
  (failsClosed doc -> PowerPoint.getSelectedDiagram isOfficeContext doc = None) /\
  (forall g, PowerPoint.getSelectedDiagram isOfficeContext (relocateAll g doc) =
             PowerPoint.getSelectedDiagram isOfficeContext doc).
Proof.
  split; [|intros g; apply getSelectedDiagram_relocate].
  destruct isOfficeContext; [|reflexivity].
  intros [s1 s2 others Hsel | Hnone | s Hs Htag | s items Hs Htags Hparts].
  - unfold PowerPoint.getSelectedDiagram. now rewrite Hsel.
  - now apply getSelectedDiagram_unexamined.
  - rewrite (getSelectedDiagram_examined _ _ Hs).
    unfold PowerPoint.diagramOfShape.
    destruct (PowerPoint.tags s) as [items|] eqn:Htags; [|reflexivity].
    rewrite diagramTag_absent; [reflexivity|].
    intros t Ht Hkey. apply Htag. now exists items, t.
  - rewrite (getSelectedDiagram_examined _ _ Hs).
    unfold PowerPoint.diagramOfShape. rewrite Htags.
    destruct (negb _); [|reflexivity].
    now apply lookupByTag_none.
Qed.

(** The other way round: when the shape that is looked at carries a tag and
    a part of the store answers to it, the diagram of the first such part
    is returned. *)
Lemma lookupByTag_first {P : Platform} (before after : store)
  (xml diagramId codeText : str) :
  (forall p, In p before ->
     p = [] \/ textContentOf (lit "Id") p <> Some diagramId) ->
  xml <> [] ->
  textContentOf (lit "Id") xml = Some diagramId ->
  textContentOf (lit "Code") xml = Some codeText ->
  PowerPoint.lookupByTag (before ++ xml :: after) diagramId =
  Some {| id := diagramId; code := codeText |}.
Proof.
  intros Hbefore Hne Hid Hcode.
  induction before as [|p before IH]; simpl app; cbn [PowerPoint.lookupByTag].
  - destruct xml; [congruence|]. cbn [isEmpty negb].
    now rewrite Hid, Hcode, str_eqb_refl.
  - assert (IH' := IH (fun x Hx => Hbefore x (or_intror Hx))).
    destruct (Hbefore p (or_introl eq_refl)) as [-> | Hp]; [exact IH'|].
    destruct (negb (isEmpty p)); [|exact IH'].
    destruct (textContentOf (lit "Id") p) as [idText|]; [|exact IH'].
    destruct (textContentOf (lit "Code") p); [|exact IH'].
    destruct (JsString.eqb idText diagramId) eqn:E; [|exact IH'].
    apply str_eqb_eq in E. congruence.
Qed.

Lemma selection_recovery_returns_record {P : Platform}
  (doc : PowerPoint.Presentation) (s : PowerPoint.Shape)
  (items : list PowerPoint.Tag) (before after : store) (xml codeText : str) :
  examines doc s ->
  PowerPoint.tags s = Some items ->
  PowerPoint.diagramTag items <> [] ->
  PowerPoint.customXmlParts doc = before ++ xml :: after ->
  (forall p, In p before ->
     p = [] \/ textContentOf (lit "Id") p <> Some (PowerPoint.diagramTag items)) ->
  xml <> [] ->
  textContentOf (lit "Id") xml = Some (PowerPoint.diagramTag items) ->
  textContentOf (lit "Code") xml = Some codeText ->
  PowerPoint.getSelectedDiagram true doc =
  Some {| id := PowerPoint.diagramTag items; code := codeText |}.
Proof.
  intros Hs Htags Htag Hparts Hbefore Hne Hid Hcode.
  rewrite (getSelectedDiagram_examined _ _ Hs).
  unfold PowerPoint.diagramOfShape. rewrite Htags, Hparts.
  destruct (PowerPoint.diagramTag items) eqn:E; [congruence|].
  cbn [isEmpty negb]. now apply lookupByTag_first.
Qed.

Lemma selection_recovery_fails_closed_witness :
  failsClosed (P := Sample.platform) orphanSelected /\
  PowerPoint.getSelectedDiagram (P := Sample.platform) true orphanSelected = None.
Proof.
  assert (H : failsClosed (P := Sample.platform) orphanSelected).
  { apply (@tag_without_record Sample.platform orphanSelected taggedShape
             [{| PowerPoint.key := lit "MERMAID_DIAGRAM_ID";
                 PowerPoint.value := lit "mermaid-7f3k2m9qz" |}]).
    - now apply examines_selected.
    - reflexivity.
    - intros xml [<-|[]]. vm_compute. discriminate. }
  split; [exact H|].
  exact (proj1 (selection_recovery_fails_closed (P := Sample.platform)
                  true orphanSelected) H).
Defined.

(** C2 fails as stated: with no shape selected the recovery falls back to
    the most recent shape of the slide and returns its diagram. *)
Lemma selection_recovery_counterexample :
  PowerPoint.selectedShapes nothingSelected = Some [] /\
  PowerPoint.getSelectedDiagram (P := Sample.platform) true nothingSelected =
    Some {| id := lit "mermaid-7f3k2m9qz"; code := lit "graph TD" |}.
Proof. split; reflexivity. Qed.

(** ** Double arithmetic *)

(** *** Powers of two *)

Lemma pow2_pos (e : Z) : (0 < pow2 e)%Q.
Proof. apply Qpower_0_lt. reflexivity. Qed.

Lemma pow2_add (a b : Z) : (pow2 (a + b) == pow2 a * pow2 b)%Q.
Proof. unfold pow2. apply Qpower_plus. discriminate. Qed.

Lemma pow2_le (a b : Z) : (a <= b)%Z -> (pow2 a <= pow2 b)%Q.
Proof. intros H. apply Qpower_le_compat_l; [exact H|]. discriminate. Qed.

Lemma pow2_Z (n : Z) : (0 <= n)%Z -> (inject_Z (2 ^ n) == pow2 n)%Q.
Proof. intros H. unfold pow2. now rewrite Zpower_Qpower. Qed.

Lemma pow2_succ (a : Z) : (pow2 (a + 1) == 2 * pow2 a)%Q.
Proof. rewrite pow2_add. change (pow2 1) with 2%Q. ring. Qed.

Lemma pow2_sub (a b : Z) : (pow2 (a - b) * pow2 b == pow2 a)%Q.
Proof. rewrite <- pow2_add. now replace (a - b + b)%Z with a by lia. Qed.

(** *** The digits of a mantissa *)

Lemma digits2_pos_bounds (m : positive) :
  (2 ^ (Zpos (digits2_pos m) - 1) <= Zpos m < 2 ^ Zpos (digits2_pos m))%Z.
Proof.
  induction m as [m IH|m IH|]; cbn [digits2_pos].
  - rewrite Pos2Z.inj_succ.
    replace (Z.succ (Zpos (digits2_pos m)) - 1)%Z with (Zpos (digits2_pos m) - 1 + 1)%Z by lia.
    rewrite Z.pow_add_r by lia. rewrite Z.pow_succ_r by lia. lia.
  - rewrite Pos2Z.inj_succ.
    replace (Z.succ (Zpos (digits2_pos m)) - 1)%Z with (Zpos (digits2_pos m) - 1 + 1)%Z by lia.
    rewrite Z.pow_add_r by lia. rewrite Z.pow_succ_r by lia. lia.
  - cbn. lia.
Qed.

(** A representation that [valid_binary] accepts: the exponent is in range,
    the mantissa below [2 ^ 53], and at least [2 ^ 52] unless the exponent
    is the least one. *)
Lemma valid_finite (s : bool) (m : positive) (e : Z) :
  valid_binary (S754_finite s m e) = true ->
  (-1074 <= e <= 971)%Z /\ (Zpos m < 2 ^ 53)%Z /\
  (e = (-1074)%Z \/ (2 ^ 52 <= Zpos m)%Z).
Proof.
  cbn [SpecFloat.valid_binary]. unfold bounded, canonical_mantissa, fexp, emin, prec, emax.
  intros H. apply andb_prop in H. destruct H as [H1 H2].
  apply Z.eqb_eq in H1. apply Z.leb_le in H2.
  pose proof (digits2_pos_bounds m) as [Hlo Hhi].
  set (d := Zpos (digits2_pos m)) in *.
  assert (Hd : (d <= 53)%Z) by lia.
  split; [lia|]. split.
  - apply Z.lt_le_trans with (1 := Hhi). apply Z.pow_le_mono_r; lia.
  - destruct (Z.eq_dec e (-1074)) as [E|E]; [now left|right].
    assert (d = 53%Z) by lia.
    replace 52%Z with (d - 1)%Z by lia. exact Hlo.
Qed.

(** *** Comparisons and values *)

Lemma magnitude_lt (m1 m2 : positive) (e1 e2 : Z) :
  (Zpos m1 < 2 ^ 53)%Z -> (2 ^ 52 <= Zpos m2)%Z -> (e1 < e2)%Z ->
  (inject_Z (Zpos m1) * pow2 e1 < inject_Z (Zpos m2) * pow2 e2)%Q.
Proof.
  intros H1 H2 He.
  assert (A : (inject_Z (Zpos m1) < inject_Z (2 ^ 53))%Q) by now rewrite <- Zlt_Qlt.
  assert (B : (inject_Z (2 ^ 52) <= inject_Z (Zpos m2))%Q) by now rewrite <- Zle_Qle.
  assert (C : (pow2 (e1 + 1) <= pow2 e2)%Q) by (apply pow2_le; lia).
  rewrite pow2_succ in C.
  pose proof (pow2_pos e1) as P1. pose proof (pow2_pos e2) as P2.
  change (inject_Z (2 ^ 53)) with (2 * inject_Z (2 ^ 52))%Q in A.
  set (a := inject_Z (Zpos m1)) in *. set (b := inject_Z (Zpos m2)) in *.
  set (k := inject_Z (2 ^ 52)) in *.
  assert (K : (0 < k)%Q) by reflexivity.
  apply Qlt_le_trans with (2 * k * pow2 e1)%Q.
  - apply Qmult_lt_compat_r; assumption.
  - apply Qle_trans with (k * pow2 e2)%Q.
    + setoid_replace (2 * k * pow2 e1)%Q with (k * (2 * pow2 e1))%Q by ring.
      apply Qmult_le_l; assumption.
    + apply Qmult_le_compat_r; [assumption|]. now apply Qlt_le_weak.
Qed.

Lemma magnitude_compare (m1 m2 : positive) (e1 e2 : Z) :
  valid_binary (S754_finite false m1 e1) = true ->
  valid_binary (S754_finite false m2 e2) = true ->
  match Z.compare e1 e2 with
  | Lt => Lt
  | Gt => Gt
  | Eq => Pos.compare_cont Eq m1 m2
  end = (inject_Z (Zpos m1) * pow2 e1 ?= inject_Z (Zpos m2) * pow2 e2)%Q.
Proof.
  intros V1 V2.
  apply valid_finite in V1. apply valid_finite in V2.
  destruct V1 as (R1 & U1 & N1), V2 as (R2 & U2 & N2).
  destruct (Z.compare_spec e1 e2) as [E|E|E].
  - subst e2. pose proof (pow2_pos e1) as P.
    change (Pos.compare_cont Eq m1 m2) with (Pos.compare m1 m2).
    destruct (Pos.compare_spec m1 m2) as [M|M|M]; symmetry.
    + subst. apply (proj1 (Qeq_alt _ _)). reflexivity.
    + apply (proj1 (Qlt_alt _ _)). apply Qmult_lt_compat_r; [exact P|].
      rewrite <- Zlt_Qlt. lia.
    + apply (proj1 (Qgt_alt _ _)). apply Qmult_lt_compat_r; [exact P|].
      rewrite <- Zlt_Qlt. lia.
  - symmetry. apply (proj1 (Qlt_alt _ _)). apply magnitude_lt; lia.
  - symmetry. apply (proj1 (Qgt_alt _ _)). apply magnitude_lt; lia.
Qed.

Lemma Qcompare_opp (a b : Q) : (- a ?= - b)%Q = CompOpp (a ?= b)%Q.
Proof.
  destruct (Qcompare_spec a b) as [H|H|H]; cbn [CompOpp].
  - apply (proj1 (Qeq_alt _ _)). now rewrite H.
  - apply (proj1 (Qgt_alt _ _)). lra.
  - apply (proj1 (Qlt_alt _ _)). lra.
Qed.

Lemma SFvalue_finite (s : bool) (m : positive) (e : Z) :
  (SFvalue (S754_finite s m e)
   == (if s then - (inject_Z (Zpos m) * pow2 e) else inject_Z (Zpos m) * pow2 e))%Q.
Proof.
  destruct s; cbn [SFvalue cond_Zopp]; [|reflexivity].
  change (Z.opp (Zpos m)) with (- Zpos m)%Z. rewrite inject_Z_opp. ring.
Qed.

Lemma magnitude_pos (m : positive) (e : Z) : (0 < inject_Z (Zpos m) * pow2 e)%Q.
Proof.
  apply Qmult_lt_0_compat; [|apply pow2_pos]. now rewrite <- (Zlt_Qlt 0). 
Qed.

(** On doubles that are neither [NaN] nor infinite the comparison of the
    representations is the comparison of the values. *)
Lemma SFcompare_value (x y : spec_float) :
  valid_binary x = true -> valid_binary y = true ->
  SFfinite x = true -> SFfinite y = true ->
  SFcompare x y = Some (SFvalue x ?= SFvalue y)%Q.
Proof.
  intros Vx Vy Fx Fy.
  destruct x as [sx|sx| |sx mx ex]; try discriminate;
    destruct y as [sy|sy| |sy my ey]; try discriminate.
  - reflexivity.
  - cbn [SFcompare]. f_equal. symmetry.
    pose proof (magnitude_pos my ey) as P.
    destruct sy.
    + apply (proj1 (Qgt_alt _ _)). rewrite SFvalue_finite. cbn [SFvalue]. lra.
    + apply (proj1 (Qlt_alt _ _)). rewrite SFvalue_finite. cbn [SFvalue]. lra.
  - cbn [SFcompare]. f_equal. symmetry.
    pose proof (magnitude_pos mx ex) as P.
    destruct sx.
    + apply (proj1 (Qlt_alt _ _)). rewrite SFvalue_finite. cbn [SFvalue]. lra.
    + apply (proj1 (Qgt_alt _ _)). rewrite SFvalue_finite. cbn [SFvalue]. lra.
  - cbn [SFcompare]. f_equal.
    pose proof (magnitude_pos mx ex) as Px.
    pose proof (magnitude_pos my ey) as Py.
    assert (Vx' : valid_binary (S754_finite false mx ex) = true) by exact Vx.
    assert (Vy' : valid_binary (S754_finite false my ey) = true) by exact Vy.
    pose proof (magnitude_compare mx my ex ey Vx' Vy') as C.
    destruct sx, sy.
    + transitivity (CompOpp (inject_Z (Zpos mx) * pow2 ex ?= inject_Z (Zpos my) * pow2 ey)%Q).
      * rewrite <- C. now destruct (Z.compare ex ey).
      * rewrite <- Qcompare_opp. apply Qcompare_comp; now rewrite SFvalue_finite.
    + symmetry. apply (proj1 (Qlt_alt _ _)). rewrite !SFvalue_finite. lra.
    + symmetry. apply (proj1 (Qgt_alt _ _)). rewrite !SFvalue_finite. lra.
    + rewrite C. reflexivity.
Qed.

Lemma compare_value (a b : number) :
  isFinite a = true -> isFinite b = true ->
  SFcompare (Prim2SF a) (Prim2SF b) = Some (valueOf a ?= valueOf b)%Q.
Proof.
  intros Fa Fb. apply SFcompare_value; try assumption; apply Prim2SF_valid.
Qed.

Lemma ltb_value (a b : number) :
  isFinite a = true -> isFinite b = true ->
  ((a <? b)%float = true <-> (valueOf a < valueOf b)%Q).
Proof.
  intros Fa Fb. rewrite ltb_spec. unfold SFltb. rewrite (compare_value a b Fa Fb).
  rewrite Qlt_alt. destruct (valueOf a ?= valueOf b)%Q; split; congruence.
Qed.

Lemma ltb_false_value (a b : number) :
  isFinite a = true -> isFinite b = true ->
  ((a <? b)%float = false <-> (valueOf b <= valueOf a)%Q).
Proof.
  intros Fa Fb. rewrite ltb_spec. unfold SFltb. rewrite (compare_value a b Fa Fb).
  rewrite Qle_alt, <- (Qcompare_antisym (valueOf a) (valueOf b)).
  destruct (valueOf a ?= valueOf b)%Q; cbn [CompOpp]; split; congruence.
Qed.

Lemma leb_value (a b : number) :
  isFinite a = true -> isFinite b = true ->
  ((a <=? b)%float = true <-> (valueOf a <= valueOf b)%Q).
Proof.
  intros Fa Fb. rewrite leb_spec. unfold SFleb. rewrite (compare_value a b Fa Fb).
  rewrite Qle_alt. destruct (valueOf a ?= valueOf b)%Q; split; congruence.
Qed.

(** *** Rounding to the format *)

Lemma shr_1_m (r : shr_record) :
  (0 <= shr_m r)%Z -> shr_m (shr_1 r) = (shr_m r / 2)%Z.
Proof.
  destruct r as [m r s]. cbn [shr_m]. intros H.
  destruct m as [|[p|p|]|p]; cbn [shr_1 shr_m]; try lia; try reflexivity;
    ((apply Z.div_unique with 1%Z; lia) || (apply Z.div_unique with 0%Z; lia)).
Qed.

Lemma Zpow2_xO (p : positive) : (2 ^ Zpos p~0 = 2 ^ Zpos p * 2 ^ Zpos p)%Z.
Proof. rewrite <- Z.pow_add_r by lia. f_equal. lia. Qed.

Lemma Zpow2_xI (p : positive) : (2 ^ Zpos p~1 = 2 * (2 ^ Zpos p * 2 ^ Zpos p))%Z.
Proof.
  rewrite <- Z.pow_add_r, <- Z.pow_succ_r by lia. f_equal. lia.
Qed.

Lemma iter_pos_shr_1 (p : positive) (r : shr_record) :
  (0 <= shr_m r)%Z ->
  shr_m (iter_pos shr_1 p r) = (shr_m r / 2 ^ Zpos p)%Z.
Proof.
  revert r. induction p as [p IH|p IH|]; intros r H; cbn [iter_pos].
  - assert (H1 : (0 <= shr_m (shr_1 r))%Z)
      by (rewrite shr_1_m by assumption; apply Z.div_pos; lia).
    assert (H2 : (0 <= shr_m (iter_pos shr_1 p (shr_1 r)))%Z)
      by (rewrite IH by assumption; apply Z.div_pos; lia).
    rewrite IH by assumption. rewrite IH by assumption.
    rewrite shr_1_m by assumption.
    rewrite !Z.div_div by lia. now rewrite Zpow2_xI, Z.mul_assoc.
  - assert (H2 : (0 <= shr_m (iter_pos shr_1 p r))%Z)
      by (rewrite IH by assumption; apply Z.div_pos; lia).
    rewrite IH by assumption. rewrite IH by assumption.
    rewrite !Z.div_div by lia. now rewrite Zpow2_xO.
  - rewrite shr_1_m by assumption. reflexivity.
Qed.

Lemma shr_record_of_loc_m (m : Z) (l : location) : shr_m (shr_record_of_loc m l) = m.
Proof. destruct l as [|[ | | ]]; reflexivity. Qed.

(** [shr_fexp] divides the mantissa by the power of two that brings the
    exponent up to the one that the format gives to a number of that many
    digits. *)
Lemma shr_fexp_spec (mx ex : Z) (lx : location) :
  (0 <= mx)%Z ->
  let n := Z.max 0 (fexp prec emax (Zdigits2 mx + ex) - ex) in
  snd (shr_fexp prec emax mx ex lx) = (ex + n)%Z /\
  shr_m (fst (shr_fexp prec emax mx ex lx)) = (mx / 2 ^ n)%Z.
Proof.
  intros H n. unfold shr_fexp, shr. subst n.
  destruct (fexp prec emax (Zdigits2 mx + ex) - ex)%Z as [|p|p] eqn:E;
    cbn [fst snd].
  - rewrite shr_record_of_loc_m. change (Z.max 0 0) with 0%Z.
    rewrite Z.add_0_r, Z.pow_0_r, Z.div_1_r. now split.
  - rewrite iter_pos_shr_1 by (now rewrite shr_record_of_loc_m).
    rewrite shr_record_of_loc_m.
    replace (Z.max 0 (Zpos p)) with (Zpos p) by lia. now split.
  - rewrite shr_record_of_loc_m.
    replace (Z.max 0 (Zneg p)) with 0%Z by lia.
    rewrite Z.add_0_r, Z.pow_0_r, Z.div_1_r. now split.
Qed.

Lemma pow2_lt (a b : Z) : (a < b)%Z -> (pow2 a < pow2 b)%Q.
Proof. intros H. apply Qpower_lt_compat_l; [exact H|reflexivity]. Qed.

Lemma pow2_le_inv (a b : Z) : (pow2 a <= pow2 b)%Q -> (a <= b)%Z.
Proof.
  intros H. destruct (Z_le_gt_dec a b) as [L|G]; [exact L|exfalso].
  apply Z.gt_lt, pow2_lt in G. lra.
Qed.

Lemma pow2_lt_inv (a b : Z) : (pow2 a < pow2 b)%Q -> (a < b)%Z.
Proof.
  intros H. destruct (Z_lt_le_dec a b) as [L|G]; [exact L|exfalso].
  apply pow2_le in G. lra.
Qed.

Lemma scale_le (a b x : Q) : (0 < x)%Q -> (a <= b)%Q -> (a * x <= b * x)%Q.
Proof. intros Hx H. apply Qmult_le_compat_r; [exact H|lra]. Qed.

Lemma scale_lt (a b x : Q) : (0 < x)%Q -> (a < b)%Q -> (a * x < b * x)%Q.
Proof. intros Hx H. now apply Qmult_lt_compat_r. Qed.

(** The magnitude of a finite representation between powers of two. *)
Lemma magnitude_bounds (m : positive) (e : Z) :
  (pow2 (Zpos (digits2_pos m) - 1 + e) <= inject_Z (Zpos m) * pow2 e
   < pow2 (Zpos (digits2_pos m) + e))%Q.
Proof.
  pose proof (digits2_pos_bounds m) as [Hlo Hhi].
  pose proof (pow2_pos e) as P.
  set (d := Zpos (digits2_pos m)) in *.
  assert (Hd : (1 <= d)%Z) by (subst d; lia).
  rewrite (pow2_add (d - 1) e), (pow2_add d e).
  rewrite <- (pow2_Z (d - 1)), <- (pow2_Z d) by lia.
  rewrite Zle_Qle in Hlo. rewrite Zlt_Qlt in Hhi.
  split; [now apply scale_le|now apply scale_lt].
Qed.

Lemma exponent_bound (s : bool) (m : positive) (e k : Z) :
  valid_binary (S754_finite s m e) = true ->
  (inject_Z (Zpos m) * pow2 e <= pow2 k)%Q -> (-1022 <= k)%Z ->
  (e <= k - 52)%Z /\ (Zpos (digits2_pos m) + e <= k + 1)%Z.
Proof.
  intros V H Hk. apply valid_finite in V. destruct V as (R & U & N).
  pose proof (magnitude_bounds m e) as [Hlo _].
  assert (D : (Zpos (digits2_pos m) + e <= k + 1)%Z).
  { assert (pow2 (Zpos (digits2_pos m) - 1 + e) <= pow2 k)%Q by lra.
    apply pow2_le_inv in H0. lia. }
  split; [|exact D].
  destruct N as [N|N]; [lia|].
  pose proof (pow2_pos e) as P.
  rewrite Zle_Qle in N. apply (scale_le _ _ (pow2 e) P) in N.
  rewrite pow2_Z in N by lia. rewrite <- pow2_add in N.
  assert (pow2 (52 + e) <= pow2 k)%Q by lra.
  apply pow2_le_inv in H0. lia.
Qed.

Lemma Zdigits2_bounds (m : Z) :
  (0 < m)%Z -> (2 ^ (Zdigits2 m - 1) <= m < 2 ^ Zdigits2 m)%Z.
Proof.
  destruct m as [|p|p]; try lia. intros _. apply digits2_pos_bounds.
Qed.

Lemma Zdigits2_pos (m : Z) : (0 < m)%Z -> (0 < Zdigits2 m)%Z.
Proof. destruct m; cbn; lia. Qed.

Lemma Zdigits2_le (m : Z) (k : Z) :
  (0 <= m < 2 ^ k)%Z -> (0 <= k)%Z -> (Zdigits2 m <= k)%Z.
Proof.
  intros [H0 H] Hk. destruct (Z.eq_dec m 0) as [->|N]; [cbn; lia|].
  pose proof (Zdigits2_bounds m ltac:(lia)) as [Hlo _].
  destruct (Z_le_gt_dec (Zdigits2 m) k) as [L|G]; [exact L|exfalso].
  assert (2 ^ k <= 2 ^ (Zdigits2 m - 1))%Z by (apply Z.pow_le_mono_r; lia).
  lia.
Qed.

Lemma round_nearest_even_bounds (m : Z) (l : location) :
  (m <= round_nearest_even m l <= m + 1)%Z.
Proof.
  destruct l as [|[ | | ]]; cbn [round_nearest_even]; try lia.
  destruct (Z.even m); lia.
Qed.

(** The mantissa and the exponent that [binary_round_aux] arrives at. *)
Lemma binary_round_aux_steps (s : bool) (mx ex : Z) (lx : location) :
  (0 <= mx)%Z ->
  exists e1 m1 m2 e2 m3 : Z,
    e1 = Z.max ex (fexp prec emax (Zdigits2 mx + ex)) /\
    m1 = (mx / 2 ^ (e1 - ex))%Z /\
    (m1 <= m2 <= m1 + 1)%Z /\
    e2 = Z.max e1 (fexp prec emax (Zdigits2 m2 + e1)) /\
    m3 = (m2 / 2 ^ (e2 - e1))%Z /\
    binary_round_aux prec emax s mx ex lx =
      match m3 with
      | Z0 => S754_zero s
      | Zpos m => if (e2 <=? emax - prec)%Z then S754_finite s m e2
                  else S754_infinity s
      | Zneg _ => S754_nan
      end.
Proof.
  intros H. unfold binary_round_aux.
  pose proof (shr_fexp_spec mx ex lx H) as [E1 M1]. cbv zeta in E1, M1.
  destruct (shr_fexp prec emax mx ex lx) as [mrs1 e1] eqn:S1.
  cbn [fst snd] in E1, M1.
  set (m2 := round_nearest_even (shr_m mrs1) (loc_of_shr_record mrs1)).
  pose proof (round_nearest_even_bounds (shr_m mrs1) (loc_of_shr_record mrs1)) as B.
  fold m2 in B.
  assert (H1 : (0 <= shr_m mrs1)%Z) by (rewrite M1; apply Z.div_pos; lia).
  assert (H2 : (0 <= m2)%Z) by lia.
  pose proof (shr_fexp_spec m2 e1 loc_Exact H2) as [E2 M2]. cbv zeta in E2, M2.
  destruct (shr_fexp prec emax m2 e1 loc_Exact) as [mrs2 e2] eqn:S2.
  cbn [fst snd] in E2, M2.
  exists e1, (shr_m mrs1), m2, e2, (shr_m mrs2).
  repeat split; try lia.
  - rewrite M1. f_equal. f_equal. lia.
  - rewrite M2. f_equal. f_equal. lia.
Qed.

Lemma fexp_eq (x : Z) : fexp prec emax x = Z.max (x - 53) (-1074).
Proof. reflexivity. Qed.

Lemma Zpow2_pos (n : Z) : (0 < 2 ^ n)%Z \/ (n < 0)%Z.
Proof. destruct (Z_lt_le_dec n 0); [now right|left; now apply Z.pow_pos_nonneg]. Qed.

Lemma div_pow2_bounds (m n : Z) :
  (0 <= m)%Z -> (0 <= n)%Z ->
  (m / 2 ^ n * 2 ^ n <= m < (m / 2 ^ n + 1) * 2 ^ n)%Z.
Proof.
  intros Hm Hn. assert (P : (0 < 2 ^ n)%Z) by now apply Z.pow_pos_nonneg.
  pose proof (Z.div_mod m (2 ^ n) ltac:(lia)) as E.
  pose proof (Z.mod_pos_bound m (2 ^ n) P) as B. nia.
Qed.

(** What [binary_round_aux] returns for the integer [mx] at exponent [ex]:
    a mantissa [m] at an exponent [e] not below [ex], within two units of
    [e] of the argument. *)
Lemma binary_round_aux_spec (s : bool) (mx ex : Z) (lx : location) :
  (0 <= mx)%Z ->
  exists m e : Z,
    (0 <= m)%Z /\ (ex <= e)%Z /\
    binary_round_aux prec emax s mx ex lx =
      match m with
      | Z0 => S754_zero s
      | Zpos p => if (e <=? 971)%Z then S754_finite s p e else S754_infinity s
      | Zneg _ => S754_nan
      end /\
    (m * 2 ^ (e - ex) <= mx + 2 ^ (e - ex))%Z /\
    (mx < (m + 2) * 2 ^ (e - ex))%Z /\
    (e <= ex + 1 \/ e <= -1073 \/ 2 ^ (e - ex + 51) <= mx)%Z /\
    (m = 0%Z -> mx = 0%Z \/ (ex < -1074 /\ mx < 2 ^ (-1074 - ex))%Z) /\
    (mx / 2 ^ (e - ex) <= m)%Z.
Proof.
  intros H.
  destruct (binary_round_aux_steps s mx ex lx H)
    as (e1 & m1 & m2 & e2 & m3 & E1 & M1 & M2 & E2 & M3 & R).
  rewrite fexp_eq in E1, E2.
  set (d := Zdigits2 mx) in *. set (d2 := Zdigits2 m2) in *.
  set (a := (e1 - ex)%Z) in *. set (b := (e2 - e1)%Z) in *.
  assert (Ha : (0 <= a)%Z) by lia.
  assert (Hb : (0 <= b)%Z) by lia.
  pose proof (div_pow2_bounds mx a H Ha) as B1. rewrite <- M1 in B1.
  assert (Hm1 : (0 <= m1)%Z) by (rewrite M1; apply Z.div_pos; [lia|now apply Z.pow_pos_nonneg]).
  assert (Hm2 : (0 <= m2)%Z) by lia.
  pose proof (div_pow2_bounds m2 b Hm2 Hb) as B3. rewrite <- M3 in B3.
  assert (Hm3 : (0 <= m3)%Z) by (rewrite M3; apply Z.div_pos; [lia|now apply Z.pow_pos_nonneg]).
  assert (Pa : (0 < 2 ^ a)%Z) by now apply Z.pow_pos_nonneg.
  assert (Pb : (0 < 2 ^ b)%Z) by now apply Z.pow_pos_nonneg.
  assert (Eab : (2 ^ (e2 - ex) = 2 ^ a * 2 ^ b)%Z).
  { rewrite <- Z.pow_add_r by lia. f_equal. lia. }
  (* the first mantissa has at most 53 digits *)
  assert (Hd : (0 <= d)%Z) by (subst d; destruct mx; cbn; lia).
  assert (U1 : (m1 < 2 ^ 53)%Z).
  { rewrite M1. apply Z.div_lt_upper_bound; [exact Pa|].
    destruct (Z.eq_dec mx 0) as [->|N]; [lia|].
    pose proof (Zdigits2_bounds mx ltac:(lia)) as [_ Hhi]. fold d in Hhi.
    apply Z.lt_le_trans with (1 := Hhi).
    rewrite <- Z.pow_add_r by lia. apply Z.pow_le_mono_r; lia. }
  assert (Hd2 : (d2 <= 54)%Z).
  { subst d2. apply Zdigits2_le; [|lia]. split; [lia|].
    change (2 ^ 54)%Z with (2 * 2 ^ 53)%Z. lia. }
  assert (Hb1 : (b <= 1)%Z) by lia.
  exists m3, e2. split; [exact Hm3|]. split; [lia|]. split; [exact R|].
  rewrite Eab. split; [|split; [|split; [|split]]].
  - nia.
  - nia.
  - destruct (Z.eq_dec mx 0) as [Z0|N].
    + assert (d = 0%Z) by (subst d; rewrite Z0; reflexivity). lia.
    + pose proof (Zdigits2_bounds mx ltac:(lia)) as [Hlo _]. fold d in Hlo.
      destruct (Z_le_gt_dec e1 ex) as [L|G]; [left; lia|].
      destruct (Z_le_gt_dec e1 (-1074)) as [L'|G']; [right; left; lia|].
      right; right. assert (E : e1 = (d + ex - 53)%Z) by lia.
      apply Z.le_trans with (2 := Hlo). apply Z.pow_le_mono_r; lia.
  - intros Z3. rewrite Z3 in B3.
    assert (m2 = 0%Z).
    { destruct (Z.eq_dec b 0) as [B0|B0].
      - rewrite B0 in B3. change (2 ^ 0)%Z with 1%Z in B3. lia.
      - assert (b = 1%Z) by lia. assert (d2 = 54%Z) by lia.
        destruct (Z.eq_dec m2 0) as [|N2]; [assumption|].
        pose proof (Zdigits2_bounds m2 ltac:(lia)) as [Hlo _]. fold d2 in Hlo.
        replace (d2 - 1)%Z with 53%Z in Hlo by lia.
        replace b with 1%Z in B3 by lia. change (2 ^ 1)%Z with 2%Z in B3.
        assert (2 <= 2 ^ 53)%Z by (change (2 ^ 53)%Z with 9007199254740992%Z; lia).
        lia. }
    assert (M10 : m1 = 0%Z) by lia. rewrite M10 in B1.
    destruct (Z.eq_dec mx 0) as [|N]; [now left|right].
    pose proof (Zdigits2_bounds mx ltac:(lia)) as [Hlo _]. fold d in Hlo.
    assert (Ga : (0 < a)%Z).
    { destruct (Z.eq_dec a 0) as [A0|A0]; [|lia].
      rewrite A0 in B1. change (2 ^ 0)%Z with 1%Z in B1. lia. }
    destruct (Z_le_gt_dec e1 (-1074)) as [L'|G'].
    + assert (e1 = (-1074)%Z) by lia. split; [lia|].
      replace (-1074 - ex)%Z with a by lia. lia.
    + exfalso. assert (E : e1 = (d + ex - 53)%Z) by lia.
      assert (2 ^ a <= 2 ^ (d - 1))%Z by (apply Z.pow_le_mono_r; lia).
      lia.
  - rewrite <- Z.div_div by lia. rewrite <- M1, M3.
    apply Z.div_le_mono; lia.
Qed.

Lemma tiny_pos : (0 < tiny)%Q.
Proof. apply pow2_pos. Qed.

Lemma round_near (s : bool) (mx ex : Z) (lx : location) (v : Q) :
  (0 <= mx)%Z -> (1 <= mx \/ ex <= -1074)%Z -> (ex <= 900)%Z ->
  (inject_Z mx * pow2 ex <= v)%Q -> (v < (inject_Z mx + 1) * pow2 ex)%Q ->
  (v < pow2 1000)%Q ->
  valid_binary (binary_round_aux prec emax s mx ex lx) = true ->
  SFfinite (binary_round_aux prec emax s mx ex lx) = true /\
  (Qabs (SFvalue (binary_round_aux prec emax s mx ex lx) - (if s then - v else v))
   <= eps * v + tiny)%Q.
Proof.
  intros Hmx Hone Hex Hlo Hhi Hv Hvalid.
  destruct (binary_round_aux_spec s mx ex lx Hmx)
    as (m & e & Hm & Hee & R & F1 & F2 & F3 & F4 & _).
  rewrite R in *. clear R.
  pose proof (pow2_pos ex) as Px. pose proof (pow2_pos e) as Py.
  pose proof (pow2_le ex e Hee) as Pxy.
  assert (EK : (inject_Z (2 ^ (e - ex)) * pow2 ex == pow2 e)%Q).
  { rewrite pow2_Z by lia. apply pow2_sub. }
  assert (Hmx0 : (0 <= inject_Z mx)%Q) by (now rewrite <- (Zle_Qle 0)).
  assert (Hv0 : (0 <= v)%Q).
  { apply Qle_trans with (2 := Hlo). apply Qmult_le_0_compat; lra. }
  assert (Q1 : (inject_Z m * pow2 e <= inject_Z mx * pow2 ex + pow2 e)%Q).
  { rewrite Zle_Qle, inject_Z_plus, inject_Z_mult in F1.
    apply (scale_le _ _ (pow2 ex) Px) in F1.
    rewrite <- EK.
    setoid_replace (inject_Z m * (inject_Z (2 ^ (e - ex)) * pow2 ex))%Q
      with (inject_Z m * inject_Z (2 ^ (e - ex)) * pow2 ex)%Q by ring.
    lra. }
  assert (Q2 : (inject_Z mx * pow2 ex < (inject_Z m + 2) * pow2 e)%Q).
  { rewrite Zlt_Qlt, inject_Z_mult, inject_Z_plus in F2.
    apply (scale_lt _ _ (pow2 ex) Px) in F2.
    rewrite <- EK.
    setoid_replace ((inject_Z m + 2) * (inject_Z (2 ^ (e - ex)) * pow2 ex))%Q
      with ((inject_Z m + inject_Z 2) * inject_Z (2 ^ (e - ex)) * pow2 ex)%Q by ring.
    exact F2. }
  destruct m as [|p|p]; [| |lia].
  - (* the result is a zero *)
    split; [reflexivity|]. cbn [SFvalue].
    assert (Hsmall : (v <= tiny)%Q).
    { unfold tiny.
      assert (T : (pow2 (-1072) == 4 * pow2 (-1074))%Q).
      { replace (-1072)%Z with (-1074 + 1 + 1)%Z by lia. rewrite !pow2_succ. ring. }
      pose proof (pow2_pos (-1074)) as P0.
      destruct (Z.eq_dec mx 0) as [Z0|N0].
      - subst mx. assert (ex <= -1074)%Z by (destruct (F4 eq_refl) as [_|[? _]]; lia).
        pose proof (pow2_le ex (-1074) ltac:(lia)).
        change (inject_Z 0) with 0%Q in Hhi. lra.
      - destruct (F4 eq_refl) as [Z0|[Hlt Hsm]]; [contradiction|].
        assert (EK' : (inject_Z (2 ^ (-1074 - ex)) * pow2 ex == pow2 (-1074))%Q).
        { rewrite pow2_Z by lia. apply pow2_sub. }
        rewrite Zlt_Qlt in Hsm. apply (scale_lt _ _ (pow2 ex) Px) in Hsm.
        assert (H1 : (1 <= inject_Z mx)%Q) by (rewrite <- (Zle_Qle 1); lia).
        apply (scale_le _ _ (pow2 ex) Px) in H1. lra. }
    pose proof tiny_pos as T.
    assert (E : (0 <= eps * v)%Q) by (apply Qmult_le_0_compat; [discriminate|exact Hv0]).
    destruct s; apply Qabs_Qle_condition; split; lra.
  - (* the result has mantissa [p] *)
    assert (He971 : (e <= 971)%Z).
    { destruct F3 as [L|[L|L]]; try lia.
      assert (EK' : (inject_Z (2 ^ (e - ex + 51)) * pow2 ex == pow2 (e + 51))%Q).
      { rewrite pow2_Z by lia.
        replace (e - ex + 51)%Z with (e + 51 - ex)%Z by lia. apply pow2_sub. }
      rewrite Zle_Qle in L. apply (scale_le _ _ (pow2 ex) Px) in L.
      assert (pow2 (e + 51) < pow2 1000)%Q by lra.
      apply pow2_lt_inv in H. lia. }
    apply Z.leb_le in He971. rewrite He971 in *.
    split; [reflexivity|].
    apply valid_finite in Hvalid. destruct Hvalid as (Hr & Hu & Hn).
    assert (D : (- pow2 e <= v - inject_Z (Zpos p) * pow2 e <= 3 * pow2 e)%Q) by lra.
    assert (B : (3 * pow2 e <= eps * v + tiny)%Q).
    { assert (E : (0 <= eps * v)%Q) by (apply Qmult_le_0_compat; [discriminate|exact Hv0]).
      destruct Hn as [Hn|Hn].
      - subst e. unfold tiny.
        assert (T : (pow2 (-1072) == 4 * pow2 (-1074))%Q).
        { replace (-1072)%Z with (-1074 + 1 + 1)%Z by lia. rewrite !pow2_succ. ring. }
        lra.
      - rewrite Zle_Qle in Hn. apply (scale_le _ _ (pow2 e) Py) in Hn.
        change (inject_Z (2 ^ 52)) with 4503599627370496%Q in Hn.
        pose proof tiny_pos. unfold eps. lra. }
    rewrite SFvalue_finite.
    destruct s; apply Qabs_Qle_condition; split; lra.
Qed.

(** *** The accuracy of a product and of a quotient *)

Lemma SFvalue_abs (s : bool) (m : positive) (e : Z) :
  (Qabs (SFvalue (S754_finite s m e)) == inject_Z (Zpos m) * pow2 e)%Q.
Proof.
  pose proof (magnitude_pos m e) as P. rewrite SFvalue_finite.
  destruct s.
  - rewrite Qabs_opp. apply Qabs_pos. lra.
  - apply Qabs_pos. lra.
Qed.

Lemma SFmul_near (x y : spec_float) :
  valid_binary x = true -> valid_binary y = true ->
  SFfinite x = true -> SFfinite y = true ->
  (Qabs (SFvalue x) <= pow2 200)%Q -> (Qabs (SFvalue y) <= pow2 200)%Q ->
  valid_binary (SFmul prec emax x y) = true ->
  SFfinite (SFmul prec emax x y) = true /\
  (Qabs (SFvalue (SFmul prec emax x y) - SFvalue x * SFvalue y)
   <= eps * Qabs (SFvalue x * SFvalue y) + tiny)%Q.
Proof.
  intros Vx Vy Fx Fy Bx By Vz.
  pose proof tiny_pos as T.
  assert (Z0 : forall q : Q, (q == 0)%Q -> (Qabs (0 - q) <= eps * Qabs q + tiny)%Q).
  { intros q E. rewrite E. cbn. lra. }
  destruct x as [sx|sx| |sx mx ex]; try discriminate;
    destruct y as [sy|sy| |sy my ey]; try discriminate;
    try (split; [reflexivity|]; cbn [SFmul]; apply Z0; cbn [SFvalue]; ring).
  rewrite SFvalue_abs in Bx, By.
  destruct (exponent_bound _ _ _ _ Vx Bx ltac:(lia)) as [Ex _].
  destruct (exponent_bound _ _ _ _ Vy By ltac:(lia)) as [Ey _].
  pose proof (magnitude_pos mx ex) as Px. pose proof (magnitude_pos my ey) as Py.
  set (v := ((inject_Z (Zpos mx) * pow2 ex) * (inject_Z (Zpos my) * pow2 ey))%Q).
  assert (Ev : (inject_Z (Zpos (mx * my)) * pow2 (ex + ey) == v)%Q).
  { unfold v. rewrite Pos2Z.inj_mul, inject_Z_mult, pow2_add. ring. }
  assert (Hv : (v < pow2 1000)%Q).
  { apply Qle_lt_trans with (pow2 200 * pow2 200)%Q.
    - unfold v. apply Qle_trans with (pow2 200 * (inject_Z (Zpos my) * pow2 ey))%Q.
      + apply Qmult_le_compat_r; lra.
      + apply Qmult_le_l; [apply pow2_pos|exact By].
    - rewrite <- pow2_add. apply pow2_lt. lia. }
  cbn [SFmul] in Vz |- *.
  pose proof (pow2_pos (ex + ey)) as Pxy.
  destruct (round_near (xorb sx sy) (Zpos (mx * my)) (ex + ey) loc_Exact v)
    as [F N]; try lia; try assumption; try lra.
  split; [exact F|].
  assert (Epos : (0 < v)%Q) by (unfold v; apply Qmult_lt_0_compat; assumption).
  assert (Es : (SFvalue (S754_finite sx mx ex) * SFvalue (S754_finite sy my ey)
                == if xorb sx sy then - v else v)%Q).
  { rewrite !SFvalue_finite. unfold v. destruct sx, sy; cbn [xorb]; ring. }
  rewrite Es.
  assert (Ea : (Qabs (if xorb sx sy then - v else v) == v)%Q).
  { destruct (xorb sx sy); [rewrite Qabs_opp|]; apply Qabs_pos; lra. }
  rewrite Ea. exact N.
Qed.

Lemma SFdiv_core_binary_spec (mx my : positive) (ex ey : Z) :
  exists q e' : Z,
    SFdiv_core_binary prec emax (Zpos mx) ex (Zpos my) ey
      = (q, e', new_location (Zpos my)
                  (snd (Z.div_eucl (Zpos mx * 2 ^ (ex - ey - e')) (Zpos my)))) /\
    e' = Z.min (fexp prec emax (Zpos (digits2_pos mx) + ex - (Zpos (digits2_pos my) + ey)))
               (ex - ey) /\
    q = (Zpos mx * 2 ^ (ex - ey - e') / Zpos my)%Z.
Proof.
  unfold SFdiv_core_binary. cbn [Zdigits2].
  set (e' := Z.min _ _).
  assert (Hs : (0 <= ex - ey - e')%Z) by lia.
  set (m' := match (ex - ey - e')%Z with
             | Z0 => Zpos mx
             | Zpos _ => Z.shiftl (Zpos mx) (ex - ey - e')
             | Zneg _ => 0%Z
             end).
  assert (Em : m' = (Zpos mx * 2 ^ (ex - ey - e'))%Z).
  { subst m'. destruct (ex - ey - e')%Z as [|p|p] eqn:E.
    - rewrite Z.pow_0_r. lia.
    - rewrite Z.shiftl_mul_pow2 by lia. reflexivity.
    - lia. }
  rewrite Em.
  exists (Zpos mx * 2 ^ (ex - ey - e') / Zpos my)%Z, e'.
  unfold Z.div.
  destruct (Z.div_eucl (Zpos mx * 2 ^ (ex - ey - e')) (Zpos my)) as [q r].
  cbn [snd]. repeat split.
Qed.

Lemma SFdiv_near (x y : spec_float) :
  valid_binary x = true -> valid_binary y = true ->
  SFfinite x = true -> SFfinite y = true ->
  (Qabs (SFvalue x) <= pow2 200)%Q -> (pow2 (-200) <= Qabs (SFvalue y))%Q ->
  valid_binary (SFdiv prec emax x y) = true ->
  SFfinite (SFdiv prec emax x y) = true /\
  (Qabs (SFvalue (SFdiv prec emax x y) - SFvalue x / SFvalue y)
   <= eps * Qabs (SFvalue x / SFvalue y) + tiny)%Q.
Proof.
  intros Vx Vy Fx Fy Bx By Vz.
  pose proof tiny_pos as T.
  pose proof (pow2_pos (-200)) as P200.
  destruct y as [sy|sy| |sy my ey]; try discriminate.
  { exfalso. cbn in By. lra. }
  pose proof (magnitude_pos my ey) as Py.
  destruct x as [sx|sx| |sx mx ex]; try discriminate.
  { split; [reflexivity|]. cbn [SFdiv SFvalue].
    setoid_replace (0 / SFvalue (S754_finite sy my ey))%Q with 0%Q
      by (unfold Qdiv; ring).
    cbn. lra. }
  rewrite SFvalue_abs in Bx, By.
  pose proof (magnitude_pos mx ex) as Px.
  destruct (exponent_bound _ _ _ _ Vx Bx ltac:(lia)) as [Ex Dx].
  pose proof (magnitude_bounds my ey) as [_ Dy].
  assert (Dy' : (-200 < Zpos (digits2_pos my) + ey)%Z).
  { apply pow2_lt_inv. lra. }
  set (A := (inject_Z (Zpos mx) * pow2 ex)%Q) in *.
  set (B := (inject_Z (Zpos my) * pow2 ey)%Q) in *.
  set (v := (A / B)%Q).
  assert (Epos : (0 < v)%Q) by (unfold v; apply Qlt_shift_div_l; lra).
  destruct (SFdiv_core_binary_spec mx my ex ey) as (q & e' & Ecore & Ee & Eq).
  cbn [SFdiv] in Vz |- *. rewrite Ecore in Vz |- *.
  rewrite fexp_eq in Ee.
  set (s' := (ex - ey - e')%Z) in *.
  assert (Hs : (0 <= s')%Z) by lia.
  assert (P2 : (0 < 2 ^ s')%Z) by now apply Z.pow_pos_nonneg.
  assert (Hq : (Zpos my * q <= Zpos mx * 2 ^ s' < Zpos my * (q + 1))%Z).
  { pose proof (Z.div_mod (Zpos mx * 2 ^ s') (Zpos my) ltac:(lia)) as E.
    pose proof (Z.mod_pos_bound (Zpos mx * 2 ^ s') (Zpos my) ltac:(lia)) as M.
    rewrite <- Eq in E. lia. }
  assert (Hq0 : (0 <= q)%Z) by (rewrite Eq; apply Z.div_pos; lia).
  pose proof (pow2_pos e') as Pe. pose proof (pow2_pos ey) as Pey.
  assert (ES : (inject_Z (2 ^ s') * pow2 e' * pow2 ey == pow2 ex)%Q).
  { rewrite pow2_Z by lia. rewrite <- !pow2_add. unfold s'.
    now replace (ex - ey - e' + e' + ey)%Z with ex by lia. }
  assert (Hq1 : (B * (inject_Z q * pow2 e') <= A)%Q).
  { destruct Hq as [Hq _]. rewrite Zle_Qle, !inject_Z_mult in Hq.
    apply (scale_le _ _ (pow2 e' * pow2 ey)%Q) in Hq;
      [|apply Qmult_lt_0_compat; assumption].
    unfold A, B. rewrite <- ES.
    setoid_replace (inject_Z (Zpos my) * pow2 ey * (inject_Z q * pow2 e'))%Q
      with (inject_Z (Zpos my) * inject_Z q * (pow2 e' * pow2 ey))%Q by ring.
    setoid_replace (inject_Z (Zpos mx) * (inject_Z (2 ^ s') * pow2 e' * pow2 ey))%Q
      with (inject_Z (Zpos mx) * inject_Z (2 ^ s') * (pow2 e' * pow2 ey))%Q by ring.
    exact Hq. }
  assert (Hq2 : (A < B * ((inject_Z q + 1) * pow2 e'))%Q).
  { destruct Hq as [_ Hq]. rewrite Zlt_Qlt, !inject_Z_mult, inject_Z_plus in Hq.
    apply (scale_lt _ _ (pow2 e' * pow2 ey)%Q) in Hq;
      [|apply Qmult_lt_0_compat; assumption].
    unfold A, B. rewrite <- ES.
    setoid_replace (inject_Z (Zpos my) * pow2 ey * ((inject_Z q + 1) * pow2 e'))%Q
      with (inject_Z (Zpos my) * (inject_Z q + inject_Z 1) * (pow2 e' * pow2 ey))%Q by ring.
    setoid_replace (inject_Z (Zpos mx) * (inject_Z (2 ^ s') * pow2 e' * pow2 ey))%Q
      with (inject_Z (Zpos mx) * inject_Z (2 ^ s') * (pow2 e' * pow2 ey))%Q by ring.
    exact Hq. }
  assert (Hlo : (inject_Z q * pow2 e' <= v)%Q).
  { unfold v. apply Qle_shift_div_l; [exact Py|].
    rewrite Qmult_comm. exact Hq1. }
  assert (Hhi : (v < (inject_Z q + 1) * pow2 e')%Q).
  { unfold v. apply Qlt_shift_div_r; [exact Py|].
    rewrite Qmult_comm. exact Hq2. }
  assert (Hv : (v < pow2 1000)%Q).
  { unfold v. apply Qlt_shift_div_r; [exact Py|].
    apply Qle_lt_trans with (1 := Bx).
    apply Qlt_le_trans with (pow2 1000 * pow2 (-200))%Q.
    - rewrite <- pow2_add. apply pow2_lt. lia.
    - apply Qmult_le_l; [apply pow2_pos|exact By]. }
  assert (Hone : (1 <= q \/ e' <= -1074)%Z).
  { destruct (Z_le_gt_dec e' (-1074)) as [L|G]; [now right|left].
    pose proof (digits2_pos_bounds mx) as [Lx _].
    pose proof (digits2_pos_bounds my) as [_ Uy].
    set (d1 := Zpos (digits2_pos mx)) in *. set (d2 := Zpos (digits2_pos my)) in *.
    assert (Hd1 : (1 <= d1)%Z) by (subst d1; lia).
    assert (Hd2 : (1 <= d2)%Z) by (subst d2; lia).
    assert (Hd53 : (d1 <= 53)%Z).
    { apply valid_finite in Vx. destruct Vx as (_ & U & _).
      apply (Zdigits2_le (Zpos mx) 53); lia. }
    assert (Hs' : (53 - d1 + d2 <= s')%Z) by lia.
    assert (M : (2 ^ (d1 - 1) * 2 ^ (53 - d1 + d2) <= Zpos mx * 2 ^ s')%Z).
    { assert (X1 : (0 <= 2 ^ (d1 - 1))%Z) by (apply Z.pow_nonneg; lia).
      assert (X2 : (0 <= 2 ^ (53 - d1 + d2))%Z) by (apply Z.pow_nonneg; lia).
      assert (X3 : (2 ^ (53 - d1 + d2) <= 2 ^ s')%Z) by (apply Z.pow_le_mono_r; lia).
      nia. }
    rewrite <- Z.pow_add_r in M by lia.
    assert (2 ^ d2 <= 2 ^ (d1 - 1 + (53 - d1 + d2)))%Z by (apply Z.pow_le_mono_r; lia).
    destruct (Z_le_gt_dec 1 q) as [L1|G1]; [exact L1|exfalso].
    assert (q = 0%Z) by lia. subst q. lia. }
  assert (He : (e' <= 900)%Z) by lia.
  destruct (round_near (xorb sx sy) q e'
              (new_location (Zpos my) (snd (Z.div_eucl (Zpos mx * 2 ^ s') (Zpos my)))) v
              Hq0 Hone He Hlo Hhi Hv Vz) as [F N].
  split; [exact F|].
  assert (Es : (SFvalue (S754_finite sx mx ex) / SFvalue (S754_finite sy my ey)
                == if xorb sx sy then - v else v)%Q).
  { rewrite !SFvalue_finite. unfold v. fold A B.
    destruct sx, sy; cbn [xorb]; field; lra. }
  rewrite Es.
  assert (Ea : (Qabs (if xorb sx sy then - v else v) == v)%Q).
  { destruct (xorb sx sy); [rewrite Qabs_opp|]; apply Qabs_pos; lra. }
  rewrite Ea. exact N.
Qed.

(** *** The operations on numbers *)

Lemma mul_near (x y : number) :
  isFinite x = true -> isFinite y = true ->
  (Qabs (valueOf x) <= pow2 200)%Q -> (Qabs (valueOf y) <= pow2 200)%Q ->
  isFinite (x * y) = true /\
  (Qabs (valueOf (x * y) - valueOf x * valueOf y)
   <= eps * Qabs (valueOf x * valueOf y) + tiny)%Q.
Proof.
  intros Fx Fy Bx By. unfold isFinite, valueOf. rewrite mul_spec.
  apply SFmul_near; try assumption; try apply Prim2SF_valid.
  rewrite <- mul_spec. apply Prim2SF_valid.
Qed.

Lemma div_near (x y : number) :
  isFinite x = true -> isFinite y = true ->
  (Qabs (valueOf x) <= pow2 200)%Q -> (pow2 (-200) <= Qabs (valueOf y))%Q ->
  isFinite (x / y) = true /\
  (Qabs (valueOf (x / y) - valueOf x / valueOf y)
   <= eps * Qabs (valueOf x / valueOf y) + tiny)%Q.
Proof.
  intros Fx Fy Bx By. unfold isFinite, valueOf. rewrite div_spec.
  apply SFdiv_near; try assumption; try apply Prim2SF_valid.
  rewrite <- div_spec. apply Prim2SF_valid.
Qed.

(** *** [Math.round] *)

Lemma Qfloor_unique (q : Q) (k : Z) :
  (inject_Z k <= q)%Q -> (q < inject_Z k + 1)%Q -> Qfloor q = k.
Proof.
  intros Hlo Hhi.
  pose proof (Qfloor_le q) as L. pose proof (Qlt_floor q) as U.
  rewrite inject_Z_plus in U. change (inject_Z 1) with 1%Q in U.
  assert (A : (inject_Z (Qfloor q) < inject_Z (k + 1))%Q)
    by (rewrite inject_Z_plus; change (inject_Z 1) with 1%Q; lra).
  assert (B : (inject_Z k < inject_Z (Qfloor q + 1))%Q)
    by (rewrite inject_Z_plus; change (inject_Z 1) with 1%Q; lra).
  rewrite <- Zlt_Qlt in A, B. lia.
Qed.

Lemma iter_xO_value (p d : positive) :
  Zpos (Pos.iter xO p d) = (Zpos p * 2 ^ Zpos d)%Z.
Proof.
  change (Pos.iter xO p d) with (shift_pos d p).
  rewrite shift_pos_correct. change (Z.pow_pos 2 d) with (2 ^ Zpos d)%Z. lia.
Qed.

Lemma iter_xO_digits (p d : positive) :
  Zpos (digits2_pos (Pos.iter xO p d)) = (Zpos (digits2_pos p) + Zpos d)%Z.
Proof.
  induction d as [|d IH] using Pos.peano_ind.
  - cbn. lia.
  - rewrite Pos.iter_succ. cbn [digits2_pos]. lia.
Qed.

Lemma SFinteger_value (s : bool) (p : positive) :
  (SFvalue (SFinteger s p) == inject_Z (cond_Zopp s (Zpos p)))%Q.
Proof.
  unfold SFinteger, shl_align.
  destruct (Zpos (digits2_pos p) - prec - 0)%Z as [|d|d] eqn:E.
  - cbn [SFvalue]. change (pow2 0) with 1%Q. ring.
  - cbn [SFvalue]. change (pow2 0) with 1%Q. ring.
  - cbn [SFvalue].
    assert (V : (inject_Z (Zpos (Pos.iter xO p d)) * pow2 (Zpos (digits2_pos p) - prec)
                 == inject_Z (Zpos p))%Q).
    { rewrite iter_xO_value, inject_Z_mult, pow2_Z by lia.
      replace (Zpos (digits2_pos p) - prec)%Z with (- Zpos d)%Z by lia.
      rewrite <- Qmult_assoc, <- pow2_add.
      replace (Zpos d + - Zpos d)%Z with 0%Z by lia.
      change (pow2 0) with 1%Q. ring. }
    destruct s; cbn [cond_Zopp].
    + change (- Zpos (Pos.iter xO p d))%Z with (Z.opp (Zpos (Pos.iter xO p d))).
      change (- Zpos p)%Z with (Z.opp (Zpos p)).
      rewrite !inject_Z_opp. rewrite <- V. ring.
    + exact V.
Qed.

Lemma SFinteger_valid (s : bool) (p : positive) :
  (Zpos p < 2 ^ 53)%Z -> valid_binary (SFinteger s p) = true.
Proof.
  intros H.
  assert (D : (Zpos (digits2_pos p) <= 53)%Z)
    by (apply (Zdigits2_le (Zpos p) 53); lia).
  unfold SFinteger, shl_align.
  destruct (Zpos (digits2_pos p) - prec - 0)%Z as [|d|d] eqn:E;
    cbn [SpecFloat.valid_binary]; unfold bounded, canonical_mantissa;
    rewrite ?iter_xO_digits, fexp_eq; unfold prec, emax in *;
    apply andb_true_intro; split;
    try (apply Z.eqb_eq); try (apply Z.leb_le); lia.
Qed.

Lemma SFfinite_SFinteger (s : bool) (p : positive) : SFfinite (SFinteger s p) = true.
Proof. unfold SFinteger. now destruct (shl_align _ _ _). Qed.

(** [Math.round] of a finite double is the double of the integer
    [floor (x + 1/2)]. *)
Lemma SFround_spec (x : spec_float) :
  valid_binary x = true -> SFfinite x = true ->
  valid_binary (SFround x) = true /\ SFfinite (SFround x) = true /\
  (SFvalue (SFround x) == inject_Z (Qfloor (SFvalue x + (1 # 2))))%Q.
Proof.
  intros V F. destruct x as [s|s| |s m e]; try discriminate.
  - repeat split.
  - cbn [SFround]. destruct (Z.leb_spec 0 e) as [He|He].
    + split; [exact V|]. split; [reflexivity|].
      assert (E : (SFvalue (S754_finite s m e)
                   == inject_Z (cond_Zopp s (Zpos m) * 2 ^ e))%Q).
      { cbn [SFvalue]. now rewrite inject_Z_mult, pow2_Z. }
      rewrite E. symmetry. apply inject_Z_injective.
      apply Qfloor_unique; lra.
    + set (n := (- e)%Z). assert (Hn : (1 <= n)%Z) by lia.
      set (z := (cond_Zopp s (Zpos m) + 2 ^ (n - 1))%Z).
      replace (- e - 1)%Z with (n - 1)%Z by lia. fold z.
      rewrite Z.shiftr_div_pow2 by lia.
      set (k := (z / 2 ^ n)%Z).
      assert (P1 : (0 < 2 ^ (n - 1))%Z) by (apply Z.pow_pos_nonneg; lia).
      assert (P2 : (2 ^ n = 2 * 2 ^ (n - 1))%Z).
      { rewrite <- Z.pow_succ_r by lia. f_equal. lia. }
      assert (Hk : (k * 2 ^ n <= z < (k + 1) * 2 ^ n)%Z).
      { pose proof (Z.div_mod z (2 ^ n) ltac:(lia)) as D.
        pose proof (Z.mod_pos_bound z (2 ^ n) ltac:(lia)) as M.
        fold k in D. lia. }
      apply valid_finite in V. destruct V as (_ & U & _).
      assert (Hm : (- 2 ^ 53 < cond_Zopp s (Zpos m) < 2 ^ 53)%Z)
        by (destruct s; cbn [cond_Zopp]; lia).
      assert (Kb : (- 2 ^ 53 < k < 2 ^ 53)%Z).
      { change (2 ^ 53)%Z with 9007199254740992%Z in *. unfold z in Hk. nia. }
      assert (Ev : (SFvalue (S754_finite s m e) + (1 # 2)
                    == inject_Z z * pow2 e)%Q).
      { cbn [SFvalue]. unfold z. rewrite inject_Z_plus.
        rewrite pow2_Z by lia.
        assert (H2 : (pow2 (n - 1) * pow2 e == 1 # 2)%Q).
        { rewrite <- pow2_add. now replace (n - 1 + e)%Z with (-1)%Z by lia. }
        rewrite Qmult_plus_distr_l, H2. reflexivity. }
      assert (Ek : Qfloor (SFvalue (S754_finite s m e) + (1 # 2)) = k).
      { rewrite (Qfloor_comp _ _ Ev).
        pose proof (pow2_pos e) as Pe.
        assert (En : (inject_Z (2 ^ n) * pow2 e == 1)%Q).
        { rewrite pow2_Z by lia. rewrite <- pow2_add.
          now replace (n + e)%Z with 0%Z by lia. }
        destruct Hk as [Hk1 Hk2].
        rewrite Zle_Qle, inject_Z_mult in Hk1.
        rewrite Zlt_Qlt, inject_Z_mult, inject_Z_plus in Hk2.
        apply (scale_le _ _ (pow2 e) Pe) in Hk1.
        apply (scale_lt _ _ (pow2 e) Pe) in Hk2.
        change (inject_Z 1) with 1%Q in Hk2.
        apply Qfloor_unique.
        - setoid_replace (inject_Z k) with (inject_Z k * (inject_Z (2 ^ n) * pow2 e))%Q
            by (rewrite En; ring).
          lra.
        - setoid_replace (inject_Z k + 1)%Q
            with ((inject_Z k + 1) * (inject_Z (2 ^ n) * pow2 e))%Q
            by (rewrite En; ring).
          lra. }
      rewrite Ek.
      destruct k as [|p|p].
      * repeat split.
      * split; [apply SFinteger_valid; lia|].
        split; [apply SFfinite_SFinteger|]. apply SFinteger_value.
      * split; [apply SFinteger_valid; lia|].
        split; [apply SFfinite_SFinteger|]. apply SFinteger_value.
Qed.

Lemma Math_round_value (x : number) :
  isFinite x = true ->
  isFinite (Math_round x) = true /\
  (valueOf (Math_round x) == inject_Z (Qfloor (valueOf x + (1 # 2))))%Q.
Proof.
  intros F. unfold isFinite, valueOf, Math_round.
  destruct (SFround_spec (Prim2SF x) (Prim2SF_valid x) F) as (V & F' & E).
  rewrite (Prim2SF_SF2Prim _ V). now split.
Qed.

Lemma Math_round_near (x : number) :
  isFinite x = true ->
  (Qabs (valueOf (Math_round x) - valueOf x) <= 1 # 2)%Q.
Proof.
  intros F. destruct (Math_round_value x F) as [_ E]. rewrite E.
  pose proof (Qfloor_le (valueOf x + (1 # 2))) as L.
  pose proof (Qlt_floor (valueOf x + (1 # 2))) as U.
  rewrite inject_Z_plus in U. change (inject_Z 1) with 1%Q in U.
  apply Qabs_Qle_condition. split; lra.
Qed.

Lemma Math_round_floor (x : number) (n : Z) :
  isFinite x = true -> (inject_Z n <= valueOf x)%Q ->
  (inject_Z n <= valueOf (Math_round x))%Q.
Proof.
  intros F H. destruct (Math_round_value x F) as [_ E]. rewrite E.
  rewrite <- Zle_Qle. rewrite <- (Qfloor_Z n). apply Qfloor_resp_le. lra.
Qed.

Lemma Math_round_ceiling (x : number) (n : Z) :
  isFinite x = true -> (valueOf x < inject_Z n + (1 # 2))%Q ->
  (valueOf (Math_round x) <= inject_Z n)%Q.
Proof.
  intros F H. destruct (Math_round_value x F) as [_ E]. rewrite E.
  rewrite <- Zle_Qle.
  pose proof (Qfloor_le (valueOf x + (1 # 2))) as L.
  assert (A : (inject_Z (Qfloor (valueOf x + (1 # 2))) < inject_Z (n + 1))%Q)
    by (rewrite inject_Z_plus; change (inject_Z 1) with 1%Q; lra).
  rewrite <- Zlt_Qlt in A. lia.
Qed.

(** *** The accuracy of a difference *)

Lemma shl_align_value (m : positive) (e e' : Z) :
  (inject_Z (Zpos (fst (shl_align m e e'))) * pow2 (snd (shl_align m e e'))
   == inject_Z (Zpos m) * pow2 e)%Q /\
  (snd (shl_align m e e') <= e)%Z.
Proof.
  unfold shl_align. destruct (e' - e)%Z as [|d|d] eqn:E; cbn [fst snd].
  - split; [reflexivity|lia].
  - split; [reflexivity|lia].
  - split; [|lia].
    rewrite iter_xO_value, inject_Z_mult, pow2_Z by lia.
    rewrite <- Qmult_assoc, <- pow2_add.
    now replace (Zpos d + e')%Z with e by lia.
Qed.

Lemma shl_align_min (m : positive) (e e' : Z) :
  (e' <= e)%Z -> snd (shl_align m e e') = e'.
Proof.
  intros H. unfold shl_align.
  destruct (e' - e)%Z as [|d|d] eqn:E; cbn [snd]; lia.
Qed.

Lemma binary_round_near (s : bool) (m : positive) (e : Z) :
  (e <= 900)%Z -> (inject_Z (Zpos m) * pow2 e < pow2 1000)%Q ->
  valid_binary (binary_round prec emax s m e) = true ->
  SFfinite (binary_round prec emax s m e) = true /\
  (Qabs (SFvalue (binary_round prec emax s m e)
         - (if s then - (inject_Z (Zpos m) * pow2 e) else inject_Z (Zpos m) * pow2 e))
   <= eps * (inject_Z (Zpos m) * pow2 e) + tiny)%Q.
Proof.
  intros He Hv V. unfold binary_round in *.
  destruct (shl_align_value m e (fexp prec emax (Zpos (digits2_pos m) + e)))
    as [Ev Ee].
  destruct (shl_align m e (fexp prec emax (Zpos (digits2_pos m) + e)))
    as [mz ez]. cbn [fst snd] in Ev, Ee.
  pose proof (pow2_pos ez) as Pz.
  apply (round_near s (Zpos mz) ez loc_Exact); try lia; try assumption.
  - rewrite Ev. apply Qle_refl.
  - rewrite <- Ev. lra.
Qed.

Lemma SFsub_near (x y : spec_float) :
  valid_binary x = true -> valid_binary y = true ->
  SFfinite x = true -> SFfinite y = true ->
  (Qabs (SFvalue x) <= pow2 200)%Q -> (Qabs (SFvalue y) <= pow2 200)%Q ->
  valid_binary (SFsub prec emax x y) = true ->
  SFfinite (SFsub prec emax x y) = true /\
  (Qabs (SFvalue (SFsub prec emax x y) - (SFvalue x - SFvalue y))
   <= eps * Qabs (SFvalue x - SFvalue y) + tiny)%Q.
Proof.
  intros Vx Vy Fx Fy Bx By Vz.
  pose proof tiny_pos as T.
  assert (Z0 : forall a b : Q, (a == b)%Q -> (Qabs (a - b) <= eps * Qabs b + tiny)%Q).
  { intros a b E. setoid_replace (a - b)%Q with 0%Q by (rewrite E; ring).
    pose proof (Qabs_nonneg b). change (Qabs 0) with 0%Q. unfold eps. lra. }
  destruct x as [sx|sx| |sx mx ex]; try discriminate;
    destruct y as [sy|sy| |sy my ey]; try discriminate.
  - split; [now destruct sx, sy|]. apply Z0. destruct sx, sy; cbn; ring.
  - split; [reflexivity|]. apply Z0. cbn [SFsub].
    rewrite !SFvalue_finite. cbn [SFvalue]. destruct sy; cbn [negb]; ring.
  - split; [reflexivity|]. apply Z0. cbn [SFsub SFvalue]. ring.
  - rewrite SFvalue_abs in Bx, By.
    destruct (exponent_bound _ _ _ _ Vx Bx ltac:(lia)) as [Ex _].
    destruct (exponent_bound _ _ _ _ Vy By ltac:(lia)) as [Ey _].
    pose proof (magnitude_pos mx ex) as Px. pose proof (magnitude_pos my ey) as Py.
    cbn [SFsub] in Vz |- *.
    set (ez := Z.min ex ey) in *.
    destruct (shl_align_value mx ex ez) as [Eax _].
    destruct (shl_align_value my ey ez) as [Eay _].
    rewrite (shl_align_min mx ex ez) in Eax by lia.
    rewrite (shl_align_min my ey ez) in Eay by lia.
    set (ax := Zpos (fst (shl_align mx ex ez))) in *.
    set (ay := Zpos (fst (shl_align my ey ez))) in *.
    set (z := (cond_Zopp sx ax - cond_Zopp sy ay)%Z) in *.
    pose proof (pow2_pos ez) as Pz.
    assert (Ez : (inject_Z z * pow2 ez
                  == SFvalue (S754_finite sx mx ex) - SFvalue (S754_finite sy my ey))%Q).
    { unfold z, Z.sub. rewrite inject_Z_plus, inject_Z_opp, !SFvalue_finite.
      destruct sx, sy; cbn [cond_Zopp]; rewrite <- Eax, <- Eay;
        rewrite ?inject_Z_opp; ring. }
    rewrite <- Ez.
    assert (Bz : (Qabs (inject_Z z * pow2 ez) < pow2 1000)%Q).
    { rewrite Ez, !SFvalue_finite.
      assert (pow2 200 + pow2 200 < pow2 1000)%Q.
      { setoid_replace (pow2 200 + pow2 200)%Q with (2 * pow2 200)%Q by ring.
        rewrite <- pow2_succ. apply pow2_lt. lia. }
      apply Qle_lt_trans with (2 := H).
      destruct sx, sy; apply Qabs_Qle_condition; split; lra. }
    destruct z as [|p|p] eqn:Hz; cbn [binary_normalize] in Vz |- *.
    + split; [reflexivity|]. apply Z0. cbn. ring.
    + rewrite (Qabs_pos (inject_Z (Zpos p) * pow2 ez)) in Bz |- *
        by (apply Qlt_le_weak, magnitude_pos).
      apply (binary_round_near false p ez); try lia; assumption.
    + assert (En : (inject_Z (Zneg p) * pow2 ez == - (inject_Z (Zpos p) * pow2 ez))%Q).
      { change (Zneg p) with (- Zpos p)%Z. rewrite inject_Z_opp. ring. }
      rewrite En in Bz |- *. rewrite Qabs_opp in Bz |- *.
      rewrite (Qabs_pos (inject_Z (Zpos p) * pow2 ez)) in Bz |- *
        by (apply Qlt_le_weak, magnitude_pos).
      apply (binary_round_near true p ez); try lia; assumption.
Qed.

Lemma sub_near (x y : number) :
  isFinite x = true -> isFinite y = true ->
  (Qabs (valueOf x) <= pow2 200)%Q -> (Qabs (valueOf y) <= pow2 200)%Q ->
  isFinite (x - y) = true /\
  (Qabs (valueOf (x - y) - (valueOf x - valueOf y))
   <= eps * Qabs (valueOf x - valueOf y) + tiny)%Q.
Proof.
  intros Fx Fy Bx By. unfold isFinite, valueOf. rewrite sub_spec.
  apply SFsub_near; try assumption; try apply Prim2SF_valid.
  rewrite <- sub_spec. apply Prim2SF_valid.
Qed.

(** *** Rounding does not go below a half-integer *)

(** A number that is at least [j + 1/2] and below [2 ^ 51] rounds to a
    double that is at least [j + 1/2]: the half-integers of that size are
    doubles, and rounding to nearest does not pass one. *)
Lemma round_at_least (s : bool) (mx ex : Z) (lx : location) (j : Z) :
  (0 <= mx)%Z -> (0 <= j)%Z ->
  valid_binary (binary_round_aux prec emax s mx ex lx) = true ->
  SFfinite (binary_round_aux prec emax s mx ex lx) = true ->
  (inject_Z j + (1 # 2) <= inject_Z mx * pow2 ex)%Q ->
  (inject_Z mx * pow2 ex < pow2 51)%Q ->
  (inject_Z j + (1 # 2) <= Qabs (SFvalue (binary_round_aux prec emax s mx ex lx)))%Q.
Proof.
  intros Hmx Hj Hvalid Hfin Hlo Hhi.
  destruct (binary_round_aux_spec s mx ex lx Hmx)
    as (m & e & Hm & Hee & R & F1 & _ & _ & F4 & F5).
  rewrite R in *. clear R.
  pose proof (pow2_pos ex) as Px. pose proof (pow2_pos e) as Pe.
  assert (EK : (inject_Z (2 ^ (e - ex)) * pow2 ex == pow2 e)%Q).
  { rewrite pow2_Z by lia. apply pow2_sub. }
  assert (Hj0 : (0 <= inject_Z j)%Q) by (now rewrite <- (Zle_Qle 0)).
  assert (P0 : (pow2 (-1074) <= 1 # 4)%Q).
  { apply Qle_trans with (pow2 (-2)); [apply pow2_le; lia|]. discriminate. }
  destruct m as [|p|p]; [| |lia].
  - (* a zero: the argument would be below the least double *)
    exfalso. destruct (F4 eq_refl) as [Z0|[Hlt Hsm]].
    + subst mx. change (inject_Z 0) with 0%Q in Hlo. lra.
    + assert (EK' : (inject_Z (2 ^ (-1074 - ex)) * pow2 ex == pow2 (-1074))%Q).
      { rewrite pow2_Z by lia. apply pow2_sub. }
      rewrite Zlt_Qlt in Hsm. apply (scale_lt _ _ (pow2 ex) Px) in Hsm. lra.
  - destruct (e <=? 971)%Z eqn:E971; [|discriminate Hfin].
    rewrite SFvalue_abs.
    apply valid_finite in Hvalid. destruct Hvalid as (_ & _ & Hn).
    assert (Q1 : (inject_Z (Zpos p) * pow2 e <= inject_Z mx * pow2 ex + pow2 e)%Q).
    { rewrite Zle_Qle, inject_Z_plus, inject_Z_mult in F1.
      apply (scale_le _ _ (pow2 ex) Px) in F1.
      rewrite <- EK.
      setoid_replace (inject_Z (Zpos p) * (inject_Z (2 ^ (e - ex)) * pow2 ex))%Q
        with (inject_Z (Zpos p) * inject_Z (2 ^ (e - ex)) * pow2 ex)%Q by ring.
      lra. }
    assert (He : (e <= -1)%Z).
    { destruct Hn as [Hn|Hn]; [lia|].
      destruct (Z_le_gt_dec e (-1)) as [L|G]; [exact L|exfalso].
      assert (P1 : (1 <= pow2 e)%Q)
        by (change 1%Q with (pow2 0); apply pow2_le; lia).
      assert (P51 : (pow2 51 == 2251799813685248)%Q) by reflexivity.
      rewrite Zle_Qle in Hn.
      change (inject_Z (2 ^ 52)) with 4503599627370496%Q in Hn.
      assert (G1 : (0 <= (inject_Z (Zpos p) - 1) * (pow2 e - 1))%Q)
        by (apply Qmult_le_0_compat; lra).
      lra. }
    (* [j + 1/2] is the integer [Y] in units of [2 ^ e] *)
    set (Y := ((2 * j + 1) * 2 ^ (-1 - e))%Z).
    assert (EY : (inject_Z Y * pow2 e == inject_Z j + (1 # 2))%Q).
    { unfold Y. rewrite inject_Z_mult, inject_Z_plus, inject_Z_mult.
      rewrite pow2_Z by lia.
      assert (E1 : (pow2 (-1 - e) * pow2 e == 1 # 2)%Q).
      { rewrite <- pow2_add. now replace (-1 - e + e)%Z with (-1)%Z by lia. }
      change (inject_Z 2) with 2%Q. change (inject_Z 1) with 1%Q.
      setoid_replace ((2 * inject_Z j + 1) * pow2 (-1 - e) * pow2 e)%Q
        with ((2 * inject_Z j + 1) * (pow2 (-1 - e) * pow2 e))%Q by ring.
      rewrite E1. field. }
    assert (HY : (Y * 2 ^ (e - ex) <= mx)%Z).
    { rewrite Zle_Qle, inject_Z_mult.
      apply Qmult_le_r with (pow2 ex); [exact Px|].
      setoid_replace (inject_Z Y * inject_Z (2 ^ (e - ex)) * pow2 ex)%Q
        with (inject_Z Y * (inject_Z (2 ^ (e - ex)) * pow2 ex))%Q by ring.
      rewrite EK, EY. exact Hlo. }
    assert (P2 : (0 < 2 ^ (e - ex))%Z) by (apply Z.pow_pos_nonneg; lia).
    assert (HYp : (Y <= Zpos p)%Z).
    { apply Z.le_trans with (2 := F5). apply Z.div_le_lower_bound; lia. }
    rewrite <- EY. apply scale_le; [exact Pe|]. now rewrite <- Zle_Qle.
Qed.

Lemma positive_value (x : number) :
  (0 < valueOf x)%Q ->
  exists m e, Prim2SF x = S754_finite false m e.
Proof.
  unfold valueOf. intros H.
  destruct (Prim2SF x) as [s|s| |s m e];
    try (cbn [SFvalue] in H; lra).
  pose proof (magnitude_pos m e) as P.
  rewrite SFvalue_finite in H. destruct s; [lra|]. now exists m, e.
Qed.

Lemma mul_at_least (x y : number) (j : Z) :
  (0 < valueOf x)%Q -> (0 < valueOf y)%Q ->
  (valueOf x * valueOf y < pow2 51)%Q ->
  (0 <= j)%Z -> (inject_Z j + (1 # 2) <= valueOf x * valueOf y)%Q ->
  isFinite (x * y) = true ->
  (inject_Z j + (1 # 2) <= valueOf (x * y))%Q.
Proof.
  intros Hx Hy Hhi Hj Hlo Hfin.
  destruct (positive_value x Hx) as (mx & ex & Ex).
  destruct (positive_value y Hy) as (my & ey & Ey).
  pose proof (Prim2SF_valid (x * y)) as V.
  unfold isFinite in Hfin. unfold valueOf in *.
  rewrite mul_spec, Ex, Ey in V, Hfin |- *.
  rewrite Ex, Ey in Hhi, Hlo. cbn [SFvalue cond_Zopp] in Hhi, Hlo.
  unfold SF64mul in V, Hfin |- *. cbn [SFmul xorb] in V, Hfin |- *.
  assert (Ev : (inject_Z (Zpos (mx * my)) * pow2 (ex + ey)
                == inject_Z (Zpos mx) * pow2 ex * (inject_Z (Zpos my) * pow2 ey))%Q).
  { rewrite Pos2Z.inj_mul, inject_Z_mult, pow2_add. ring. }
  rewrite <- Ev in Hhi, Hlo.
  pose proof (round_at_least false (Zpos (mx * my)) (ex + ey) loc_Exact j
                ltac:(lia) Hj V Hfin Hlo Hhi) as A.
  destruct (binary_round_aux prec emax false (Zpos (mx * my)) (ex + ey) loc_Exact)
    as [s|s| |s m e] eqn:R; try discriminate Hfin.
  - cbn in A. assert (0 <= inject_Z j)%Q by (now rewrite <- (Zle_Qle 0)). lra.
  - rewrite SFvalue_abs in A.
    destruct (binary_round_aux_spec false (Zpos (mx * my)) (ex + ey) loc_Exact
                ltac:(lia)) as (m' & e' & _ & _ & R' & _).
    rewrite R in R'.
    assert (s = false).
    { destruct m' as [|p|p]; try discriminate R'.
      destruct (e' <=? 971)%Z; [now injection R'|discriminate R']. }
    subst s. cbn [SFvalue cond_Zopp]. exact A.
Qed.

(** *** Symmetries of the operations of the matcher *)

Lemma SFabs_binary_round_aux (s s' : bool) (m e : Z) (l : location) :
  SFabs (binary_round_aux prec emax s m e l)
  = SFabs (binary_round_aux prec emax s' m e l).
Proof.
  unfold binary_round_aux.
  destruct (shr_fexp prec emax m e l) as [mrs e1].
  destruct (shr_fexp prec emax _ e1 loc_Exact) as [mrs2 e2].
  destruct (shr_m mrs2); try reflexivity.
  now destruct (e2 <=? emax - prec)%Z.
Qed.

Lemma SFabs_binary_normalize_opp (z e : Z) :
  SFabs (binary_normalize prec emax (- z) e false)
  = SFabs (binary_normalize prec emax z e false).
Proof.
  destruct z as [|p|p]; cbn [Z.opp binary_normalize]; try reflexivity;
    unfold binary_round; destruct (shl_align _ _ _) as [mz ez];
    apply SFabs_binary_round_aux.
Qed.

Lemma SFabs_SFsub_sym (x y : spec_float) :
  SFabs (SFsub prec emax x y) = SFabs (SFsub prec emax y x).
Proof.
  destruct x as [sx|sx| |sx mx ex], y as [sy|sy| |sy my ey];
    try reflexivity; try (now destruct sx, sy).
  cbn [SFsub]. rewrite (Z.min_comm ey ex).
  rewrite <- SFabs_binary_normalize_opp. f_equal. f_equal. lia.
Qed.

Lemma Math_abs_sub_sym (a b : number) :
  Math_abs (a - b) = Math_abs (b - a).
Proof.
  apply Prim2SF_inj. unfold Math_abs. rewrite !abs_spec, !sub_spec.
  apply SFabs_SFsub_sym.
Qed.

Lemma SFcompare_antisym (x y : spec_float) :
  SFcompare y x = option_map CompOpp (SFcompare x y).
Proof.
  destruct x as [sx|sx| |sx mx ex], y as [sy|sy| |sy my ey];
    try reflexivity; try (now destruct sx, sy); try (now destruct sx);
    try (now destruct sy).
  cbn [SFcompare option_map]. f_equal.
  rewrite (Z.compare_antisym ex ey), (ZC4 my mx).
  destruct sx, sy; try reflexivity;
    destruct (ex ?= ey)%Z; cbn [CompOpp]; try reflexivity.
Qed.

Lemma SFcompare_Eq (x y : spec_float) :
  SFcompare x y = Some Eq ->
  x = y \/ exists sx sy, x = S754_zero sx /\ y = S754_zero sy.
Proof.
  destruct x as [sx|sx| |sx mx ex], y as [sy|sy| |sy my ey];
    cbn [SFcompare]; try discriminate;
    try (destruct sx; discriminate); try (destruct sy; discriminate).
  - intros _. right. now exists sx, sy.
  - destruct sx, sy; try discriminate; intros _; now left.
  - intros H. left.
    destruct sx, sy; try discriminate;
      destruct (Z.compare_spec ex ey) as [E|E|E]; try discriminate;
      subst ey; injection H as H.
    + apply (f_equal CompOpp) in H. rewrite CompOpp_involutive in H.
      cbn [CompOpp] in H. apply Pcompare_Eq_eq in H. now subst.
    + apply Pcompare_Eq_eq in H. now subst.
Qed.

Lemma SFmin_comm (x y : spec_float) : SFmin x y = SFmin y x.
Proof.
  unfold SFmin. rewrite (SFcompare_antisym x y).
  destruct (SFcompare x y) as [[ | | ]|] eqn:E; cbn [option_map CompOpp];
    try reflexivity.
  destruct (SFcompare_Eq x y E) as [->|(sx & sy & -> & ->)].
  - reflexivity.
  - now rewrite orb_comm.
Qed.

Lemma SFmax_comm (x y : spec_float) : SFmax x y = SFmax y x.
Proof.
  unfold SFmax. rewrite (SFcompare_antisym x y).
  destruct (SFcompare x y) as [[ | | ]|] eqn:E; cbn [option_map CompOpp];
    try reflexivity.
  destruct (SFcompare_Eq x y E) as [->|(sx & sy & -> & ->)].
  - reflexivity.
  - now rewrite andb_comm.
Qed.

Lemma Math_min_comm (a b : number) : Math_min a b = Math_min b a.
Proof. unfold Math_min. now rewrite SFmin_comm. Qed.

Lemma Math_max_comm (a b : number) : Math_max a b = Math_max b a.
Proof. unfold Math_max. now rewrite SFmax_comm. Qed.

(** *** [NaN] *)

Lemma SFcompare_refl (x : spec_float) :
  x <> S754_nan -> SFcompare x x = Some Eq.
Proof.
  destruct x as [s|s| |s m e]; intros H; try reflexivity.
  - now destruct s.
  - contradiction.
  - cbn [SFcompare]. rewrite Z.compare_refl, Pcompare_refl. now destruct s.
Qed.

Lemma isNaN_spec (x : number) : isNaN x = true <-> Prim2SF x = S754_nan.
Proof.
  unfold isNaN, PrimFloat.is_nan. rewrite eqb_spec. unfold SFeqb.
  split.
  - intros H. destruct (Prim2SF x) as [s|s| |s m e] eqn:E; try reflexivity;
      rewrite SFcompare_refl in H by discriminate; discriminate.
  - intros ->. reflexivity.
Qed.

Lemma isNaN_sub_l (a b : number) : isNaN a = true -> isNaN (a - b) = true.
Proof.
  rewrite !isNaN_spec, sub_spec. intros ->. reflexivity.
Qed.

Lemma isNaN_sub_r (a b : number) : isNaN b = true -> isNaN (a - b) = true.
Proof.
  rewrite !isNaN_spec, sub_spec. intros ->. now destruct (Prim2SF a).
Qed.

Lemma isNaN_abs (a : number) : isNaN a = true -> isNaN (Math_abs a) = true.
Proof.
  unfold Math_abs. rewrite !isNaN_spec, abs_spec. intros ->. reflexivity.
Qed.

Lemma leb_NaN_l (a b : number) : isNaN a = true -> (a <=? b)%float = false.
Proof. rewrite isNaN_spec, leb_spec. intros ->. reflexivity. Qed.

Lemma leb_NaN_r (a b : number) : isNaN b = true -> (a <=? b)%float = false.
Proof.
  rewrite isNaN_spec, leb_spec. intros ->. unfold SFleb.
  now destruct (Prim2SF a).
Qed.

Lemma isNaN_min_l (a b : number) : isNaN a = true -> isNaN (Math_min a b) = true.
Proof.
  rewrite !isNaN_spec. unfold Math_min. intros ->.
  now rewrite Prim2SF_SF2Prim.
Qed.

Lemma isNaN_div_l (a b : number) : isNaN a = true -> isNaN (a / b) = true.
Proof.
  rewrite !isNaN_spec, div_spec. intros ->. reflexivity.
Qed.

(** ** C5: the geometry planner *)

Lemma near_relative (x q : Q) :
  (Qabs (x - q) <= eps * Qabs q + tiny)%Q -> (pow2 (-1000) <= q)%Q ->
  ((1 - delta) * q <= x <= (1 + delta) * q)%Q.
Proof.
  intros H Hq.
  pose proof (pow2_pos (-1000)) as P.
  assert (T : (tiny <= eps * q)%Q).
  { unfold tiny.
    assert (E : (pow2 (-1072) <= pow2 (-1049))%Q) by (apply pow2_le; lia).
    assert (E' : (pow2 (-1049) == eps * pow2 (-1000))%Q).
    { replace (-1049)%Z with (-49 + -1000)%Z by lia. rewrite pow2_add.
      apply Qmult_comp; [reflexivity|reflexivity]. }
    assert (eps * pow2 (-1000) <= eps * q)%Q by (apply Qmult_le_l; [reflexivity|exact Hq]).
    lra. }
  rewrite (Qabs_pos q) in H by lra.
  apply Qabs_Qle_condition in H. unfold delta. unfold eps in *. split; lra.
Qed.

(** The computed aspect ratio of a diagram of ordinary size. *)
Lemma aspect_near (svgWidth svgHeight : number) :
  within (pow2 (-64)) (pow2 64) svgWidth ->
  within (pow2 (-64)) (pow2 64) svgHeight ->
  let r := (valueOf svgWidth / valueOf svgHeight)%Q in
  isFinite (svgWidth / svgHeight) = true /\
  (pow2 (-128) <= r <= pow2 128)%Q /\
  ((1 - delta) * r <= valueOf (svgWidth / svgHeight) <= (1 + delta) * r)%Q.
Proof.
  intros [Fw [Lw Uw]] [Fh [Lh Uh]] r.
  pose proof (pow2_pos (-64)) as P64. pose proof (pow2_pos 64) as P64'.
  assert (B1 : (pow2 64 <= pow2 200)%Q) by (apply pow2_le; lia).
  assert (B2 : (pow2 (-200) <= pow2 (-64))%Q) by (apply pow2_le; lia).
  destruct (div_near svgWidth svgHeight Fw Fh) as [F N].
  { rewrite Qabs_pos by lra. lra. }
  { rewrite Qabs_pos by lra. lra. }
  fold r in N.
  assert (R : (pow2 (-128) <= r <= pow2 128)%Q).
  { unfold r. split.
    - apply Qle_shift_div_l; [lra|].
      apply Qle_trans with (pow2 (-128) * pow2 64)%Q.
      + apply Qmult_le_l; [apply pow2_pos|exact Uh].
      + rewrite <- pow2_add. change (-128 + 64)%Z with (-64)%Z. exact Lw.
    - apply Qle_shift_div_r; [lra|].
      apply Qle_trans with (pow2 128 * pow2 (-64))%Q.
      + rewrite <- pow2_add. change (128 + -64)%Z with 64%Z. exact Uw.
      + apply Qmult_le_l; [apply pow2_pos|exact Lh]. }
  split; [exact F|]. split; [exact R|].
  apply near_relative; [exact N|].
  apply Qle_trans with (pow2 (-128)); [apply pow2_le; lia|apply R].
Qed.

(** A product and a quotient by the computed aspect ratio [ratio], against
    the same with the exact ratio [r]. *)
Lemma product_near (x ratio : number) (r : Q) :
  isFinite x = true -> (Qabs (valueOf x) <= pow2 64)%Q ->
  isFinite ratio = true -> (pow2 (-128) <= r <= pow2 128)%Q ->
  ((1 - delta) * r <= valueOf ratio <= (1 + delta) * r)%Q ->
  isFinite (x * ratio) = true /\
  (Qabs (valueOf (x * ratio) - valueOf x * r)
   <= 3 * delta * Qabs (valueOf x * r) + tiny)%Q.
Proof.
  intros Fx Bx Fr [Rlo Rhi] [Vlo Vhi].
  pose proof (pow2_pos (-128)) as P.
  assert (B1 : (pow2 64 <= pow2 200)%Q) by (apply pow2_le; lia).
  assert (B2 : (2 * pow2 128 <= pow2 200)%Q).
  { rewrite <- pow2_succ. apply pow2_le. lia. }
  assert (Hr : (0 < r)%Q) by lra.
  assert (Hv : (0 < valueOf ratio)%Q).
  { apply Qlt_le_trans with (2 := Vlo). apply Qmult_lt_0_compat; [reflexivity|exact Hr]. }
  assert (D : (0 < delta)%Q) by reflexivity.
  assert (D1 : (delta <= 1)%Q) by (unfold delta; discriminate).
  destruct (mul_near x ratio Fx Fr) as [F N]; [lra| |].
  { rewrite Qabs_pos by lra.
    assert ((1 + delta) * r <= 2 * pow2 128)%Q by nra. lra. }
  split; [exact F|].
  set (a := valueOf x) in *. set (v := valueOf ratio) in *.
  set (z := valueOf (x * ratio)) in *.
  rewrite Qabs_Qmult in N |- *. rewrite (Qabs_pos v) in N by lra.
  rewrite (Qabs_pos r) by lra.
  pose proof (Qabs_nonneg a) as A0.
  set (m := Qabs a) in *.
  apply Qabs_Qle_condition in N. unfold eps in N. unfold delta in *.
  apply Qabs_Qle_condition.
  destruct (Qlt_le_dec a 0) as [Neg|Pos].
  - assert (Em : (m == - a)%Q) by (unfold m; apply Qabs_neg; lra).
    split; nra.
  - assert (Em : (m == a)%Q) by (unfold m; apply Qabs_pos; lra).
    split; nra.
Qed.

Lemma quotient_near (x ratio : number) (r : Q) :
  isFinite x = true -> (Qabs (valueOf x) <= pow2 64)%Q ->
  isFinite ratio = true -> (pow2 (-128) <= r <= pow2 128)%Q ->
  ((1 - delta) * r <= valueOf ratio <= (1 + delta) * r)%Q ->
  isFinite (x / ratio) = true /\
  (Qabs (valueOf (x / ratio) - valueOf x / r)
   <= 3 * delta * Qabs (valueOf x / r) + tiny)%Q.
Proof.
  intros Fx Bx Fr [Rlo Rhi] [Vlo Vhi].
  pose proof (pow2_pos (-128)) as P.
  assert (B1 : (pow2 64 <= pow2 200)%Q) by (apply pow2_le; lia).
  assert (B2 : (pow2 (-200) <= pow2 (-129))%Q) by (apply pow2_le; lia).
  assert (B3 : (pow2 (-128) == 2 * pow2 (-129))%Q).
  { rewrite <- pow2_succ. reflexivity. }
  assert (Hr : (0 < r)%Q) by lra.
  assert (D : (0 < delta)%Q) by reflexivity.
  assert (D1 : (delta <= 1 # 2)%Q) by (unfold delta; discriminate).
  assert (Hv : (pow2 (-129) <= valueOf ratio)%Q) by nra.
  pose proof (pow2_pos (-129)) as P'.
  destruct (div_near x ratio Fx Fr) as [F N]; [lra| |].
  { rewrite Qabs_pos by lra. lra. }
  split; [exact F|].
  set (a := valueOf x) in *. set (v := valueOf ratio) in *.
  set (z := valueOf (x / ratio)) in *.
  assert (Ev : forall c : Q, (0 < c)%Q -> (Qabs (a / c) == Qabs a / c)%Q).
  { intros c Hc. unfold Qdiv. rewrite Qabs_Qmult.
    rewrite (Qabs_pos (/ c)); [reflexivity|].
    apply Qlt_le_weak, Qinv_lt_0_compat, Hc. }
  rewrite (Ev v) in N by lra. rewrite (Ev r) by lra.
  pose proof (Qabs_nonneg a) as A0.
  set (m := Qabs a) in *.
  set (U := (m / v)%Q) in *. set (T := (m / r)%Q).
  assert (EU : (U * v == m)%Q) by (unfold U; field; lra).
  assert (ET : (T * r == m)%Q) by (unfold T; field; lra).
  assert (U0 : (0 <= U)%Q).
  { unfold U. apply Qle_shift_div_l; lra. }
  assert (T0 : (0 <= T)%Q).
  { unfold T. apply Qle_shift_div_l; lra. }
  assert (F1 : (U * (1 - delta) <= T)%Q).
  { apply Qmult_le_r with r; [exact Hr|]. nra. }
  assert (F2 : (T <= U * (1 + delta))%Q).
  { apply Qmult_le_r with r; [exact Hr|]. nra. }
  apply Qabs_Qle_condition in N. unfold eps in N. unfold delta in *.
  apply Qabs_Qle_condition.
  destruct (Qlt_le_dec a 0) as [Neg|Pos].
  - assert (Em : (m == - a)%Q) by (unfold m; apply Qabs_neg; lra).
    assert (E1 : (a / v == - U)%Q) by (unfold U; rewrite Em; field; lra).
    assert (E2 : (a / r == - T)%Q) by (unfold T; rewrite Em; field; lra).
    rewrite E1 in N. rewrite E2. split; lra.
  - assert (Em : (m == a)%Q) by (unfold m; apply Qabs_pos; lra).
    assert (E1 : (a / v == U)%Q) by (unfold U; rewrite Em; reflexivity).
    assert (E2 : (a / r == T)%Q) by (unfold T; rewrite Em; reflexivity).
    rewrite E1 in N. rewrite E2. split; lra.
Qed.

Lemma tiny_le_slack : (tiny <= slack)%Q.
Proof.
  unfold tiny. apply Qle_trans with (pow2 (-46)); [apply pow2_le; lia|].
  unfold slack. discriminate.
Qed.

(** A dimension [x] of the target, rounded, against its exact value [t]. *)
Lemma rounded_near (x : number) (t : Q) :
  isFinite x = true ->
  (Qabs (valueOf x - t) <= 3 * delta * Qabs t + tiny)%Q ->
  isFinite (Math_round x) = true /\
  (Qabs (valueOf (Math_round x) - t) <= (1 # 2) + slack * (1 + Qabs t))%Q.
Proof.
  intros F H. split; [apply (Math_round_value x F)|].
  pose proof (Math_round_near x F) as N.
  pose proof tiny_le_slack as T. pose proof (Qabs_nonneg t) as T0.
  apply Qabs_Qle_condition in N. apply Qabs_Qle_condition in H.
  unfold delta in H. unfold slack in *.
  apply Qabs_Qle_condition. split; lra.
Qed.

Lemma rounded_exact (x : number) :
  isFinite x = true ->
  isFinite (Math_round x) = true /\
  (Qabs (valueOf (Math_round x) - valueOf x)
   <= (1 # 2) + slack * (1 + Qabs (valueOf x)))%Q.
Proof.
  intros F. apply rounded_near; [exact F|].
  setoid_replace (valueOf x - valueOf x)%Q with 0%Q by ring.
  pose proof tiny_pos. pose proof (Qabs_nonneg (valueOf x)).
  change (Qabs 0) with 0%Q. unfold delta. lra.
Qed.

Section Aspect.
Variables svgWidth svgHeight : number.
Hypothesis Hw : within (pow2 (-64)) (pow2 64) svgWidth.
Hypothesis Hh : within (pow2 (-64)) (pow2 64) svgHeight.

Lemma fitted_to_width (x : number) :
  within (- pow2 64) (pow2 64) x ->
  keepsAspect svgWidth svgHeight (x, (x / (svgWidth / svgHeight))%float).
Proof.
  intros [Fx [Lx Ux]].
  destruct (aspect_near svgWidth svgHeight Hw Hh) as (Fr & R & V).
  destruct Hw as [_ [Lw _]], Hh as [_ [Lh _]].
  pose proof (pow2_pos (-64)) as P.
  assert (Bx : (Qabs (valueOf x) <= pow2 64)%Q) by (apply Qabs_Qle_condition; lra).
  destruct (quotient_near x (svgWidth / svgHeight) _ Fx Bx Fr R V) as [Fq Nq].
  cbn [fst snd]. split; [exact Fx|]. split; [exact Fq|].
  exists (valueOf x), (valueOf x / (valueOf svgWidth / valueOf svgHeight))%Q.
  split; [field; lra|].
  destruct (rounded_exact x Fx) as [F1 N1].
  destruct (rounded_near _ _ Fq Nq) as [F2 N2].
  repeat split; assumption.
Qed.

Lemma fitted_to_height (x : number) :
  within (- pow2 64) (pow2 64) x ->
  keepsAspect svgWidth svgHeight ((x * (svgWidth / svgHeight))%float, x).
Proof.
  intros [Fx [Lx Ux]].
  destruct (aspect_near svgWidth svgHeight Hw Hh) as (Fr & R & V).
  destruct Hw as [_ [Lw _]], Hh as [_ [Lh _]].
  pose proof (pow2_pos (-64)) as P.
  assert (Bx : (Qabs (valueOf x) <= pow2 64)%Q) by (apply Qabs_Qle_condition; lra).
  destruct (product_near x (svgWidth / svgHeight) _ Fx Bx Fr R V) as [Fq Nq].
  cbn [fst snd]. split; [exact Fq|]. split; [exact Fx|].
  exists (valueOf x * (valueOf svgWidth / valueOf svgHeight))%Q, (valueOf x).
  split; [field; lra|].
  destruct (rounded_exact x Fx) as [F1 N1].
  destruct (rounded_near _ _ Fq Nq) as [F2 N2].
  repeat split; assumption.
Qed.

End Aspect.

Lemma within_144 : within (- pow2 64) (pow2 64) 144%float.
Proof.
  split; [reflexivity|].
  assert (E : (valueOf 144 == 144)%Q) by reflexivity. rewrite E.
  assert (P : (pow2 64 == 18446744073709551616)%Q) by reflexivity.
  rewrite P. split; discriminate.
Qed.

Lemma at_least_144 (x : number) :
  isFinite x = true -> (x <? 144)%float = false ->
  (144 <= valueOf (Math_round x))%Q.
Proof.
  intros F H. apply (ltb_false_value x 144 F eq_refl) in H.
  assert (E : (valueOf 144 == 144)%Q) by reflexivity. rewrite E in H.
  apply (Math_round_floor x 144 F). exact H.
Qed.

(** The printable extent of a page between two margins. *)
Lemma available_within (page near far : number) :
  within 0 (pow2 62) page -> within 0 (pow2 62) near -> within 0 (pow2 62) far ->
  within (- pow2 64) (pow2 64) (page - near - far)%float.
Proof.
  intros [Fp [Lp Up]] [Fn [Ln Un]] [Ff [Lf Uf]].
  assert (P62 : (pow2 62 == 4611686018427387904)%Q) by reflexivity.
  assert (P64 : (pow2 64 == 18446744073709551616)%Q) by reflexivity.
  assert (P200 : (pow2 64 <= pow2 200)%Q) by (apply pow2_le; lia).
  pose proof tiny_le_slack as T. pose proof tiny_pos as T0. unfold slack in T.
  destruct (sub_near page near Fp Fn) as [F1 N1].
  { rewrite Qabs_pos by exact Lp. lra. }
  { rewrite Qabs_pos by exact Ln. lra. }
  assert (A1 : (Qabs (valueOf page - valueOf near) <= 4611686018427387904)%Q)
    by (apply Qabs_Qle_condition; split; lra).
  pose proof (Qabs_nonneg (valueOf page - valueOf near)) as A1'.
  apply Qabs_Qle_condition in N1. unfold eps in N1.
  set (d := valueOf (page - near)) in *.
  assert (B1 : (- (9223372036854775808) <= d <= 9223372036854775808)%Q)
    by (split; lra).
  destruct (sub_near (page - near) far F1 Ff) as [F2 N2].
  { fold d. apply Qabs_Qle_condition. split; lra. }
  { rewrite Qabs_pos by exact Lf. lra. }
  fold d in N2.
  assert (A2 : (Qabs (d - valueOf far) <= 13835058055282163712)%Q)
    by (apply Qabs_Qle_condition; split; lra).
  pose proof (Qabs_nonneg (d - valueOf far)) as A2'.
  apply Qabs_Qle_condition in N2. unfold eps in N2.
  split; [exact F2|]. split; lra.
Qed.

(** C5 (as amended): for a diagram whose width and height are between
    [2 ^ -64] and [2 ^ 64] and a page whose width, height and margins are
    between 0 and [2 ^ 62], the planner returns two finite doubles that are
    the roundings to an integer of a target: each is within one half, plus
    the error of the double arithmetic (at most [(1 + |t|) / 2 ^ 46] for an
    exact value [t]), of a width and a height whose ratio is exactly
    [svgWidth / svgHeight]; so the ratio of the returned pair is the aspect
    ratio up to that rounding, not up to 1e-6.  At least one of the two
    returned dimensions is at least 144. *)
Theorem planner_keeps_aspect_up_to_rounding
  (svgWidth svgHeight pageWidth pageHeight
   marginLeft marginRight marginTop marginBottom : number) :
  let size := WordInserter.calculateOptimalDiagramSize svgWidth svgHeight
                pageWidth pageHeight marginLeft marginRight marginTop marginBottom in
  within (pow2 (-64)) (pow2 64) svgWidth ->
  within (pow2 (-64)) (pow2 64) svgHeight ->
  within 0 (pow2 62) pageWidth -> within 0 (pow2 62) pageHeight ->
  within 0 (pow2 62) marginLeft -> within 0 (pow2 62) marginRight ->
  within 0 (pow2 62) marginTop -> within 0 (pow2 62) marginBottom ->
  isFinite (WordInserter.width size) = true /\
  isFinite (WordInserter.height size) = true /\
  (exists targetWidth targetHeight : Q,
     (targetWidth * valueOf svgHeight == targetHeight * valueOf svgWidth)%Q /\
     (Qabs (valueOf (WordInserter.width size) - targetWidth)
      <= (1 # 2) + slack * (1 + Qabs targetWidth))%Q /\
     (Qabs (valueOf (WordInserter.height size) - targetHeight)
      <= (1 # 2) + slack * (1 + Qabs targetHeight))%Q) /\
  ((144 <= valueOf (WordInserter.width size))%Q \/
   (144 <= valueOf (WordInserter.height size))%Q).
Proof.
  intros size Hw Hh Hpw Hph Hml Hmr Hmt Hmb.
  pose proof (available_within pageWidth marginLeft marginRight Hpw Hml Hmr) as Haw.
  pose proof (available_within pageHeight marginTop marginBottom Hph Hmt Hmb) as Hah.
  set (aw := (pageWidth - marginLeft - marginRight)%float) in *.
  set (ah := (pageHeight - marginTop - marginBottom)%float) in *.
  set (target := WordInserter.targetSize svgWidth svgHeight pageWidth pageHeight
                   marginLeft marginRight marginTop marginBottom).
  assert (K : keepsAspect svgWidth svgHeight target /\
              ((144 <= valueOf (Math_round (fst target)))%Q \/
               (144 <= valueOf (Math_round (snd target)))%Q)).
  { unfold target, WordInserter.targetSize. cbv zeta. fold aw ah.
    set (ratio := (svgWidth / svgHeight)%float).
    set (fitted := if (aw / ah <? ratio)%float
                   then (aw, (aw / ratio)%float)
                   else ((ah * ratio)%float, ah)).
    assert (Kf : keepsAspect svgWidth svgHeight fitted).
    { unfold fitted. destruct (aw / ah <? ratio)%float.
      - now apply fitted_to_width.
      - now apply fitted_to_height. }
    destruct ((fst fitted <? 144)%float && (snd fitted <? 144)%float) eqn:Small.
    - destruct (1 <? ratio)%float.
      + split; [apply fitted_to_width; [assumption|assumption|apply within_144]|].
        left. cbn [fst]. now vm_compute.
      + split; [apply fitted_to_height; [assumption|assumption|apply within_144]|].
        right. cbn [snd]. now vm_compute.
    - split; [exact Kf|].
      destruct Kf as (F1 & F2 & _).
      apply andb_false_iff in Small. destruct Small as [S|S].
      + left. now apply at_least_144.
      + right. now apply at_least_144. }
  destruct K as [(F1 & F2 & tw & th & E & R1 & R2 & N1 & N2) M].
  split; [exact R1|]. split; [exact R2|].
  split; [|exact M]. exists tw, th. repeat split; assumption.
Qed.

Lemma planner_keeps_aspect_up_to_rounding_witness :
  within (pow2 (-64)) (pow2 64) 1000%float /\
  within (pow2 (-64)) (pow2 64) 700%float /\
  within 0 (pow2 62) 612%float /\ within 0 (pow2 62) 792%float /\
  within 0 (pow2 62) 72%float /\
  let size := WordInserter.calculateOptimalDiagramSize 1000 700 612 792 72 72 72 72 in
  isFinite (WordInserter.width size) = true /\
  isFinite (WordInserter.height size) = true /\
  (exists targetWidth targetHeight : Q,
     (targetWidth * valueOf 700 == targetHeight * valueOf 1000)%Q /\
     (Qabs (valueOf (WordInserter.width size) - targetWidth)
      <= (1 # 2) + slack * (1 + Qabs targetWidth))%Q /\
     (Qabs (valueOf (WordInserter.height size) - targetHeight)
      <= (1 # 2) + slack * (1 + Qabs targetHeight))%Q) /\
  ((144 <= valueOf (WordInserter.width size))%Q \/
   (144 <= valueOf (WordInserter.height size))%Q).
Proof.
  assert (H1 : within (pow2 (-64)) (pow2 64) 1000%float)
    by (split; [reflexivity|split; vm_compute; discriminate]).
  assert (H2 : within (pow2 (-64)) (pow2 64) 700%float)
    by (split; [reflexivity|split; vm_compute; discriminate]).
  assert (H3 : within 0 (pow2 62) 612%float)
    by (split; [reflexivity|split; vm_compute; discriminate]).
  assert (H4 : within 0 (pow2 62) 792%float)
    by (split; [reflexivity|split; vm_compute; discriminate]).
  assert (H5 : within 0 (pow2 62) 72%float)
    by (split; [reflexivity|split; vm_compute; discriminate]).
  refine (conj H1 (conj H2 (conj H3 (conj H4 (conj H5 _))))).
  exact (planner_keeps_aspect_up_to_rounding 1000 700 612 792 72 72 72 72
           H1 H2 H3 H4 H5 H5 H5 H5).
Defined.

(** C5 fails as stated: on a Letter page with one-inch margins a diagram of
    800 by 100 is given 468 by 59, and 468 / 59 is further from 8 than one
    millionth of 8. *)
Lemma planner_ratio_counterexample :
  let size := WordInserter.calculateOptimalDiagramSize 800 100 612 792 72 72 72 72 in
  WordInserter.width size = 468%float /\ WordInserter.height size = 59%float /\
  ~ (Qabs (valueOf (WordInserter.width size) / valueOf (WordInserter.height size)
           - valueOf 800 / valueOf 100)
     <= (1 # 1000000) * (valueOf 800 / valueOf 100))%Q.
Proof.
  cbv zeta. split; [vm_compute; reflexivity|]. split; [vm_compute; reflexivity|].
  vm_compute. intros H. apply H. reflexivity.
Qed.

(** Where the arithmetic of doubles shows: a diagram of 23 by 144 is given
    103 by 648, where exact arithmetic would give 104. *)
Example planner_of_23_by_144 :
  WordInserter.calculateOptimalDiagramSize 23 144 612 792 72 72 72 72
  = {| WordInserter.width := 103; WordInserter.height := 648 |}.
Proof. vm_compute. reflexivity. Qed.

(** Why the sizes have to be ordinary: the aspect ratio of a diagram of
    [2 ^ 600] by [2 ^ -600] overflows to [Infinity], and the plan is 468 by
    0. *)
Example planner_of_extreme_ratio :
  WordInserter.calculateOptimalDiagramSize 0x1p+600 0x1p-600 612 792 72 72 72 72
  = {| WordInserter.width := 468; WordInserter.height := 0 |}.
Proof. vm_compute. reflexivity. Qed.

(** ** C6: the fixed-DPI rasteriser *)

(** The pixels of a whole number of points: for a target of [n] points,
    [n] up to [2 ^ 32], the double product with the double [300 / 72]
    rounds to the integer nearest to [n * 300 / 72], the one above of two
    that are equally near. *)
Lemma raster_of_whole_points (T : number) (n : Z) :
  isFinite T = true -> (valueOf T == inject_Z n)%Q -> (0 <= n <= 2 ^ 32)%Z ->
  isFinite (Math_round (T * (300 / 72))) = true /\
  (valueOf (Math_round (T * (300 / 72)))
   == inject_Z (Qfloor (inject_Z n * (300 # 72) + (1 # 2))))%Q.
Proof.
  intros FT ET [Hn0 Hn1].
  set (c := (300 / 72)%float).
  assert (Fc : isFinite c = true) by reflexivity.
  assert (Vc : (valueOf c == 4691249611844267 # 1125899906842624)%Q)
    by (vm_compute; reflexivity).
  assert (N0 : (0 <= inject_Z n)%Q) by (now rewrite <- (Zle_Qle 0)).
  assert (N1 : (inject_Z n <= 4294967296)%Q)
    by (change 4294967296%Q with (inject_Z (2 ^ 32)); now rewrite <- Zle_Qle).
  assert (P200 : (4294967296 <= pow2 200)%Q).
  { change 4294967296%Q with (inject_Z (2 ^ 32)). rewrite pow2_Z by lia.
    apply pow2_le. lia. }
  assert (P51 : (pow2 51 == 2251799813685248)%Q) by reflexivity.
  pose proof tiny_pos as T0.
  assert (T1 : (tiny <= 1 # 1000000)%Q).
  { unfold tiny. apply Qle_trans with (pow2 (-20)); [apply pow2_le; lia|].
    discriminate. }
  destruct (mul_near T c FT Fc) as [Fp Np].
  { rewrite ET, Qabs_pos by exact N0. lra. }
  { rewrite Vc. apply Qle_trans with 4294967296%Q; [discriminate|exact P200]. }
  rewrite ET, Vc in Np.
  assert (Hv0 : (0 <= inject_Z n * (4691249611844267 # 1125899906842624))%Q)
    by (apply Qmult_le_0_compat; [exact N0|discriminate]).
  rewrite (Qabs_pos _ Hv0) in Np. apply Qabs_Qle_condition in Np.
  unfold eps in Np.
  destruct (Math_round_value _ Fp) as [Fr Er]. split; [exact Fr|].
  rewrite Er. apply inject_Z_injective.
  set (x := (inject_Z n * (300 # 72))%Q).
  set (k := Qfloor (x + (1 # 2))).
  pose proof (Qfloor_le (x + (1 # 2))) as L. fold k in L.
  pose proof (Qlt_floor (x + (1 # 2))) as U. fold k in U.
  rewrite inject_Z_plus in U. change (inject_Z 1) with 1%Q in U.
  (* the same in whole numbers: [6 k <= 25 n + 3 <= 6 k + 5] *)
  assert (ZL : (6 * k <= 25 * n + 3)%Z).
  { rewrite Zle_Qle, inject_Z_plus, !inject_Z_mult.
    change (inject_Z 6) with 6%Q. change (inject_Z 25) with 25%Q.
    change (inject_Z 3) with 3%Q. unfold x in L. lra. }
  assert (ZU : (25 * n + 3 <= 6 * k + 5)%Z).
  { assert (S : (25 * n + 3 < 6 * k + 6)%Z); [|lia].
    rewrite Zlt_Qlt, !inject_Z_plus, !inject_Z_mult.
    change (inject_Z 6) with 6%Q. change (inject_Z 25) with 25%Q.
    change (inject_Z 3) with 3%Q. unfold x in U. lra. }
  assert (QU : (inject_Z (25 * n + 3) <= inject_Z (6 * k + 5))%Q)
    by (now rewrite <- Zle_Qle).
  rewrite !inject_Z_plus, !inject_Z_mult in QU.
  change (inject_Z 6) with 6%Q in QU. change (inject_Z 25) with 25%Q in QU.
  change (inject_Z 3) with 3%Q in QU. change (inject_Z 5) with 5%Q in QU.
  apply Qfloor_unique.
  - (* from below *)
    destruct (Z.eq_dec (25 * n + 3) (6 * k)) as [Tie|NoTie].
    + assert (Hk : (1 <= k)%Z) by lia.
      assert (Hn : (1 <= n)%Z) by lia.
      assert (Qn : (1 <= inject_Z n)%Q) by (now rewrite <- (Zle_Qle 1)).
      assert (QT : (inject_Z (25 * n + 3) == inject_Z (6 * k))%Q) by now rewrite Tie.
      rewrite inject_Z_plus, !inject_Z_mult in QT.
      change (inject_Z 6) with 6%Q in QT. change (inject_Z 25) with 25%Q in QT.
      change (inject_Z 3) with 3%Q in QT.
      assert (EK1 : (inject_Z (k - 1) == inject_Z k - 1)%Q)
        by (unfold Z.sub; rewrite inject_Z_plus; reflexivity).
      assert (A : (inject_Z (k - 1) + (1 # 2) <= valueOf (T * c))%Q).
      { apply mul_at_least; rewrite ?ET, ?Vc, ?EK1; try lra; try lia;
          try exact Fp. }
      lra.
    + assert (S : (6 * k + 1 <= 25 * n + 3)%Z) by lia.
      rewrite Zle_Qle, !inject_Z_plus, !inject_Z_mult in S.
      change (inject_Z 6) with 6%Q in S. change (inject_Z 25) with 25%Q in S.
      change (inject_Z 3) with 3%Q in S. change (inject_Z 1) with 1%Q in S.
      lra.
  - (* from above *)
    lra.
Qed.

(** C6: for markup that the image decoder accepts and a canvas that the
    encoder accepts, [convertSvgToPngForWord] resolves with a raster of
    exactly [round(Tw * (300 / 72))] by [round(Th * (300 / 72))] pixels,
    the products and the quotient being those of double arithmetic, and
    the canvas of that size was filled with white before the image was
    drawn on it.  For a target of a whole number of points, up to
    [2 ^ 32], as the planner returns it, that number of pixels is the
    integer nearest to [T * 300 / 72] in exact arithmetic, the one above of
    two that are equally near. *)
Theorem raster_is_300_dpi_on_white {P : Platform}
  (svgString : str) (targetDisplayWidth targetDisplayHeight : number) (encoded : str) :
  let pixelWidth := Math_round (targetDisplayWidth * (300 / 72)) in
  let pixelHeight := Math_round (targetDisplayHeight * (300 / 72)) in
  imageLoads svgString = true ->
  (forall ops, whiteThenImage ops pixelWidth pixelHeight ->
     pngBase64 ops = Returned encoded) ->
  (exists ops,
     WordInserter.convertSvgToPngForWord svgString
       targetDisplayWidth targetDisplayHeight =
     (Returned {| WordInserter.base64 := encoded;
                  WordInserter.pixelWidth := pixelWidth;
                  WordInserter.pixelHeight := pixelHeight |}, ops) /\
     whiteThenImage ops pixelWidth pixelHeight) /\
  (forall w : Z,
     isFinite targetDisplayWidth = true ->
     (valueOf targetDisplayWidth == inject_Z w)%Q -> (0 <= w <= 2 ^ 32)%Z ->
     (valueOf pixelWidth == inject_Z (Qfloor (inject_Z w * (300 # 72) + (1 # 2))))%Q) /\
  (forall h : Z,
     isFinite targetDisplayHeight = true ->
     (valueOf targetDisplayHeight == inject_Z h)%Q -> (0 <= h <= 2 ^ 32)%Z ->
     (valueOf pixelHeight == inject_Z (Qfloor (inject_Z h * (300 # 72) + (1 # 2))))%Q).
Proof.
  cbv zeta. intros Hload Hencode.
  split; [|split; intros n F E B; now apply raster_of_whole_points].
  unfold WordInserter.convertSvgToPngForWord. rewrite Hload.
  set (w := Math_round (targetDisplayWidth * (300 / 72))) in *.
  set (h := Math_round (targetDisplayHeight * (300 / 72))) in *.
  assert (Hops : whiteThenImage
                   [SetSize w h; SetSmoothing (lit "high");
                    SetFillStyle (lit "white"); FillRect 0 0 w h;
                    DrawImage 0 0 w h] w h)
    by (now exists (lit "high")).
  rewrite (Hencode _ Hops). eexists. split; [reflexivity|exact Hops].
Qed.

Lemma raster_is_300_dpi_on_white_witness :
  imageLoads (Platform := Sample.platform) (lit "<svg viewBox='0 0 800 600'></svg>")
    = true /\
  (forall ops, whiteThenImage ops (Math_round (468 * (300 / 72)))
                 (Math_round (351 * (300 / 72))) ->
     pngBase64 (Platform := Sample.platform) ops = Returned (lit "iVBORw0KGgo=")) /\
  (exists ops,
     WordInserter.convertSvgToPngForWord (P := Sample.platform)
       (lit "<svg viewBox='0 0 800 600'></svg>") 468 351 =
     (Returned {| WordInserter.base64 := lit "iVBORw0KGgo=";
                  WordInserter.pixelWidth := Math_round (468 * (300 / 72));
                  WordInserter.pixelHeight := Math_round (351 * (300 / 72)) |}, ops) /\
     whiteThenImage ops (Math_round (468 * (300 / 72)))
       (Math_round (351 * (300 / 72)))) /\
  (forall w : Z,
     isFinite 468%float = true ->
     (valueOf 468 == inject_Z w)%Q -> (0 <= w <= 2 ^ 32)%Z ->
     (valueOf (Math_round (468 * (300 / 72)))
      == inject_Z (Qfloor (inject_Z w * (300 # 72) + (1 # 2))))%Q) /\
  (forall h : Z,
     isFinite 351%float = true ->
     (valueOf 351 == inject_Z h)%Q -> (0 <= h <= 2 ^ 32)%Z ->
     (valueOf (Math_round (351 * (300 / 72)))
      == inject_Z (Qfloor (inject_Z h * (300 # 72) + (1 # 2))))%Q).
Proof.
  assert (H1 : imageLoads (Platform := Sample.platform)
                 (lit "<svg viewBox='0 0 800 600'></svg>") = true) by reflexivity.
  assert (H2 : forall ops, whiteThenImage ops (Math_round (468 * (300 / 72)))
                 (Math_round (351 * (300 / 72))) ->
                 pngBase64 (Platform := Sample.platform) ops
                 = Returned (lit "iVBORw0KGgo=")) by reflexivity.
  refine (conj H1 (conj H2 _)).
  exact (raster_is_300_dpi_on_white (P := Sample.platform)
           (lit "<svg viewBox='0 0 800 600'></svg>") 468 351
           (lit "iVBORw0KGgo=") H1 H2).
Defined.

(** The pixels of the Letter-page plan of an 800 by 600 diagram. *)
Example raster_of_468_by_351 :
  Math_round (468 * (300 / 72)) = 1950%float /\
  Math_round (351 * (300 / 72)) = 1463%float.
Proof. split; vm_compute; reflexivity. Qed.

(** Off the whole numbers the double product can round another way than
    the number: for a target of the double nearest to 0.6, which is below
    0.6, the exact product is below 2.5 and the double product is 2.5. *)
Example raster_of_a_fraction :
  Math_round (0x1.3333333333333p-1 * (300 / 72)) = 3%float /\
  Qfloor (valueOf 0x1.3333333333333p-1 * (300 # 72) + (1 # 2)) = 2%Z.
Proof. split; vm_compute; reflexivity. Qed.

(** ** C7: the shape matcher *)

Lemma half_is_one_minus_half : (1 - 0.5)%float = 0.5%float.
Proof. reflexivity. Qed.

(** C7 (as amended): on two descriptors of four fields each, the matcher
    answers true exactly when the two left and the two top coordinates
    differ by at most 5 and, for the widths and for the heights, the
    smaller is at least half of the larger, every difference, quotient and
    comparison being the one of double arithmetic on the numbers that
    [parseFloat] reads ([NaN] fails each test); (10,10,100,100) matches
    (12,11,140,100) and does not match (20,10,100,100). *)
Theorem matcher_position_and_size :
  (forall (P : Platform) (info1 info2 : str)
          (left1 top1 width1 height1 left2 top2 width2 height2 : number),
     map parseFloat (splitUnit ","%char info1)
       = [left1; top1; width1; height1] ->
     map parseFloat (splitUnit ","%char info2)
       = [left2; top2; width2; height2] ->
     (Matcher.shapesApproximatelyMatch info1 info2 = true <->
      (Math_abs (left1 - left2) <=? 5)%float = true /\
      (Math_abs (top1 - top2) <=? 5)%float = true /\
      (0.5 <=? Math_min width1 width2 / Math_max width1 width2)%float = true /\
      (0.5 <=? Math_min height1 height2 / Math_max height1 height2)%float = true)) /\
  Matcher.shapesApproximatelyMatch (P := Sample.platform)
    (lit "10,10,100,100") (lit "12,11,140,100") = true /\
  Matcher.shapesApproximatelyMatch (P := Sample.platform)
    (lit "10,10,100,100") (lit "20,10,100,100") = false.
Proof.
  split; [|split; vm_compute; reflexivity].
  intros P info1 info2 l1 t1 w1 h1 l2 t2 w2 h2 H1 H2.
  unfold Matcher.shapesApproximatelyMatch. rewrite H1, H2. cbv zeta.
  unfold Matcher.sizeRatio. rewrite half_is_one_minus_half.
  destruct (Math_abs (l1 - l2) <=? 5)%float;
  destruct (Math_abs (t1 - t2) <=? 5)%float;
  destruct (0.5 <=? Math_min w1 w2 / Math_max w1 w2)%float;
  destruct (0.5 <=? Math_min h1 h2 / Math_max h1 h2)%float;
  cbn; intuition congruence.
Qed.

Lemma matcher_position_and_size_witness :
  map (parseFloat (Platform := Sample.platform)) (splitUnit ","%char (lit "10,10,100,100"))
    = [10; 10; 100; 100]%float /\
  map (parseFloat (Platform := Sample.platform)) (splitUnit ","%char (lit "12,11,140,100"))
    = [12; 11; 140; 100]%float /\
  (Matcher.shapesApproximatelyMatch (P := Sample.platform)
     (lit "10,10,100,100") (lit "12,11,140,100") = true <->
   (Math_abs (10 - 12) <=? 5)%float = true /\
   (Math_abs (10 - 11) <=? 5)%float = true /\
   (0.5 <=? Math_min 100 140 / Math_max 100 140)%float = true /\
   (0.5 <=? Math_min 100 100 / Math_max 100 100)%float = true).
Proof.
  assert (H1 : map (parseFloat (Platform := Sample.platform))
                 (splitUnit ","%char (lit "10,10,100,100"))
               = [10; 10; 100; 100]%float) by (vm_compute; reflexivity).
  assert (H2 : map (parseFloat (Platform := Sample.platform))
                 (splitUnit ","%char (lit "12,11,140,100"))
               = [12; 11; 140; 100]%float) by (vm_compute; reflexivity).
  refine (conj H1 (conj H2 _)).
  exact (proj1 matcher_position_and_size Sample.platform
           (lit "10,10,100,100") (lit "12,11,140,100")
           10%float 10%float 100%float 100%float
           12%float 11%float 140%float 100%float H1 H2).
Defined.

(** C7 fails as stated, where the differences are those of the numbers
    rather than those of double arithmetic.  The doubles read from 5.7 and
    0.7 (written below in hexadecimal) differ by more than 5, but their
    difference rounds to 5 and the descriptors match; the decimals 3.05 and
    8.05 differ by exactly 5, but the difference of the doubles read from
    them rounds to the double above 5 and the descriptors do not match. *)
Lemma matcher_difference_counterexample :
  (map (parseFloat (Platform := Sample.platform)) (splitUnit ","%char (lit "5.7,0,100,100"))
     = [0x1.6cccccccccccdp+2; 0; 100; 100]%float /\
   map (parseFloat (Platform := Sample.platform)) (splitUnit ","%char (lit "0.7,0,100,100"))
     = [0x1.6666666666666p-1; 0; 100; 100]%float /\
   Matcher.shapesApproximatelyMatch (P := Sample.platform)
     (lit "5.7,0,100,100") (lit "0.7,0,100,100") = true /\
   ~ (Qabs (valueOf 0x1.6cccccccccccdp+2 - valueOf 0x1.6666666666666p-1) <= 5)%Q) /\
  (map (parseFloat (Platform := Sample.platform)) (splitUnit ","%char (lit "3.05,0,100,100"))
     = [0x1.8666666666666p+1; 0; 100; 100]%float /\
   map (parseFloat (Platform := Sample.platform)) (splitUnit ","%char (lit "8.05,0,100,100"))
     = [0x1.019999999999ap+3; 0; 100; 100]%float /\
   Matcher.shapesApproximatelyMatch (P := Sample.platform)
     (lit "3.05,0,100,100") (lit "8.05,0,100,100") = false /\
   (Qabs ((305 # 100) - (805 # 100)) <= 5)%Q).
Proof.
  split; (split; [vm_compute; reflexivity|]); (split; [vm_compute; reflexivity|]);
    (split; [vm_compute; reflexivity|]).
  - vm_compute. intros H. apply H. reflexivity.
  - vm_compute. discriminate.
Qed.

(** ** C9: the dimension parser *)

Lemma skipSpaces_app (ws t : str) :
  whiteSpace ws -> notStarting isSpace t -> skipSpaces (ws ++ t) = t.
Proof.
  unfold whiteSpace. induction ws as [|c ws IH]; intros H N.
  - destruct t as [|c t]; [reflexivity|]. cbn in N |- *. now rewrite N.
  - cbn [forallb] in H. apply andb_true_iff in H as [Hc H].
    cbn [app skipSpaces]. rewrite Hc. now apply IH.
Qed.

Lemma skipSpaces_inv (s : str) :
  exists ws, s = ws ++ skipSpaces s /\ whiteSpace ws /\
             notStarting isSpace (skipSpaces s).
Proof.
  induction s as [|c s (ws & E & W & N)].
  - now exists [].
  - cbn [skipSpaces]. destruct (isSpace c) eqn:Hc.
    + exists (c :: ws). split; [cbn; now rewrite <- E|].
      split; [|exact N]. unfold whiteSpace. cbn [forallb]. now rewrite Hc.
    + exists []. split; [reflexivity|]. split; [reflexivity|exact Hc].
Qed.

Lemma span_app (f : ascii -> bool) (a b : str) :
  forallb f a = true -> notStarting f b -> span f (a ++ b) = (a, b).
Proof.
  induction a as [|c a IH]; intros H N.
  - destruct b as [|c b]; [reflexivity|]. cbn in N |- *. now rewrite N.
  - cbn [forallb] in H. apply andb_true_iff in H as [Hc H].
    cbn [app span]. now rewrite Hc, (IH H N).
Qed.

Lemma span_inv (f : ascii -> bool) (s : str) :
  s = fst (span f s) ++ snd (span f s) /\
  forallb f (fst (span f s)) = true /\ notStarting f (snd (span f s)).
Proof.
  induction s as [|c s (E & A & N)].
  - now cbn.
  - cbn [span]. destruct (f c) eqn:Hc.
    + destruct (span f s) as [a b]. cbn [fst snd] in *.
      split; [cbn; now rewrite <- E|]. split; [|exact N].
      cbn [forallb]. now rewrite Hc.
    + now cbn.
Qed.

Lemma quote_not_space (c : ascii) : isQuote c = true -> isSpace c = false.
Proof.
  destruct c as [[] [] [] [] [] [] [] []]; intros H; try reflexivity;
    discriminate H.
Qed.

Lemma valueUnit_inv (c : ascii) :
  WordInserter.isValueUnit c = true -> isQuote c = false /\ isSpace c = false.
Proof.
  unfold WordInserter.isValueUnit. rewrite negb_true_iff.
  intros H. apply orb_false_iff in H as [H _].
  now apply orb_false_iff in H.
Qed.

(** The expression of the [viewBox] declaration at the front of a text. *)
Lemma viewBoxHere_iff (t value : str) :
  WordInserter.viewBoxHere t = Some value <-> viewBoxAt t [] value.
Proof.
  unfold viewBoxAt. cbn [app]. split.
  - unfold WordInserter.viewBoxHere.
    destruct (startsWith (lit "viewBox") t) eqn:S; [|discriminate].
    destruct (startsWith_inv _ _ S) as [r ->]. rewrite skipn_length_app.
    destruct (skipSpaces_inv r) as (ws1 & E1 & W1 & _).
    destruct (skipSpaces r) as [|c r1]; [discriminate|].
    destruct (Ascii.eqb c "="%char) eqn:Hc; [|discriminate].
    apply Ascii.eqb_eq in Hc. subst c.
    destruct (skipSpaces_inv r1) as (ws2 & E2 & W2 & _).
    destruct (skipSpaces r1) as [|q1 r2]; [discriminate|].
    destruct (isQuote q1) eqn:Q1; [|discriminate].
    destruct (span_inv (fun u => negb (isQuote u)) r2) as (E3 & A3 & N3).
    destruct (span (fun u => negb (isQuote u)) r2) as [[|u a] [|q2 after]];
      try discriminate.
    intros [= <-]. cbn [fst snd] in *.
    exists ws1, ws2, q1, q2, after.
    split; [now rewrite E1, E2, E3|].
    cbn in N3. apply negb_false_iff in N3.
    repeat split; try assumption. discriminate.
  - intros (ws1 & ws2 & q1 & q2 & after & -> & W1 & W2 & Q1 & Q2 & Ne & A).
    unfold WordInserter.viewBoxHere.
    rewrite startsWith_app, skipn_length_app.
    rewrite (skipSpaces_app ws1) by (assumption || reflexivity).
    rewrite Ascii.eqb_refl.
    rewrite (skipSpaces_app ws2) by (assumption || now apply quote_not_space).
    rewrite Q1.
    rewrite (span_app _ value (q2 :: after) A)
      by (unfold notStarting; cbv beta; now rewrite Q2).
    destruct value; [now contradiction Ne|reflexivity].
Qed.

(** The expression of an attribute at the front of a text. *)
Lemma attributeHere_iff (name t value : str) :
  WordInserter.attributeHere name t = Some value <-> attributeAt name t [] value.
Proof.
  unfold attributeAt. cbn [app]. split.
  - unfold WordInserter.attributeHere.
    destruct (startsWith name t) eqn:S; [|discriminate].
    destruct (startsWith_inv _ _ S) as [r ->]. rewrite skipn_length_app.
    destruct (skipSpaces_inv r) as (ws1 & E1 & W1 & _).
    destruct (skipSpaces r) as [|c r1]; [discriminate|].
    destruct (Ascii.eqb c "="%char) eqn:Hc; [|discriminate].
    apply Ascii.eqb_eq in Hc. subst c.
    destruct (skipSpaces_inv r1) as (ws2 & E2 & W2 & _).
    cbv zeta.
    set (r2 := match skipSpaces r1 with
               | q :: r' => if isQuote q then r' else skipSpaces r1
               | [] => []
               end).
    assert (Eq : exists quote, skipSpaces r1 = quote ++ r2 /\
                   (quote = [] \/ exists q, quote = [q] /\ isQuote q = true)).
    { subst r2. destruct (skipSpaces r1) as [|q r'].
      - exists []. split; [reflexivity|now left].
      - destruct (isQuote q) eqn:Q.
        + exists [q]. split; [reflexivity|right; now exists q].
        + exists []. split; [reflexivity|now left]. }
    destruct Eq as (quote & E3 & Hq).
    destruct (span_inv WordInserter.isValueUnit r2) as (E4 & A4 & N4).
    destruct (fst (span WordInserter.isValueUnit r2)) as [|u a] eqn:F;
      [discriminate|].
    intros [= <-].
    exists ws1, ws2, quote, (snd (span WordInserter.isValueUnit r2)).
    split; [rewrite E1, E2, E3, E4 at 1; reflexivity|].
    repeat split; try assumption. discriminate.
  - intros (ws1 & ws2 & quote & after & -> & W1 & W2 & Hq & Ne & A & N).
    unfold WordInserter.attributeHere.
    rewrite startsWith_app, skipn_length_app.
    rewrite (skipSpaces_app ws1) by (assumption || reflexivity).
    rewrite Ascii.eqb_refl. cbv zeta.
    destruct value as [|u value]; [now contradiction Ne|].
    cbn [forallb] in A. apply andb_true_iff in A as [Hu A].
    destruct (valueUnit_inv u Hu) as [Uq Us].
    assert (S2 : skipSpaces (ws2 ++ quote ++ (u :: value) ++ after)
                 = quote ++ (u :: value) ++ after).
    { apply skipSpaces_app; [assumption|].
      destruct Hq as [->|(q & -> & Q)]; cbn [app notStarting];
        [exact Us|now apply quote_not_space]. }
    rewrite S2.
    assert (R2 : match quote ++ (u :: value) ++ after with
                 | q :: r' => if isQuote q then r'
                              else quote ++ (u :: value) ++ after
                 | [] => []
                 end = (u :: value) ++ after).
    { destruct Hq as [->|(q & -> & Q)]; cbn [app]; [now rewrite Uq|now rewrite Q]. }
    rewrite R2.
    rewrite (span_app _ (u :: value) after);
      [reflexivity| |destruct after; [exact I|exact N]].
    cbn [forallb]. now rewrite Hu, A.
Qed.

(** A search from the left finds the match that starts first. *)
Lemma matchFirst_Some_iff {A : Type} (here : str -> option A) (s : str) (r : A) :
  matchFirst here s = Some r <->
  exists before t,
    s = before ++ t /\ here t = Some r /\
    forall before' t', s = before' ++ t' -> length before' < length before ->
                       here t' = None.
Proof.
  split.
  - induction s as [|c s IH]; cbn [matchFirst].
    + destruct (here []) as [r'|] eqn:H; [|discriminate].
      intros [= ->]. exists [], []. repeat split; [assumption|].
      intros b' t' _ L. cbn in L. lia.
    + destruct (here (c :: s)) as [r'|] eqn:H.
      * intros [= ->]. exists [], (c :: s). repeat split; [assumption|].
        intros b' t' _ L. cbn in L. lia.
      * intros M. destruct (IH M) as (before & t & -> & Ht & Hmin).
        exists (c :: before), t. repeat split; [assumption|].
        intros [|c' b'] t' E L.
        -- cbn in E. now rewrite <- E.
        -- cbn in E. injection E as _ E. apply (Hmin b' t' E). cbn in L. lia.
  - intros (before & t & -> & Ht & Hmin).
    induction before as [|c before IH].
    + now apply matchFirst_here.
    + cbn [app matchFirst].
      rewrite (Hmin [] (c :: before ++ t) eq_refl) by (cbn; lia).
      apply IH. intros b' t' E L.
      apply (Hmin (c :: b') t'); [cbn; now rewrite E|cbn; lia].
Qed.

Lemma leftmost_iff {A : Type} (here : str -> option A)
  (found : str -> str -> A -> Prop) (s : str) (r : A) :
  (forall t v, here t = Some v <-> found t [] v) ->
  (forall u b v, found u b v <-> exists t, u = b ++ t /\ found t [] v) ->
  ((exists before,
      found s before r /\
      forall before' r', found s before' r' -> length before <= length before')
   <-> matchFirst here s = Some r).
Proof.
  intros Hhere Hshift. rewrite matchFirst_Some_iff. split.
  - intros (before & F & Hmin).
    apply Hshift in F. destruct F as (t & -> & F).
    exists before, t. repeat split; [now apply Hhere|].
    intros b' t' E L. destruct (here t') as [v|] eqn:H; [exfalso|reflexivity].
    apply Hhere in H.
    assert (F' : found (before ++ t) b' v) by (apply Hshift; now exists t').
    specialize (Hmin _ _ F'). lia.
  - intros (before & t & -> & H & Hmin).
    exists before. split.
    + apply Hshift. exists t. split; [reflexivity|now apply Hhere].
    + intros b' v' F'. apply Hshift in F'. destruct F' as (t' & E & F').
      apply Hhere in F'.
      destruct (Nat.le_gt_cases (length before) (length b')) as [L|L];
        [exact L|].
      rewrite (Hmin b' t' E L) in F'. discriminate.
Qed.

Lemma viewBoxAt_shift (u b v : str) :
  viewBoxAt u b v <-> exists t, u = b ++ t /\ viewBoxAt t [] v.
Proof.
  unfold viewBoxAt. cbn [app]. split.
  - intros (ws1 & ws2 & q1 & q2 & after & -> & H).
    eexists. split; [reflexivity|]. now exists ws1, ws2, q1, q2, after.
  - intros (t & -> & ws1 & ws2 & q1 & q2 & after & -> & H).
    now exists ws1, ws2, q1, q2, after.
Qed.

Lemma attributeAt_shift (name u b v : str) :
  attributeAt name u b v <-> exists t, u = b ++ t /\ attributeAt name t [] v.
Proof.
  unfold attributeAt. cbn [app]. split.
  - intros (ws1 & ws2 & quote & after & -> & H).
    eexists. split; [reflexivity|]. now exists ws1, ws2, quote, after.
  - intros (t & -> & ws1 & ws2 & quote & after & -> & H).
    now exists ws1, ws2, quote, after.
Qed.

(** [match] with the expression of the [viewBox] declaration returns the
    value of the first declaration. *)
Lemma firstViewBox_iff (svgString value : str) :
  firstViewBox svgString value <->
  matchFirst WordInserter.viewBoxHere svgString = Some value.
Proof.
  apply (leftmost_iff WordInserter.viewBoxHere viewBoxAt).
  - apply viewBoxHere_iff.
  - apply viewBoxAt_shift.
Qed.

Lemma firstAttribute_iff (name svgString value : str) :
  firstAttribute name svgString value <->
  matchFirst (WordInserter.attributeHere name) svgString = Some value.
Proof.
  apply (leftmost_iff (WordInserter.attributeHere name) (attributeAt name)).
  - apply attributeHere_iff.
  - apply attributeAt_shift.
Qed.

(** *** [split(/\s+/)] *)

Lemma splitSpacesFrom_not_nil (inRun : bool) (s : str) :
  splitSpacesFrom inRun s <> [].
Proof.
  revert inRun. induction s as [|c s IH]; intros inRun; cbn [splitSpacesFrom].
  - discriminate.
  - destruct (isSpace c).
    + destruct inRun; [apply IH|discriminate].
    + destruct (splitSpacesFrom false s); discriminate.
Qed.

Lemma splitSpacesFrom_run (t : str) :
  notStarting isSpace t -> splitSpacesFrom true t = splitSpacesFrom false t.
Proof.
  destruct t as [|c t]; [reflexivity|]. cbn [notStarting splitSpacesFrom].
  now intros ->.
Qed.

Lemma splitSpacesFrom_skip (s : str) :
  splitSpacesFrom true s = splitSpacesFrom false (skipSpaces s).
Proof.
  induction s as [|c s IH]; [reflexivity|].
  cbn [skipSpaces]. destruct (isSpace c) eqn:Hc.
  - cbn [splitSpacesFrom]. now rewrite Hc.
  - apply splitSpacesFrom_run. exact Hc.
Qed.

Lemma splitSpaces_field (f t : str) :
  unspaced f ->
  splitSpacesFrom false (f ++ t) =
  match splitSpacesFrom false t with
  | fld :: flds => (f ++ fld) :: flds
  | [] => [f]
  end.
Proof.
  unfold unspaced. induction f as [|c f IH]; intros H.
  - cbn [app]. destruct (splitSpacesFrom false t) eqn:E; [|reflexivity].
    now destruct (splitSpacesFrom_not_nil false t).
  - cbn [forallb] in H. apply andb_true_iff in H as [Hc H].
    apply negb_true_iff in Hc.
    cbn [app splitSpacesFrom]. rewrite Hc, (IH H).
    now destruct (splitSpacesFrom false t).
Qed.

Lemma splitSpaces_separator (ws t : str) :
  whiteSpace ws -> ws <> [] -> notStarting isSpace t ->
  splitSpacesFrom false (ws ++ t) = [] :: splitSpacesFrom false t.
Proof.
  intros W Ne N. destruct ws as [|c ws]; [now contradiction Ne|].
  unfold whiteSpace in W. cbn [forallb] in W. apply andb_true_iff in W as [Hc W].
  cbn [app splitSpacesFrom]. rewrite Hc. f_equal.
  rewrite splitSpacesFrom_skip. now rewrite (skipSpaces_app ws t W N).
Qed.

Lemma splitSpaces_next (f ws t : str) :
  unspaced f -> whiteSpace ws -> ws <> [] -> notStarting isSpace t ->
  splitSpacesFrom false (f ++ ws ++ t) = f :: splitSpacesFrom false t.
Proof.
  intros U W Ne N. rewrite (splitSpaces_field f _ U).
  rewrite (splitSpaces_separator ws t W Ne N). now rewrite app_nil_r.
Qed.

Lemma unspaced_notStarting (f t : str) :
  unspaced f -> f <> [] -> notStarting isSpace (f ++ t).
Proof.
  intros U Ne. destruct f as [|c f]; [now contradiction Ne|].
  unfold unspaced in U. cbn [forallb] in U. apply andb_true_iff in U as [Hc _].
  now apply negb_true_iff in Hc.
Qed.

Lemma unspaced_notStarting_end (f : str) : unspaced f -> notStarting isSpace f.
Proof.
  intros U. destruct f as [|c f]; [exact I|].
  unfold unspaced in U. cbn [forallb] in U. apply andb_true_iff in U as [Hc _].
  now apply negb_true_iff in Hc.
Qed.

Lemma splitSpaces_peel (s fld : str) (flds : list str) :
  splitSpacesFrom false s = fld :: flds ->
  unspaced fld /\
  ((flds = [] /\ s = fld) \/
   exists ws t,
     s = fld ++ ws ++ t /\ whiteSpace ws /\ ws <> [] /\
     notStarting isSpace t /\ splitSpacesFrom false t = flds).
Proof.
  revert fld flds. induction s as [|c s IH]; intros fld flds.
  - cbn. intros [= <- <-]. split; [reflexivity|now left].
  - cbn [splitSpacesFrom]. destruct (isSpace c) eqn:Hc.
    + intros [= <- <-]. split; [reflexivity|right].
      destruct (skipSpaces_inv s) as (ws & E & W & N).
      exists (c :: ws), (skipSpaces s). cbn [app].
      split; [now rewrite <- E|]. split.
      { unfold whiteSpace. cbn [forallb]. now rewrite Hc. }
      split; [discriminate|]. split; [exact N|].
      symmetry. apply splitSpacesFrom_skip.
    + destruct (splitSpacesFrom false s) as [|f' fl'] eqn:E;
        [now destruct (splitSpacesFrom_not_nil false s)|].
      intros [= <- <-].
      destruct (IH f' fl' eq_refl) as [U Cases].
      split.
      { unfold unspaced. cbn [forallb]. now rewrite Hc, U. }
      destruct Cases as [[-> ->]|(ws & t & -> & W & Ne & N & S)].
      * now left.
      * right. exists ws, t. now repeat split.
Qed.

(** The four fields of a value are the four elements of its split. *)
Lemma fourFields_iff (value x y w h : str) :
  fourFields value x y w h <-> splitSpaces value = [x; y; w; h].
Proof.
  unfold fourFields, splitSpaces. split.
  - intros (ws1 & ws2 & ws3 & -> & W1 & N1 & W2 & N2 & W3 & N3
            & Ux & Uy & Ny & Uw & Nw & Uh).
    rewrite (splitSpaces_next x ws1 _ Ux W1 N1)
      by now apply unspaced_notStarting.
    rewrite (splitSpaces_next y ws2 _ Uy W2 N2)
      by now apply unspaced_notStarting.
    rewrite (splitSpaces_next w ws3 _ Uw W3 N3)
      by now apply unspaced_notStarting_end.
    rewrite <- (app_nil_r h) at 1. rewrite (splitSpaces_field h [] Uh).
    cbn. now rewrite app_nil_r.
  - intros S.
    destruct (splitSpaces_peel _ _ _ S) as [Ux [[D _]|(ws1 & t1 & -> & W1 & N1 & T1 & S1)]];
      [discriminate D|].
    destruct (splitSpaces_peel _ _ _ S1) as [Uy [[D _]|(ws2 & t2 & -> & W2 & N2 & T2 & S2)]];
      [discriminate D|].
    destruct (splitSpaces_peel _ _ _ S2) as [Uw [[D _]|(ws3 & t3 & -> & W3 & N3 & T3 & S3)]];
      [discriminate D|].
    destruct (splitSpaces_peel _ _ _ S3) as [Uh [[_ ->]|(ws4 & t4 & _ & _ & _ & _ & S4)]];
      [|now destruct (splitSpacesFrom_not_nil false t4)].
    exists ws1, ws2, ws3. repeat split; try assumption.
    + intros ->. cbn [app] in T1. destruct ws2 as [|c ws2]; [now contradiction N2|].
      unfold whiteSpace in W2. cbn in W2, T1. rewrite T1 in W2. discriminate.
    + intros ->. cbn [app] in T2. destruct ws3 as [|c ws3]; [now contradiction N3|].
      unfold whiteSpace in W3. cbn in W3, T2. rewrite T2 in W3. discriminate.
Qed.

(** *** The parser against the dimensions of the markup *)

Lemma ltb_NaN_r (a b : number) : isNaN b = true -> (a <? b)%float = false.
Proof.
  unfold isNaN, PrimFloat.is_nan. rewrite eqb_spec, ltb_spec.
  unfold SFeqb, SFltb.
  destruct (Prim2SF b) as [s|s| |s m e]; cbn [SFcompare].
  - discriminate.
  - now destruct s.
  - intros _. now destruct (Prim2SF a).
  - rewrite Z.compare_refl, Pcompare_refl. now destruct s.
Qed.

Lemma aboveZero_not_NaN (x : number) : aboveZero x -> isNaN x = false.
Proof.
  unfold aboveZero. intros H. destruct (isNaN x) eqn:N; [|reflexivity].
  now rewrite (ltb_NaN_r 0 x N) in H.
Qed.

Lemma readable_iff (w h : number) :
  negb (isNaN w) && negb (isNaN h) && (0 <? w)%float && (0 <? h)%float = true
  <-> aboveZero w /\ aboveZero h.
Proof.
  unfold aboveZero. split.
  - intros H. apply andb_true_iff in H as [H Hh].
    apply andb_true_iff in H as [_ Hw]. now split.
  - intros [Hw Hh].
    rewrite (aboveZero_not_NaN w Hw), (aboveZero_not_NaN h Hh), Hw, Hh. reflexivity.
Qed.

Section Parser.
Context {P : Platform}.

Lemma viewBoxSize_iff (svgString : str) (size : WordInserter.Size) :
  viewBoxSize svgString size <->
  exists value x y w h : str,
    matchFirst WordInserter.viewBoxHere svgString = Some value /\
    splitSpaces value = [x; y; w; h] /\
    aboveZero (parseFloat w) /\ aboveZero (parseFloat h) /\
    size = {| WordInserter.width := parseFloat w;
              WordInserter.height := parseFloat h |}.
Proof.
  unfold viewBoxSize. split;
    intros (value & x & y & w & h & F & S & H);
    exists value, x, y, w, h;
    (split; [now apply firstViewBox_iff|]);
    (split; [now apply fourFields_iff|exact H]).
Qed.

Lemma attributesSize_iff (svgString : str) (size : WordInserter.Size) :
  attributesSize svgString size <->
  exists w h : str,
    matchFirst (WordInserter.attributeHere (lit "width")) svgString = Some w /\
    matchFirst (WordInserter.attributeHere (lit "height")) svgString = Some h /\
    aboveZero (parseFloat w) /\ aboveZero (parseFloat h) /\
    size = {| WordInserter.width := parseFloat w;
              WordInserter.height := parseFloat h |}.
Proof.
  unfold attributesSize. split;
    intros (w & h & Fw & Fh & H); exists w, h;
    (split; [now apply firstAttribute_iff|]);
    (split; [now apply firstAttribute_iff|exact H]).
Qed.

Lemma viewBox_attempt (svgString : str) :
  match
    match matchFirst WordInserter.viewBoxHere svgString with
    | Some captured =>
        match splitSpaces captured with
        | [_; _; w; h] =>
            if negb (isNaN (parseFloat w)) && negb (isNaN (parseFloat h)) &&
               (0 <? parseFloat w)%float && (0 <? parseFloat h)%float
            then Some {| WordInserter.width := parseFloat w;
                         WordInserter.height := parseFloat h |}
            else None
        | _ => None
        end
    | None => None
    end
  with
  | Some size => viewBoxSize svgString size
  | None => forall other, ~ viewBoxSize svgString other
  end.
Proof.
  destruct (matchFirst WordInserter.viewBoxHere svgString) as [value|] eqn:M.
  - destruct (splitSpaces value) as [|x [|y [|w [|h [|? ?]]]]] eqn:S;
      try (intros other V; apply viewBoxSize_iff in V;
           destruct V as (v' & x' & y' & w' & h' & M' & S' & _);
           rewrite M in M'; injection M' as <-; rewrite S in S';
           discriminate S').
    destruct (negb _ && negb _ && _ && _) eqn:C.
    + apply readable_iff in C. destruct C as [Pw Ph].
      apply viewBoxSize_iff. now exists value, x, y, w, h.
    + intros other V. apply viewBoxSize_iff in V.
      destruct V as (v' & x' & y' & w' & h' & M' & S' & Pw & Ph & _).
      rewrite M in M'. injection M' as <-. rewrite S in S'.
      injection S' as <- <- <- <-.
      assert (C' : negb (isNaN (parseFloat w)) && negb (isNaN (parseFloat h)) &&
                   (0 <? parseFloat w)%float && (0 <? parseFloat h)%float = true)
        by now apply readable_iff.
      rewrite C' in C. discriminate.
  - intros other V. apply viewBoxSize_iff in V.
    destruct V as (v' & x' & y' & w' & h' & M' & _).
    rewrite M in M'. discriminate.
Qed.

Lemma attributes_attempt (svgString : str) :
  match
    match matchFirst (WordInserter.attributeHere (lit "width")) svgString,
          matchFirst (WordInserter.attributeHere (lit "height")) svgString with
    | Some w, Some h =>
        if negb (isNaN (parseFloat w)) && negb (isNaN (parseFloat h)) &&
           (0 <? parseFloat w)%float && (0 <? parseFloat h)%float
        then Some {| WordInserter.width := parseFloat w;
                     WordInserter.height := parseFloat h |}
        else None
    | _, _ => None
    end
  with
  | Some size => attributesSize svgString size
  | None => forall other, ~ attributesSize svgString other
  end.
Proof.
  destruct (matchFirst (WordInserter.attributeHere (lit "width")) svgString)
    as [w|] eqn:Mw;
  destruct (matchFirst (WordInserter.attributeHere (lit "height")) svgString)
    as [h|] eqn:Mh;
    try (intros other V; apply attributesSize_iff in V;
         destruct V as (w' & h' & Mw' & Mh' & _);
         rewrite ?Mw in Mw'; rewrite ?Mh in Mh'; discriminate).
  destruct (negb _ && negb _ && _ && _) eqn:C.
  - apply readable_iff in C. destruct C as [Pw Ph].
    apply attributesSize_iff. now exists w, h.
  - intros other V. apply attributesSize_iff in V.
    destruct V as (w' & h' & Mw' & Mh' & Pw & Ph & _).
    rewrite Mw in Mw'. rewrite Mh in Mh'.
    injection Mw' as <-. injection Mh' as <-.
    assert (C' : negb (isNaN (parseFloat w)) && negb (isNaN (parseFloat h)) &&
                 (0 <? parseFloat w)%float && (0 <? parseFloat h)%float = true)
      by now apply readable_iff.
    rewrite C' in C. discriminate.
Qed.

Lemma viewBoxSize_functional (svgString : str) (a b : WordInserter.Size) :
  viewBoxSize svgString a -> viewBoxSize svgString b -> a = b.
Proof.
  intros A B. apply viewBoxSize_iff in A. apply viewBoxSize_iff in B.
  destruct A as (v & x & y & w & h & M & S & _ & _ & ->).
  destruct B as (v' & x' & y' & w' & h' & M' & S' & _ & _ & ->).
  rewrite M in M'. injection M' as <-. rewrite S in S'.
  now injection S' as <- <- <- <-.
Qed.

Lemma attributesSize_functional (svgString : str) (a b : WordInserter.Size) :
  attributesSize svgString a -> attributesSize svgString b -> a = b.
Proof.
  intros A B. apply attributesSize_iff in A. apply attributesSize_iff in B.
  destruct A as (w & h & Mw & Mh & _ & _ & ->).
  destruct B as (w' & h' & Mw' & Mh' & _ & _ & ->).
  rewrite Mw in Mw'. rewrite Mh in Mh'.
  injection Mw' as <-. now injection Mh' as <-.
Qed.

Lemma dimensionsOf_functional (svgString : str) (a b : WordInserter.Size) :
  dimensionsOf svgString a -> dimensionsOf svgString b -> a = b.
Proof.
  unfold dimensionsOf.
  intros [A|[NA [A|[NA' ->]]]] [B|[NB [B|[NB' ->]]]];
    try reflexivity;
    try (now apply (viewBoxSize_functional svgString));
    try (now apply (attributesSize_functional svgString));
    try (now destruct (NA _ B)); try (now destruct (NB _ A));
    try (now destruct (NA' _ B)); try (now destruct (NB' _ A)).
Qed.

Lemma tryParseSvgViewBox_dimensions (svgString : str) :
  exists size,
    WordInserter.tryParseSvgViewBox svgString = Returned size /\
    dimensionsOf svgString size.
Proof.
  unfold WordInserter.tryParseSvgViewBox, dimensionsOf. cbv zeta.
  pose proof (viewBox_attempt svgString) as V.
  pose proof (attributes_attempt svgString) as A.
  destruct (match matchFirst WordInserter.viewBoxHere svgString with
            | Some captured => _
            | None => None
            end) as [size|].
  - exists size. split; [reflexivity|now left].
  - destruct (matchFirst (WordInserter.attributeHere (lit "width")) svgString)
      as [w|];
    destruct (matchFirst (WordInserter.attributeHere (lit "height")) svgString)
      as [h|];
      try (exists WordInserter.unknownSize; split; [reflexivity|];
           right; split; [exact V|]; right; now split).
    destruct (negb _ && negb _ && _ && _).
    + eexists. split; [reflexivity|]. right. split; [exact V|]. now left.
    + exists WordInserter.unknownSize. split; [reflexivity|].
      right. split; [exact V|]. right. now split.
Qed.

(** C9: [parseSvgViewBox] returns on every string and its [try] block never
    throws.  What it returns is the dimensions of the markup, and nothing
    else is: the size of the first [viewBox] declaration when that
    declaration has four fields of which the last two read as numbers above
    zero; failing that, the size of the first [width] and the first
    [height] attribute when both read as numbers above zero; failing that
    too, the size 0 by 0.  It is therefore either 0 by 0 or a pair of
    numbers above zero. *)
Theorem parseSvgViewBox_never_throws (svgString : str) :
  (exists size, WordInserter.tryParseSvgViewBox svgString = Returned size /\
                WordInserter.parseSvgViewBox svgString = size) /\
  dimensionsOf svgString (WordInserter.parseSvgViewBox svgString) /\
  (forall size, dimensionsOf svgString size ->
                WordInserter.parseSvgViewBox svgString = size) /\
  (WordInserter.parseSvgViewBox svgString = WordInserter.unknownSize \/
   aboveZero (WordInserter.width (WordInserter.parseSvgViewBox svgString)) /\
   aboveZero (WordInserter.height (WordInserter.parseSvgViewBox svgString))).
Proof.
  destruct (tryParseSvgViewBox_dimensions svgString) as (size & E & D).
  unfold WordInserter.parseSvgViewBox. rewrite E.
  split; [now exists size|]. split; [exact D|].
  split; [intros other D'; now apply (dimensionsOf_functional svgString)|].
  destruct D as [V|[_ [A|[_ ->]]]].
  - right. destruct V as (v & x & y & w & h & _ & _ & Pw & Ph & ->). now split.
  - right. destruct A as (w & h & _ & _ & Pw & Ph & ->). now split.
  - now left.
Qed.

End Parser.

Example parseSvgViewBox_viewBox :
  WordInserter.parseSvgViewBox (P := Sample.platform)
    (lit "<svg width='100%' viewBox='0 0 812.5 600' xmlns='x'></svg>")
  = {| WordInserter.width := 812.5; WordInserter.height := 600 |}.
Proof. vm_compute. reflexivity. Qed.

Example parseSvgViewBox_attributes :
  WordInserter.parseSvgViewBox (P := Sample.platform)
    (lit "<svg viewBox='0 0 800' width=640 height='480px'></svg>")
  = {| WordInserter.width := 640; WordInserter.height := 480 |}.
Proof. vm_compute. reflexivity. Qed.

Example parseSvgViewBox_unknown :
  WordInserter.parseSvgViewBox (P := Sample.platform)
    (lit "<svg viewBox='0 0 -5 10' width='100%' height='auto'></svg>")
  = WordInserter.unknownSize.
Proof. vm_compute. reflexivity. Qed.

(** A width beyond the doubles reads as [Infinity], which is above zero. *)
Example parseSvgViewBox_infinite :
  WordInserter.parseSvgViewBox (P := Sample.platform)
    (lit "<svg viewBox='0 0 1e400 600'></svg>")
  = {| WordInserter.width := infinity; WordInserter.height := 600 |}.
Proof. vm_compute. reflexivity. Qed.

(** ** C8: leaving insertion mode *)

Lemma insertDiagram_enters (wordApi13 wordApi11 : bool)
  (mermaidCode svgContent : str) (s : WordInserter.State) :
  WordInserter.checkWordApiSupport wordApi13 wordApi11 = true ->
  looksLikeSvg svgContent ->
  WordInserter.insertDiagram wordApi13 wordApi11 (Returned WordInserter.Succeeded)
    mermaidCode svgContent s =
  (Thrown WordInserter.awaitingPlacement,
   {| WordInserter.insertionMode := true;
      WordInserter.pendingInsertion := Some (mermaidCode, svgContent);
      WordInserter.handlers := S (WordInserter.handlers s);
      WordInserter.customXmlParts := WordInserter.customXmlParts s |}).
Proof.
  intros Hapi (Hne & Hnb & Hsvg). unfold WordInserter.insertDiagram.
  rewrite Hapi, Hne, Hnb, Hsvg. reflexivity.
Qed.

(** C8: [exitInsertionMode] returns normally in every state and for every
    answer of the host, with the insertion flag off and no pending payload.
    With no insertion pending it changes nothing, and calling it twice is
    calling it once.  After a phase-1 [insertDiagram] (which signals that it
    awaits placement) and an [exitInsertionMode] whose removal the host
    confirms, no selection-change handler is left and the inserter is back
    in the state it started from; a second [insertDiagram] then starts a
    cycle exactly as the first did. *)
Theorem exitInsertionMode_is_safe :
  (forall answer s,
     exists s',
       WordInserter.exitInsertionMode answer s = (Returned tt, s') /\
       WordInserter.insertionMode s' = false /\
       WordInserter.pendingInsertion s' = None /\
       WordInserter.customXmlParts s' = WordInserter.customXmlParts s) /\
  (forall answer parts,
     WordInserter.exitInsertionMode answer (idle parts) = (Returned tt, idle parts)) /\
  (forall answer s,
     WordInserter.exitInsertionMode answer
       (snd (WordInserter.exitInsertionMode answer s)) =
     WordInserter.exitInsertionMode answer s) /\
  (forall wordApi13 wordApi11 code1 svg1 code2 svg2 parts,
     WordInserter.checkWordApiSupport wordApi13 wordApi11 = true ->
     looksLikeSvg svg1 -> looksLikeSvg svg2 ->
     WordInserter.insertDiagram wordApi13 wordApi11
       (Returned WordInserter.Succeeded) code1 svg1 (idle parts)
       = (Thrown WordInserter.awaitingPlacement, awaiting code1 svg1 parts) /\
     startsWith (lit "SUCCESS:") WordInserter.awaitingPlacement = true /\
     WordInserter.exitInsertionMode (Returned WordInserter.Succeeded)
       (awaiting code1 svg1 parts)
       = (Returned tt, idle parts) /\
     WordInserter.insertDiagram wordApi13 wordApi11
       (Returned WordInserter.Succeeded) code2 svg2 (idle parts)
       = (Thrown WordInserter.awaitingPlacement, awaiting code2 svg2 parts)).
Proof.
  split; [|split; [|split]].
  - intros answer s. eexists. split; [reflexivity|]. now repeat split.
  - intros [[|m]|m] parts; reflexivity.
  - intros [[|m]|m] s; reflexivity.
  - intros a13 a11 code1 svg1 code2 svg2 parts Hapi H1 H2.
    rewrite !insertDiagram_enters by assumption.
    repeat split; reflexivity.
Qed.

Lemma exitInsertionMode_is_safe_witness :
  WordInserter.checkWordApiSupport true false = true /\
  looksLikeSvg (lit "<svg viewBox='0 0 800 600'></svg>") /\
  WordInserter.insertDiagram true false (Returned WordInserter.Succeeded)
    sampleCode (lit "<svg viewBox='0 0 800 600'></svg>") (idle sampleStore)
    = (Thrown WordInserter.awaitingPlacement,
       awaiting sampleCode (lit "<svg viewBox='0 0 800 600'></svg>") sampleStore) /\
  WordInserter.exitInsertionMode (Returned WordInserter.Succeeded)
    (awaiting sampleCode (lit "<svg viewBox='0 0 800 600'></svg>") sampleStore)
    = (Returned tt, idle sampleStore) /\
  WordInserter.insertDiagram true false (Returned WordInserter.Succeeded)
    (lit "graph LR") (lit "<svg viewBox='0 0 800 600'></svg>") (idle sampleStore)
    = (Thrown WordInserter.awaitingPlacement,
       awaiting (lit "graph LR") (lit "<svg viewBox='0 0 800 600'></svg>")
         sampleStore).
Proof.
  assert (H1 : WordInserter.checkWordApiSupport true false = true) by reflexivity.
  assert (H2 : looksLikeSvg (lit "<svg viewBox='0 0 800 600'></svg>"))
    by (repeat split; reflexivity).
  pose proof (proj2 (proj2 (proj2 exitInsertionMode_is_safe))
                true false sampleCode (lit "<svg viewBox='0 0 800 600'></svg>")
                (lit "graph LR") (lit "<svg viewBox='0 0 800 600'></svg>")
                sampleStore H1 H2 H2) as (Ha & _ & Hb & Hc).
  exact (conj H1 (conj H2 (conj Ha (conj Hb Hc)))).
Defined.

(** ** C10: one settings block per document *)

Lemma isSettingsPart_includes (xml : str) :
  Settings.isSettingsPart xml = includes Settings.SETTINGS_ROOT xml.
Proof. destruct xml; reflexivity. Qed.

Lemma removeExisting_filter_from (n : nat) (items : list str) :
  n <= length items ->
  Settings.removeExisting n items
    (firstn n items ++ filter keepsPart (skipn n items))
  = filter keepsPart items.
Proof.
  induction n as [|i IH]; intros Hn; [reflexivity|].
  cbn [Settings.removeExisting].
  destruct (nth_error items i) as [x|] eqn:Hx.
  2:{ apply nth_error_None in Hx. lia. }
  destruct (nth_error_split _ _ Hx) as (l1 & l2 & -> & Hlen). subst i.
  assert (Hfirst : firstn (length l1) (l1 ++ x :: l2) = l1)
    by (rewrite firstn_app, Nat.sub_diag, firstn_all; simpl; apply app_nil_r).
  assert (HfirstS : firstn (S (length l1)) (l1 ++ x :: l2) = l1 ++ [x]).
  { rewrite firstn_app, firstn_all2 by lia.
    replace (S (length l1) - length l1) with 1 by lia. reflexivity. }
  assert (Hskip : skipn (length l1) (l1 ++ x :: l2) = x :: l2)
    by (rewrite skipn_app, Nat.sub_diag, skipn_all; reflexivity).
  assert (HskipS : skipn (S (length l1)) (l1 ++ x :: l2) = l2).
  { rewrite skipn_app, skipn_all2 by lia.
    replace (S (length l1) - length l1) with 1 by lia. reflexivity. }
  rewrite HfirstS, HskipS, <- app_assoc. simpl app.
  rewrite isSettingsPart_includes.
  assert (Hi : length l1 <= length (l1 ++ x :: l2))
    by (rewrite length_app; lia).
  specialize (IH Hi). rewrite Hfirst, Hskip in IH. simpl filter in IH.
  unfold keepsPart at 1 in IH.
  destruct (includes Settings.SETTINGS_ROOT x); cbn [negb] in IH.
  - rewrite delete_app_here. exact IH.
  - exact IH.
Qed.

Lemma removeExisting_filter (st : store) :
  Settings.removeExisting (length st) st st = filter keepsPart st.
Proof.
  pose proof (removeExisting_filter_from (length st) st (le_n _)) as H.
  now rewrite firstn_all, skipn_all, app_nil_r in H.
Qed.

Lemma settingsXml_root (settings : Settings.MermaidSettings) (now : str) :
  includes Settings.SETTINGS_ROOT (Settings.settingsXml settings now) = true.
Proof. apply (includes_app_mid Settings.SETTINGS_ROOT (xmlDecl ++ nl)). Qed.

Lemma filter_kept_has_no_root (st : store) :
  filter (includes Settings.SETTINGS_ROOT) (filter keepsPart st) = [].
Proof.
  induction st as [|x st IH]; [reflexivity|].
  simpl. unfold keepsPart at 1.
  destruct (includes Settings.SETTINGS_ROOT x) eqn:E; cbn [negb]; [exact IH|].
  simpl. now rewrite E.
Qed.

(** C10: a [saveSettings] call on the presentation host or on the document
    host returns normally and leaves the custom XML parts that did not hold
    [<MermaidSettings>], in their order, followed by the one new settings
    block; every part that held [<MermaidSettings>] is gone, and exactly one
    part of the result holds it. *)
Theorem saveSettings_leaves_one_block
  (platform : Settings.OfficePlatform) (settings : Settings.MermaidSettings)
  (now : str) (st : store) :
  platform = Settings.PowerPoint \/ platform = Settings.Word ->
  exists st',
    Settings.saveSettings true platform settings now st = (Returned tt, st') /\
    st' = filter (fun xml => negb (includes (lit "<MermaidSettings>") xml)) st
          ++ [Settings.settingsXml settings now] /\
    length (filter (includes (lit "<MermaidSettings>")) st') = 1.
Proof.
  intros Hplatform.
  exists (filter keepsPart st ++ [Settings.settingsXml settings now]).
  split; [|split; [reflexivity|]].
  - unfold Settings.saveSettings, add. cbn [negb].
    rewrite removeExisting_filter. now destruct Hplatform as [-> | ->].
  - rewrite filter_app.
    change (lit "<MermaidSettings>") with Settings.SETTINGS_ROOT.
    rewrite filter_kept_has_no_root. cbn [app filter].
    now rewrite settingsXml_root.
Qed.

Lemma saveSettings_leaves_one_block_witness :
  (Settings.Word = Settings.PowerPoint \/ Settings.Word = Settings.Word) /\
  exists st',
    Settings.saveSettings true Settings.Word sampleSettings sampleNow twiceSaved
      = (Returned tt, st') /\
    st' = filter (fun xml => negb (includes (lit "<MermaidSettings>") xml)) twiceSaved
          ++ [Settings.settingsXml sampleSettings sampleNow] /\
    length (filter (includes (lit "<MermaidSettings>")) st') = 1.
Proof.
  assert (H : Settings.Word = Settings.PowerPoint \/ Settings.Word = Settings.Word)
    by (right; reflexivity).
  split; [exact H|].
  exact (saveSettings_leaves_one_block Settings.Word sampleSettings sampleNow
           twiceSaved H).
Defined.

Example saveSettings_twice_saved :
  snd (Settings.saveSettings true Settings.PowerPoint sampleSettings sampleNow
         twiceSaved)
  = sampleStore ++ [Settings.settingsXml sampleSettings sampleNow].
Proof. reflexivity. Qed.

(* ================================================================== *)
(** * Part III: further properties of the code                         *)
(* ================================================================== *)

(** ** The document host: update, insertion and reading back *)

Lemma getSelectedDiagram_last (st : store) (diagramId mermaidCode now : str)
  (others : list WordInserter.InlinePicture) :
  includes CDATA_CLOSE mermaidCode = false ->
  includes CDATA_OPEN diagramId = false ->
  Forall (fun p => includes (idMarker diagramId) p = false) st ->
  WordInserter.getSelectedDiagram
    (st ++ [WordInserter.metadataXml diagramId mermaidCode now])
    (WordInserter.insertedPicture diagramId :: others)
  = Some {| id := diagramId; code := mermaidCode |}.
Proof.
  intros Hcode Hid Hfresh.
  unfold WordInserter.getSelectedDiagram, WordInserter.insertedPicture.
  cbn [WordInserter.altTextDescription].
  change (isEmpty (lit "MERMAID_ID:" ++ diagramId)) with false.
  rewrite startsWith_app, skipn_length_app. cbn [orb negb].
  rewrite findMetadata_fresh by exact Hfresh.
  cbn [WordInserter.findMetadata].
  destruct (metadataXml_markers diagramId mermaidCode now) as [-> ->].
  now rewrite codeMatch_metadataXml.
Qed.

Lemma findMarked_first (before after : store) (old diagramId : str) (i : nat) :
  (forall p, In p before -> includes (idMarker diagramId) p = false) ->
  includes (idMarker diagramId) old = true ->
  WordInserter.findMarked (before ++ old :: after) i diagramId
  = Some (i + length before).
Proof.
  intros Hbefore Hold. revert i.
  induction before as [|p before IH]; intros i; simpl app;
    cbn [WordInserter.findMarked length].
  - now rewrite Hold, Nat.add_0_r.
  - rewrite (Hbefore p (or_introl eq_refl)).
    rewrite IH by (intros x Hx; apply Hbefore; now right).
    now rewrite Nat.add_succ_r.
Qed.

Lemma convertSvgToPngForWord_resolves {P : Platform} (svgString : str) (w h : number) :
  imageLoads svgString = true ->
  (forall ops, exists encoded, pngBase64 ops = Returned encoded) ->
  exists png ops,
    WordInserter.convertSvgToPngForWord svgString w h = (Returned png, ops).
Proof.
  intros Hload Hencode. unfold WordInserter.convertSvgToPngForWord.
  rewrite Hload.
  match goal with |- context [pngBase64 ?o] => destruct (Hencode o) as [b ->] end.
  eauto.
Qed.

Lemma convertSvgToPngForWord_rejects {P : Platform} (svgString : str) (w h : number) :
  imageLoads svgString = false ->
  WordInserter.convertSvgToPngForWord svgString w h =
  (Thrown (lit "Failed to load SVG image"), []).
Proof.
  intros Hload. unfold WordInserter.convertSvgToPngForWord. now rewrite Hload.
Qed.

(** X1: on the document host an update of an identifier that one part of
    the store answers to takes that part out, appends the new record, and
    leaves the other parts in their order; reading the identifier back from
    a picture that carries it returns the new source text.  The picture
    that the update itself inserts carries no identifier: with that picture
    selected nothing is read back. *)
Theorem word_update_then_read {P : Platform}
  (before after : store) (old diagramId mermaidCode svgContent now : str)
  (others : list WordInserter.InlinePicture) :
  (forall p, In p before -> includes (idMarker diagramId) p = false) ->
  includes (idMarker diagramId) old = true ->
  (forall p, In p after -> includes (idMarker diagramId) p = false) ->
  imageLoads svgContent = true ->
  (forall ops, exists encoded, pngBase64 ops = Returned encoded) ->
  includes CDATA_CLOSE mermaidCode = false ->
  includes CDATA_OPEN diagramId = false ->
  WordInserter.updateDiagram (before ++ old :: after)
    diagramId mermaidCode svgContent now =
  (Returned tt,
   before ++ after ++ [WordInserter.metadataXml diagramId mermaidCode now]) /\
  WordInserter.getSelectedDiagram
    (snd (WordInserter.updateDiagram (before ++ old :: after)
            diagramId mermaidCode svgContent now))
    (WordInserter.insertedPicture diagramId :: others)
  = Some {| id := diagramId; code := mermaidCode |} /\
  WordInserter.getSelectedDiagram
    (snd (WordInserter.updateDiagram (before ++ old :: after)
            diagramId mermaidCode svgContent now))
    (WordInserter.replacementPicture :: others)
  = None.
Proof.
  intros Hbefore Hold Hafter Hload Hencode Hcode Hid.
  assert (E : WordInserter.updateDiagram (before ++ old :: after)
                diagramId mermaidCode svgContent now =
              (Returned tt,
               before ++ after ++
               [WordInserter.metadataXml diagramId mermaidCode now])).
  { unfold WordInserter.updateDiagram.
    rewrite (findMarked_first before after old diagramId 0 Hbefore Hold).
    cbv zeta.
    match goal with
    | |- context [WordInserter.convertSvgToPngForWord ?s ?w ?h] =>
        destruct (convertSvgToPngForWord_resolves s w h Hload Hencode)
          as (png & ops & ->)
    end.
    unfold WordInserter.storeDiagramMetadata, add. cbn [snd plus].
    rewrite <- app_assoc. simpl app.
    now rewrite delete_app_here. }
  split; [exact E|]. split; [|reflexivity].
  rewrite E. cbn [snd]. rewrite app_assoc.
  apply getSelectedDiagram_last; try assumption.
  apply Forall_forall. intros p Hp. apply in_app_or in Hp as [Hp|Hp]; auto.
Qed.

Lemma word_update_then_read_witness :
  (forall p, In p sampleStore ->
     includes (idMarker (lit "mermaid-7f3k2m9qz")) p = false) /\
  includes (idMarker (lit "mermaid-7f3k2m9qz"))
    (WordInserter.metadataXml (lit "mermaid-7f3k2m9qz") (lit "graph TD") sampleNow)
    = true /\
  WordInserter.getSelectedDiagram
    (snd (WordInserter.updateDiagram (P := Sample.platform)
            (sampleStore ++
             WordInserter.metadataXml (lit "mermaid-7f3k2m9qz") (lit "graph TD")
               sampleNow :: [])
            (lit "mermaid-7f3k2m9qz") sampleCode
            (lit "<svg viewBox='0 0 800 600'></svg>") sampleNow))
    (WordInserter.insertedPicture (lit "mermaid-7f3k2m9qz") :: [])
  = Some {| id := lit "mermaid-7f3k2m9qz"; code := sampleCode |}.
Proof.
  assert (H1 : forall p, In p sampleStore ->
            includes (idMarker (lit "mermaid-7f3k2m9qz")) p = false).
  { intros p [<-|[]]. reflexivity. }
  assert (H2 : includes (idMarker (lit "mermaid-7f3k2m9qz"))
                 (WordInserter.metadataXml (lit "mermaid-7f3k2m9qz")
                    (lit "graph TD") sampleNow) = true) by reflexivity.
  refine (conj H1 (conj H2 _)).
  refine (proj1 (proj2 (word_update_then_read (P := Sample.platform)
                          sampleStore [] _ (lit "mermaid-7f3k2m9qz") sampleCode
                          (lit "<svg viewBox='0 0 800 600'></svg>") sampleNow []
                          H1 H2 _ _ _ _ _))).
  - intros p [].
  - reflexivity.
  - intros ops. eexists. reflexivity.
  - reflexivity.
  - reflexivity.
Defined.

(** X2: an update of the document host that throws, whatever the reason
    (no part answers to the identifier, the image does not load, the canvas
    cannot be encoded), leaves the custom XML parts as they were. *)
Theorem word_update_failure_keeps_store {P : Platform}
  (st : store) (diagramId mermaidCode svgContent now message : str) :
  fst (WordInserter.updateDiagram st diagramId mermaidCode svgContent now)
    = Thrown message ->
  snd (WordInserter.updateDiagram st diagramId mermaidCode svgContent now) = st.
Proof.
  unfold WordInserter.updateDiagram.
  destruct (WordInserter.findMarked st 0 diagramId); [|reflexivity].
  cbv zeta.
  destruct (WordInserter.convertSvgToPngForWord _ _ _) as [[png|m] ops];
    cbn [fst snd]; [discriminate|reflexivity].
Qed.

Lemma word_update_failure_keeps_store_witness :
  fst (WordInserter.updateDiagram (P := Sample.platform) quotingStore
         (lit "mermaid-k3j9x0q1a") (lit "graph LR") (lit "no image") sampleNow)
    = Thrown (lit "Failed to update diagram: Failed to load SVG image") /\
  snd (WordInserter.updateDiagram (P := Sample.platform) quotingStore
         (lit "mermaid-k3j9x0q1a") (lit "graph LR") (lit "no image") sampleNow)
    = quotingStore.
Proof.
  assert (H : fst (WordInserter.updateDiagram (P := Sample.platform) quotingStore
                     (lit "mermaid-k3j9x0q1a") (lit "graph LR") (lit "no image")
                     sampleNow)
              = Thrown (lit "Failed to update diagram: Failed to load SVG image"))
    by reflexivity.
  split; [exact H|].
  exact (word_update_failure_keeps_store (P := Sample.platform) quotingStore
           (lit "mermaid-k3j9x0q1a") (lit "graph LR") (lit "no image") sampleNow
           _ H).
Defined.

(** ** The document host: the two phases of an insertion *)

Lemma performActualInsertion_done {P : Platform}
  (mermaidCode svgContent diagramId now : str) (st : store) :
  imageLoads svgContent = true ->
  (forall ops, exists encoded, pngBase64 ops = Returned encoded) ->
  WordInserter.performActualInsertion mermaidCode svgContent diagramId now st =
  (Thrown WordInserter.insertionComplete,
   st ++ [WordInserter.metadataXml diagramId mermaidCode now]).
Proof.
  intros Hload Hencode. unfold WordInserter.performActualInsertion. cbv zeta.
  match goal with
  | |- context [WordInserter.convertSvgToPngForWord ?s ?w ?h] =>
      destruct (convertSvgToPngForWord_resolves s w h Hload Hencode)
        as (png & ops & ->)
  end.
  reflexivity.
Qed.

Lemma performActualInsertion_failed {P : Platform}
  (mermaidCode svgContent diagramId now : str) (st : store) :
  imageLoads svgContent = false ->
  WordInserter.performActualInsertion mermaidCode svgContent diagramId now st =
  (Thrown (lit "Failed to load SVG image"), st).
Proof.
  intros Hload. unfold WordInserter.performActualInsertion. cbv zeta.
  now rewrite convertSvgToPngForWord_rejects.
Qed.

(** X3: [insertAtCurrentPosition] refuses to run outside insertion mode and
    then changes nothing; inside insertion mode it always ends with the
    insertion flag off and the payload cleared.  When the image loads and
    the canvas encodes, it returns normally and the store has gained one
    part, the record of the inserted diagram; when the image does not load,
    it throws that error and the store is as it was. *)
Theorem insertAtCurrentPosition_always_leaves_mode {P : Platform}
  (answer : completion WordInserter.AsyncResult) (diagramId now : str)
  (s : WordInserter.State) :
  (WordInserter.insertionMode s = false \/ WordInserter.pendingInsertion s = None ->
   WordInserter.insertAtCurrentPosition answer diagramId now s =
   (Thrown (lit "Not in insertion mode"), s)) /\
  (forall mermaidCode svgContent,
     WordInserter.insertionMode s = true ->
     WordInserter.pendingInsertion s = Some (mermaidCode, svgContent) ->
     let after := snd (WordInserter.insertAtCurrentPosition answer diagramId now s) in
     WordInserter.insertionMode after = false /\
     WordInserter.pendingInsertion after = None /\
     (imageLoads svgContent = true ->
      (forall ops, exists encoded, pngBase64 ops = Returned encoded) ->
      fst (WordInserter.insertAtCurrentPosition answer diagramId now s) = Returned tt /\
      WordInserter.customXmlParts after =
        WordInserter.customXmlParts s ++
        [WordInserter.metadataXml diagramId mermaidCode now]) /\
     (imageLoads svgContent = false ->
      fst (WordInserter.insertAtCurrentPosition answer diagramId now s) =
        Thrown (lit "Failed to load SVG image") /\
      WordInserter.customXmlParts after = WordInserter.customXmlParts s)).
Proof.
  split.
  - unfold WordInserter.insertAtCurrentPosition.
    intros [H|H]; rewrite H; [reflexivity|].
    now destruct (WordInserter.insertionMode s).
  - intros mermaidCode svgContent Hmode Hpending. cbv zeta.
    unfold WordInserter.insertAtCurrentPosition. rewrite Hmode, Hpending.
    destruct (imageLoads svgContent) eqn:Hload.
    + split; [|split; [|split]].
      * destruct (WordInserter.performActualInsertion _ _ _ _ _) as [[u|m] st'];
          [reflexivity|]. now destruct (startsWith _ m).
      * destruct (WordInserter.performActualInsertion _ _ _ _ _) as [[u|m] st'];
          [reflexivity|]. now destruct (startsWith _ m).
      * intros _ Hencode.
        rewrite (performActualInsertion_done _ _ _ _ _ Hload Hencode).
        split; reflexivity.
      * discriminate.
    + rewrite (performActualInsertion_failed _ _ _ _ _ Hload).
      repeat split; try reflexivity; discriminate.
Qed.

Lemma insertAtCurrentPosition_always_leaves_mode_witness :
  WordInserter.insertionMode
    (awaiting sampleCode (lit "<svg viewBox='0 0 800 600'></svg>") sampleStore) = true /\
  WordInserter.pendingInsertion
    (awaiting sampleCode (lit "<svg viewBox='0 0 800 600'></svg>") sampleStore)
    = Some (sampleCode, lit "<svg viewBox='0 0 800 600'></svg>") /\
  imageLoads (Platform := Sample.platform) (lit "<svg viewBox='0 0 800 600'></svg>")
    = true /\
  fst (WordInserter.insertAtCurrentPosition (P := Sample.platform)
         (Returned WordInserter.Succeeded) (lit "mermaid-7f3k2m9qz") sampleNow
         (awaiting sampleCode (lit "<svg viewBox='0 0 800 600'></svg>") sampleStore))
    = Returned tt /\
  WordInserter.customXmlParts
    (snd (WordInserter.insertAtCurrentPosition (P := Sample.platform)
            (Returned WordInserter.Succeeded) (lit "mermaid-7f3k2m9qz") sampleNow
            (awaiting sampleCode (lit "<svg viewBox='0 0 800 600'></svg>")
               sampleStore)))
    = WordInserter.customXmlParts
        (awaiting sampleCode (lit "<svg viewBox='0 0 800 600'></svg>") sampleStore)
      ++ [WordInserter.metadataXml (lit "mermaid-7f3k2m9qz") sampleCode sampleNow].
Proof.
  assert (H1 : WordInserter.insertionMode
                 (awaiting sampleCode (lit "<svg viewBox='0 0 800 600'></svg>")
                    sampleStore) = true) by reflexivity.
  assert (H2 : WordInserter.pendingInsertion
                 (awaiting sampleCode (lit "<svg viewBox='0 0 800 600'></svg>")
                    sampleStore)
               = Some (sampleCode, lit "<svg viewBox='0 0 800 600'></svg>"))
    by reflexivity.
  assert (H3 : imageLoads (Platform := Sample.platform)
                 (lit "<svg viewBox='0 0 800 600'></svg>") = true) by reflexivity.
  refine (conj H1 (conj H2 (conj H3 _))).
  exact (proj1 (proj2 (proj2 (proj2 (insertAtCurrentPosition_always_leaves_mode
                       (P := Sample.platform) (Returned WordInserter.Succeeded)
                       (lit "mermaid-7f3k2m9qz") sampleNow
                       (awaiting sampleCode
                          (lit "<svg viewBox='0 0 800 600'></svg>") sampleStore))
                sampleCode (lit "<svg viewBox='0 0 800 600'></svg>") H1 H2)))
           H3 (fun ops => ex_intro _ _ eq_refl)).
Defined.

(** X4: the two phases of an insertion on the document host, end to end,
    when nothing stands in the way: the Word API is supported, the markup
    passes the checks of [insertDiagram], loads as an image and encodes,
    the host accepts the registration of the handler and its removal, the
    source text does not hold the sequence that closes its CDATA section,
    the identifier does not hold the one that opens it, and no part of the
    store holds the marker of the identifier already.  Then, from a state
    with nothing pending, [insertDiagram] followed by
    [insertAtCurrentPosition] returns normally, leaves the inserter with
    nothing pending and no handler registered, and has added one record;
    selecting the inserted picture then returns the source text that was
    given to [insertDiagram]. *)
Theorem two_phase_insertion_round_trip {P : Platform}
  (wordApi13 wordApi11 : bool) (mermaidCode svgContent diagramId now : str)
  (parts : store) (others : list WordInserter.InlinePicture) :
  WordInserter.checkWordApiSupport wordApi13 wordApi11 = true ->
  looksLikeSvg svgContent ->
  imageLoads svgContent = true ->
  (forall ops, exists encoded, pngBase64 ops = Returned encoded) ->
  includes CDATA_CLOSE mermaidCode = false ->
  includes CDATA_OPEN diagramId = false ->
  Forall (fun p => includes (idMarker diagramId) p = false) parts ->
  let phase1 :=
    WordInserter.insertDiagram wordApi13 wordApi11
      (Returned WordInserter.Succeeded) mermaidCode svgContent (idle parts) in
  let phase2 :=
    WordInserter.insertAtCurrentPosition (Returned WordInserter.Succeeded)
      diagramId now (snd phase1) in
  fst phase1 = Thrown WordInserter.awaitingPlacement /\
  phase2 = (Returned tt,
            idle (parts ++ [WordInserter.metadataXml diagramId mermaidCode now])) /\
  WordInserter.getSelectedDiagram
    (WordInserter.customXmlParts (snd phase2))
    (WordInserter.insertedPicture diagramId :: others)
  = Some {| id := diagramId; code := mermaidCode |}.
Proof.
  intros Hapi Hsvg Hload Hencode Hcode Hid Hfresh. cbv zeta.
  rewrite (insertDiagram_enters wordApi13 wordApi11 mermaidCode svgContent
             (idle parts) Hapi Hsvg).
  cbn [fst snd idle WordInserter.handlers WordInserter.customXmlParts].
  assert (E : WordInserter.insertAtCurrentPosition
                (Returned WordInserter.Succeeded) diagramId now
                {| WordInserter.insertionMode := true;
                   WordInserter.pendingInsertion := Some (mermaidCode, svgContent);
                   WordInserter.handlers := 1;
                   WordInserter.customXmlParts := parts |}
              = (Returned tt,
                 idle (parts ++
                       [WordInserter.metadataXml diagramId mermaidCode now]))).
  { unfold WordInserter.insertAtCurrentPosition.
    cbn [WordInserter.insertionMode WordInserter.pendingInsertion
         WordInserter.customXmlParts].
    now rewrite (performActualInsertion_done _ _ _ _ _ Hload Hencode). }
  rewrite E. split; [reflexivity|]. split; [reflexivity|].
  cbn [snd idle WordInserter.customXmlParts].
  now apply getSelectedDiagram_last.
Qed.

Lemma two_phase_insertion_round_trip_witness :
  WordInserter.checkWordApiSupport true false = true /\
  looksLikeSvg (lit "<svg viewBox='0 0 800 600'></svg>") /\
  includes CDATA_CLOSE sampleCode = false /\
  WordInserter.getSelectedDiagram
    (WordInserter.customXmlParts
       (snd (WordInserter.insertAtCurrentPosition (P := Sample.platform)
               (Returned WordInserter.Succeeded) (lit "mermaid-7f3k2m9qz") sampleNow
               (snd (WordInserter.insertDiagram true false
                       (Returned WordInserter.Succeeded) sampleCode
                       (lit "<svg viewBox='0 0 800 600'></svg>")
                       (idle sampleStore))))))
    (WordInserter.insertedPicture (lit "mermaid-7f3k2m9qz") :: [])
  = Some {| id := lit "mermaid-7f3k2m9qz"; code := sampleCode |}.
Proof.
  assert (H1 : WordInserter.checkWordApiSupport true false = true) by reflexivity.
  assert (H2 : looksLikeSvg (lit "<svg viewBox='0 0 800 600'></svg>"))
    by (repeat split; reflexivity).
  assert (H3 : includes CDATA_CLOSE sampleCode = false) by reflexivity.
  refine (conj H1 (conj H2 (conj H3 _))).
  refine (proj2 (proj2 (two_phase_insertion_round_trip (P := Sample.platform)
                          true false sampleCode
                          (lit "<svg viewBox='0 0 800 600'></svg>")
                          (lit "mermaid-7f3k2m9qz") sampleNow sampleStore []
                          H1 H2 _ _ H3 _ _))).
  - reflexivity.
  - intros ops. eexists. reflexivity.
  - reflexivity.
  - repeat constructor.
Defined.

(** X5: [insertDiagram] of the document host never returns normally: it
    always throws, and what it throws starts with [SUCCESS:] exactly when
    the API is supported, the markup passes the two checks and the host
    registered the selection handler.  When a check fails the inserter is
    untouched.  When the checks pass the inserter is in insertion mode with
    the payload pending, also when the handler could not be registered. *)
Theorem insertDiagram_outcomes
  (wordApi13 wordApi11 : bool) (answer : completion WordInserter.AsyncResult)
  (mermaidCode svgContent : str) (s : WordInserter.State) :
  let passes :=
    WordInserter.checkWordApiSupport wordApi13 wordApi11 &&
    negb (isEmpty svgContent || isBlank svgContent) &&
    includes (lit "<svg") svgContent in
  exists message s',
    WordInserter.insertDiagram wordApi13 wordApi11 answer mermaidCode svgContent s
      = (Thrown message, s') /\
    (startsWith (lit "SUCCESS:") message = true <->
     passes = true /\ answer = Returned WordInserter.Succeeded) /\
    (passes = false -> s' = s) /\
    (passes = true ->
     WordInserter.insertionMode s' = true /\
     WordInserter.pendingInsertion s' = Some (mermaidCode, svgContent) /\
     WordInserter.customXmlParts s' = WordInserter.customXmlParts s).
Proof.
  cbv zeta. unfold WordInserter.insertDiagram.
  destruct (WordInserter.checkWordApiSupport wordApi13 wordApi11);
    cbn [negb andb].
  2:{ do 2 eexists. split; [reflexivity|].
      split; [split; [discriminate|intros [? _]; discriminate]|].
      split; [reflexivity|discriminate]. }
  destruct (isEmpty svgContent || isBlank svgContent); cbn [negb andb].
  { do 2 eexists. split; [reflexivity|].
    split; [split; [discriminate|intros [? _]; discriminate]|].
    split; [reflexivity|discriminate]. }
  destruct (includes (lit "<svg") svgContent); cbn [negb].
  2:{ do 2 eexists. split; [reflexivity|].
      split; [split; [discriminate|intros [? _]; discriminate]|].
      split; [reflexivity|discriminate]. }
  destruct answer as [[|m]|m]; cbn.
  - do 2 eexists. split; [reflexivity|].
    split; [split; [auto|reflexivity]|]. split; [discriminate|auto].
  - do 2 eexists. split; [reflexivity|].
    split; [split; [discriminate|intros [_ ?]; discriminate]|].
    split; [discriminate|auto].
  - do 2 eexists. split; [reflexivity|].
    split; [split; [discriminate|intros [_ ?]; discriminate]|].
    split; [discriminate|auto].
Qed.

(** ** The document host: the listing of stored diagrams *)

Lemma classBetweenHere_needs_open (open : str) (stop : ascii) (close s : str) :
  startsWith open s = false ->
  WordInserter.classBetweenHere open stop close s = None.
Proof. intros H. unfold WordInserter.classBetweenHere. now rewrite H. Qed.

(** Inside a text without [<] no expression that opens with [<] matches. *)
Lemma classBetweenHere_inside_plain (open : str) (stop : ascii) (close a s : str) :
  without "<"%char a ->
  forall a1 a2, a = a1 ++ a2 -> a2 <> [] ->
  WordInserter.classBetweenHere ("<"%char :: open) stop close (a2 ++ s) = None.
Proof.
  intros Ha a1 a2 -> Hne. apply classBetweenHere_needs_open.
  unfold without in Ha. rewrite forallb_app in Ha.
  apply andb_true_iff in Ha as [_ Ha].
  destruct a2 as [|c a2]; [congruence|].
  cbn [forallb] in Ha. apply andb_true_iff in Ha as [Hc _].
  apply negb_true_iff in Hc.
  cbn [app startsWith]. now rewrite Ascii.eqb_sym, Hc.
Qed.

Lemma span_whole (stop : ascii) (a s : str) :
  without stop a ->
  span (fun u => negb (Ascii.eqb u stop)) (a ++ stop :: s) = (a, stop :: s).
Proof.
  unfold without. induction a as [|c a IH]; intros H; simpl.
  - now rewrite Ascii.eqb_refl.
  - simpl in H. apply andb_true_iff in H as [Hc H].
    now rewrite Hc, (IH H).
Qed.

Lemma span_stops (stop : ascii) (a s : str) :
  In stop a ->
  exists before after,
    a = before ++ stop :: after /\
    span (fun u => negb (Ascii.eqb u stop)) (a ++ s)
    = (before, stop :: after ++ s).
Proof.
  induction a as [|c a IH]; intros H; [destruct H|].
  simpl. destruct (Ascii.eqb c stop) eqn:E; simpl.
  - apply Ascii.eqb_eq in E; subst c. now exists [], a.
  - destruct H as [->|H]; [now rewrite Ascii.eqb_refl in E|].
    destruct (IH H) as (before & after & -> & ->).
    now exists (c :: before), after.
Qed.

(** The expression matches at its opening sequence when the field is not
    empty and free of the excluded unit, which starts the closing
    sequence. *)
Lemma classBetweenHere_field (open : str) (stop : ascii) (close field s : str) :
  field <> [] -> without stop field ->
  WordInserter.classBetweenHere open stop (stop :: close)
    (open ++ field ++ (stop :: close) ++ s) = Some field.
Proof.
  intros Hne Hfield. unfold WordInserter.classBetweenHere.
  rewrite startsWith_app, skipn_length_app.
  change ((stop :: close) ++ s) with (stop :: close ++ s).
  rewrite (span_whole _ _ _ Hfield).
  destruct field as [|c field]; [congruence|].
  change (stop :: close ++ s) with ((stop :: close) ++ s).
  now rewrite startsWith_app.
Qed.

(** The expression of the listing for the source text does not match at the
    opening sequence of a source text that holds a closing bracket. *)
Lemma codePreview_stops_at_bracket (mermaidCode s : str) :
  In "]"%char mermaidCode ->
  includes CDATA_CLOSE mermaidCode = false ->
  WordInserter.classBetweenHere CDATA_OPEN "]"%char CDATA_CLOSE
    (CDATA_OPEN ++ mermaidCode ++ CDATA_CLOSE ++ s) = None.
Proof.
  intros Hin Hclose. unfold WordInserter.classBetweenHere.
  rewrite startsWith_app, skipn_length_app.
  destruct (span_stops "]"%char mermaidCode (CDATA_CLOSE ++ s) Hin)
    as (before & after & Hcode & ->).
  destruct before as [|c before]; [reflexivity|].
  assert (E : startsWith CDATA_CLOSE (("]"%char :: after) ++ CDATA_CLOSE ++ s)
              = false).
  { apply (no_start_inside CDATA_CLOSE mermaidCode (CDATA_CLOSE ++ s) Hclose)
      with (a1 := c :: before); [|exact Hcode|discriminate].
    intros k Hk. each_position k Hk. }
  change (("]"%char :: after) ++ CDATA_CLOSE ++ s)
    with ("]"%char :: after ++ CDATA_CLOSE ++ s) in E.
  now rewrite E.
Qed.

Lemma metadataXml_fields (diagramId mermaidCode now : str) :
  WordInserter.metadataXml diagramId mermaidCode now =
  metadataHead ++ diagramId ++ metadataMid ++ CDATA_OPEN ++ mermaidCode ++
  (CDATA_CLOSE ++ metadataTailOpen) ++ now ++ metadataTailClose.
Proof. reflexivity. Qed.

(** The expression of the listing for the source text matches nowhere in
    the record of a source text that holds a closing bracket. *)
Lemma listing_code_no_match (diagramId mermaidCode now : str) :
  In "]"%char mermaidCode ->
  includes CDATA_CLOSE mermaidCode = false ->
  includes CDATA_OPEN diagramId = false ->
  includes CDATA_OPEN mermaidCode = false ->
  includes CDATA_OPEN now = false ->
  matchFirst (WordInserter.classBetweenHere CDATA_OPEN "]"%char CDATA_CLOSE)
    (WordInserter.metadataXml diagramId mermaidCode now) = None.
Proof.
  intros Hin Hclose Hid Hcode Hnow. rewrite metadataXml_fields.
  rewrite (matchFirst_skip_idx _ metadataHead).
  2:{ intros k Hk. each_position k Hk. }
  rewrite (matchFirst_skip _ diagramId).
  2:{ intros a1 a2 E Hne. apply classBetweenHere_needs_open.
      apply (no_start_inside _ _ _ Hid) with (a1 := a1); [|exact E|exact Hne].
      intros k Hk. each_position k Hk. }
  rewrite (matchFirst_skip_idx _ metadataMid).
  2:{ intros k Hk. each_position k Hk. }
  rewrite (matchFirst_skip_idx _ CDATA_OPEN).
  2:{ intros k Hk. destruct k as [|k].
      - cbn [skipn]. rewrite <- (app_assoc CDATA_CLOSE).
        now apply codePreview_stops_at_bracket.
      - each_position k Hk. }
  rewrite (matchFirst_skip _ mermaidCode).
  2:{ intros a1 a2 E Hne. apply classBetweenHere_needs_open.
      apply (no_start_inside _ _ _ Hcode) with (a1 := a1); [|exact E|exact Hne].
      intros k Hk. each_position k Hk. }
  rewrite (matchFirst_skip_idx _ (CDATA_CLOSE ++ metadataTailOpen)).
  2:{ intros k Hk. each_position k Hk. }
  rewrite (matchFirst_skip _ now).
  2:{ intros a1 a2 E Hne. apply classBetweenHere_needs_open.
      apply (no_start_inside _ _ _ Hnow) with (a1 := a1); [|exact E|exact Hne].
      intros k Hk. each_position k Hk. }
  reflexivity.
Qed.

Lemma listing_id_match (diagramId mermaidCode now : str) :
  diagramId <> [] -> without "<"%char diagramId ->
  matchFirst (WordInserter.classBetweenHere (lit "<Id>") "<"%char (lit "</Id>"))
    (WordInserter.metadataXml diagramId mermaidCode now) = Some diagramId.
Proof.
  intros Hne Hplain.
  change (WordInserter.metadataXml diagramId mermaidCode now)
    with ((xmlDecl ++ nl ++ lit "<MermaidDiagram>" ++ nl ++ lit "  ") ++
          lit "<Id>" ++ diagramId ++ ("<"%char :: lit "/Id>") ++
          nl ++ lit "  " ++ CDATA_OPEN ++ mermaidCode ++ CDATA_CLOSE ++
          metadataTail now).
  rewrite matchFirst_skip_idx.
  2:{ intros k Hk. each_position k Hk. }
  apply matchFirst_here.
  exact (classBetweenHere_field (lit "<Id>") "<"%char (lit "/Id>") diagramId _
           Hne Hplain).
Qed.

Lemma listing_created_match (diagramId mermaidCode now : str) :
  without "<"%char diagramId ->
  includes (lit "<CreatedAt>") mermaidCode = false ->
  now <> [] -> without "<"%char now ->
  matchFirst (WordInserter.classBetweenHere (lit "<CreatedAt>") "<"%char
                (lit "</CreatedAt>"))
    (WordInserter.metadataXml diagramId mermaidCode now) = Some now.
Proof.
  intros Hid Hcode Hne Hnow.
  change (WordInserter.metadataXml diagramId mermaidCode now)
    with (metadataHead ++ diagramId ++ (metadataMid ++ CDATA_OPEN) ++
          mermaidCode ++ (CDATA_CLOSE ++ nl ++ lit "  ") ++
          lit "<CreatedAt>" ++ now ++ ("<"%char :: lit "/CreatedAt>") ++
          nl ++ lit "</MermaidDiagram>").
  rewrite (matchFirst_skip_idx _ metadataHead).
  2:{ intros k Hk. each_position k Hk. }
  rewrite (matchFirst_skip _ diagramId).
  2:{ exact (classBetweenHere_inside_plain (lit "CreatedAt>") _ _ _ _ Hid). }
  rewrite (matchFirst_skip_idx _ (metadataMid ++ CDATA_OPEN)).
  2:{ intros k Hk. each_position k Hk. }
  rewrite (matchFirst_skip _ mermaidCode).
  2:{ intros a1 a2 E Hne'. apply classBetweenHere_needs_open.
      apply (no_start_inside _ _ _ Hcode) with (a1 := a1); [|exact E|exact Hne'].
      intros k Hk. each_position k Hk. }
  rewrite (matchFirst_skip_idx _ (CDATA_CLOSE ++ nl ++ lit "  ")).
  2:{ intros k Hk. each_position k Hk. }
  apply matchFirst_here.
  exact (classBetweenHere_field (lit "<CreatedAt>") "<"%char (lit "/CreatedAt>")
           now _ Hne Hnow).
Qed.

Lemma listing_code_match (diagramId mermaidCode now : str) :
  without "<"%char diagramId ->
  mermaidCode <> [] -> without "]"%char mermaidCode ->
  matchFirst (WordInserter.classBetweenHere CDATA_OPEN "]"%char CDATA_CLOSE)
    (WordInserter.metadataXml diagramId mermaidCode now) = Some mermaidCode.
Proof.
  intros Hid Hne Hcode.
  change (WordInserter.metadataXml diagramId mermaidCode now)
    with (metadataHead ++ diagramId ++ metadataMid ++
          CDATA_OPEN ++ mermaidCode ++ ("]"%char :: lit "]></Code>") ++
          metadataTail now).
  rewrite (matchFirst_skip_idx _ metadataHead).
  2:{ intros k Hk. each_position k Hk. }
  rewrite (matchFirst_skip _ diagramId).
  2:{ exact (classBetweenHere_inside_plain (lit "Code><![CDATA[") _ _ _ _ Hid). }
  rewrite (matchFirst_skip_idx _ metadataMid).
  2:{ intros k Hk. each_position k Hk. }
  apply matchFirst_here.
  exact (classBetweenHere_field CDATA_OPEN "]"%char (lit "]></Code>")
           mermaidCode _ Hne Hcode).
Qed.

Lemma diagrams_app (a b : store) :
  WordInserter.diagrams (a ++ b) = WordInserter.diagrams a ++ WordInserter.diagrams b.
Proof.
  induction a as [|xml a IH]; [reflexivity|].
  simpl. destruct (WordInserter.listedEntry xml); simpl; now rewrite IH.
Qed.

(** X6: the listing of the document host passes over a diagram whose
    source text holds a closing bracket, when that text holds neither the
    sequence that opens a CDATA section nor the one that closes it and the
    identifier and the time stamp do not hold the opening sequence either:
    storing such a diagram leaves the text returned by
    [listStoredDiagrams] as it was, although the record is in the store. *)
Theorem listing_omits_bracketed_code
  (st : store) (diagramId mermaidCode now : str) :
  In "]"%char mermaidCode ->
  includes CDATA_CLOSE mermaidCode = false ->
  includes CDATA_OPEN diagramId = false ->
  includes CDATA_OPEN mermaidCode = false ->
  includes CDATA_OPEN now = false ->
  WordInserter.listStoredDiagrams
    (snd (WordInserter.storeDiagramMetadata st diagramId mermaidCode now))
  = WordInserter.listStoredDiagrams st.
Proof.
  intros Hin Hclose Hid Hcode Hnow.
  unfold WordInserter.listStoredDiagrams, WordInserter.storeDiagramMetadata, add.
  cbn [snd]. rewrite diagrams_app.
  assert (E : WordInserter.listedEntry
                (WordInserter.metadataXml diagramId mermaidCode now) = None).
  { unfold WordInserter.listedEntry.
    rewrite (listing_code_no_match _ _ _ Hin Hclose Hid Hcode Hnow).
    repeat match goal with
           | |- context [if ?b then _ else _] => destruct b
           | |- context [match ?x with _ => _ end] => destruct x
           end; reflexivity. }
  cbn [WordInserter.diagrams]. now rewrite E, app_nil_r.
Qed.

Lemma listing_omits_bracketed_code_witness :
  In "]"%char sampleCode /\
  includes CDATA_CLOSE sampleCode = false /\
  includes CDATA_OPEN sampleCode = false /\
  WordInserter.listStoredDiagrams
    (snd (WordInserter.storeDiagramMetadata [] (lit "mermaid-7f3k2m9qz")
            sampleCode sampleNow))
  = WordInserter.listStoredDiagrams [].
Proof.
  assert (H1 : In "]"%char sampleCode) by (vm_compute; tauto).
  assert (H2 : includes CDATA_CLOSE sampleCode = false) by reflexivity.
  assert (H3 : includes CDATA_OPEN sampleCode = false) by reflexivity.
  refine (conj H1 (conj H2 (conj H3 _))).
  exact (listing_omits_bracketed_code [] (lit "mermaid-7f3k2m9qz") sampleCode
           sampleNow H1 H2 eq_refl H3 eq_refl).
Defined.

(** X7: a diagram whose identifier and time stamp are not empty and hold no
    [<], and whose source text is not empty and holds neither a closing
    bracket nor [<CreatedAt>], is listed after the diagrams already listed,
    with its identifier, its time stamp and the first fifty code units of
    its source text followed by three dots. *)
Theorem listing_shows_plain_code
  (st : store) (diagramId mermaidCode now : str) :
  diagramId <> [] -> without "<"%char diagramId ->
  now <> [] -> without "<"%char now ->
  mermaidCode <> [] -> without "]"%char mermaidCode ->
  includes (lit "<CreatedAt>") mermaidCode = false ->
  WordInserter.diagrams
    (snd (WordInserter.storeDiagramMetadata st diagramId mermaidCode now))
  = WordInserter.diagrams st ++
    [{| WordInserter.listedId := diagramId;
        WordInserter.created := now;
        WordInserter.codePreview := firstn 50 mermaidCode ++ lit "..." |}] /\
  (WordInserter.diagrams st = [] ->
   WordInserter.listStoredDiagrams
     (snd (WordInserter.storeDiagramMetadata st diagramId mermaidCode now))
   = lit "Found 1 Mermaid diagram(s):" ++ nl ++ nl ++
     lit "1. ID: " ++ diagramId ++ nl ++
     lit "   Created: " ++ now ++ nl ++
     lit "   Code: " ++ firstn 50 mermaidCode ++ lit "...").
Proof.
  intros Hid0 Hid Hnow0 Hnow Hcode0 Hcode Hcreated.
  assert (E : WordInserter.diagrams
                (snd (WordInserter.storeDiagramMetadata st diagramId mermaidCode
                        now))
              = WordInserter.diagrams st ++
                [{| WordInserter.listedId := diagramId;
                    WordInserter.created := now;
                    WordInserter.codePreview :=
                      firstn 50 mermaidCode ++ lit "..." |}]).
  { unfold WordInserter.storeDiagramMetadata, add. cbn [snd].
    rewrite diagrams_app. f_equal.
    cbn [WordInserter.diagrams]. unfold WordInserter.listedEntry.
    destruct (metadataXml_markers diagramId mermaidCode now) as [-> _].
    rewrite (listing_id_match _ _ _ Hid0 Hid).
    rewrite (listing_created_match _ _ _ Hid Hcreated Hnow0 Hnow).
    now rewrite (listing_code_match _ _ _ Hid Hcode0 Hcode). }
  split; [exact E|].
  intros Hnone. unfold WordInserter.listStoredDiagrams.
  rewrite E, Hnone. reflexivity.
Qed.

Lemma listing_shows_plain_code_witness :
  lit "mermaid-7f3k2m9qz" <> [] /\
  without "<"%char (lit "mermaid-7f3k2m9qz") /\
  sampleNow <> [] /\ without "<"%char sampleNow /\
  lit "graph LR; A-->B" <> [] /\ without "]"%char (lit "graph LR; A-->B") /\
  includes (lit "<CreatedAt>") (lit "graph LR; A-->B") = false /\
  WordInserter.diagrams
    (snd (WordInserter.storeDiagramMetadata [] (lit "mermaid-7f3k2m9qz")
            (lit "graph LR; A-->B") sampleNow))
  = WordInserter.diagrams [] ++
    [{| WordInserter.listedId := lit "mermaid-7f3k2m9qz";
        WordInserter.created := sampleNow;
        WordInserter.codePreview := firstn 50 (lit "graph LR; A-->B") ++ lit "..." |}].
Proof.
  assert (H1 : lit "mermaid-7f3k2m9qz" <> []) by discriminate.
  assert (H2 : without "<"%char (lit "mermaid-7f3k2m9qz")) by reflexivity.
  assert (H3 : sampleNow <> []) by discriminate.
  assert (H4 : without "<"%char sampleNow) by reflexivity.
  assert (H5 : lit "graph LR; A-->B" <> []) by discriminate.
  assert (H6 : without "]"%char (lit "graph LR; A-->B")) by reflexivity.
  assert (H7 : includes (lit "<CreatedAt>") (lit "graph LR; A-->B") = false)
    by reflexivity.
  refine (conj H1 (conj H2 (conj H3 (conj H4 (conj H5 (conj H6 (conj H7 _))))))).
  exact (proj1 (listing_shows_plain_code [] (lit "mermaid-7f3k2m9qz")
                  (lit "graph LR; A-->B") sampleNow H1 H2 H3 H4 H5 H6 H7)).
Defined.

(** ** The document host: the planned size and the printable area *)

Lemma whole_value (x : number) :
  isFinite x = true -> Math_round x = x ->
  exists n : Z, (valueOf x == inject_Z n)%Q.
Proof.
  intros F E. destruct (Math_round_value x F) as [_ V]. rewrite E in V.
  now exists (Qfloor (valueOf x + (1 # 2))).
Qed.

(** X8: for a diagram of ordinary size on a page whose printable extents
    are whole numbers of points between 144 and [2 ^ 32], the planner
    returns a width and a height that do not exceed the width and the
    height of the area between the margins. *)
Theorem planned_size_fits_printable_area
  (svgWidth svgHeight pageWidth pageHeight
   marginLeft marginRight marginTop marginBottom : number) :
  let availableWidth := (pageWidth - marginLeft - marginRight)%float in
  let availableHeight := (pageHeight - marginTop - marginBottom)%float in
  let size := WordInserter.calculateOptimalDiagramSize svgWidth svgHeight
                pageWidth pageHeight marginLeft marginRight marginTop marginBottom in
  within (pow2 (-64)) (pow2 64) svgWidth ->
  within (pow2 (-64)) (pow2 64) svgHeight ->
  within 144 (pow2 32) availableWidth -> Math_round availableWidth = availableWidth ->
  within 144 (pow2 32) availableHeight -> Math_round availableHeight = availableHeight ->
  isFinite (WordInserter.width size) = true /\
  isFinite (WordInserter.height size) = true /\
  (valueOf (WordInserter.width size) <= valueOf (Math_round availableWidth))%Q /\
  (valueOf (WordInserter.height size) <= valueOf (Math_round availableHeight))%Q.
Proof.
  intros aw ah size Hw Hh [Faw [Law Uaw]] Waw [Fah [Lah Uah]] Wah.
  destruct (aspect_near svgWidth svgHeight Hw Hh) as (Fr & R & V).
  cbv zeta in Fr, R, V.
  set (r := (valueOf svgWidth / valueOf svgHeight)%Q) in *.
  set (ratio := (svgWidth / svgHeight)%float) in *.
  set (v := valueOf ratio) in *.
  destruct (whole_value aw Faw Waw) as [nw Enw].
  destruct (whole_value ah Fah Wah) as [nh Enh].
  rewrite Waw, Wah.
  pose proof (pow2_pos (-128)) as P128.
  assert (P32 : (pow2 32 == 4294967296)%Q) by reflexivity.
  assert (B32 : (pow2 32 <= pow2 200)%Q) by (apply pow2_le; lia).
  assert (B128 : (2 * pow2 128 <= pow2 200)%Q).
  { rewrite <- pow2_succ. apply pow2_le. lia. }
  assert (B129 : (pow2 (-128) == 2 * pow2 (-129))%Q).
  { rewrite <- pow2_succ. reflexivity. }
  assert (B200 : (pow2 (-200) <= pow2 (-129))%Q) by (apply pow2_le; lia).
  pose proof (pow2_pos (-129)) as P129.
  assert (D : (0 < delta)%Q) by reflexivity.
  assert (D1 : (delta <= 1 # 2)%Q) by (unfold delta; discriminate).
  assert (Hr : (0 < r)%Q) by lra.
  assert (Hv : (pow2 (-129) <= v)%Q) by nra.
  assert (Hv' : (v <= 2 * pow2 128)%Q) by nra.
  pose proof tiny_le_slack as TS. pose proof tiny_pos as T0.
  (* the aspect ratio of the printable area *)
  destruct (div_near aw ah Faw Fah) as [Fa Na].
  { rewrite Qabs_pos by lra. lra. }
  { rewrite Qabs_pos by lra.
    apply Qle_trans with 144%Q; [|exact Lah].
    apply Qle_trans with (pow2 0); [apply pow2_le; lia|discriminate]. }
  set (q := (valueOf aw / valueOf ah)%Q) in *.
  assert (Eq : (q * valueOf ah == valueOf aw)%Q) by (unfold q; field; lra).
  assert (Hq : (pow2 (-1000) <= q)%Q).
  { apply Qle_trans with (pow2 (-32)); [apply pow2_le; lia|].
    unfold q. apply Qle_shift_div_l; [lra|].
    assert (E : (pow2 (-32) * pow2 32 == 1)%Q) by reflexivity.
    apply Qle_trans with (pow2 (-32) * pow2 32)%Q; [|lra].
    apply Qmult_le_l; [apply pow2_pos|lra]. }
  apply near_relative in Na; [|exact Hq].
  set (a := valueOf (aw / ah)) in *.
  assert (Hq0 : (0 < q)%Q) by (pose proof (pow2_pos (-1000)); lra).
  unfold size, WordInserter.calculateOptimalDiagramSize, WordInserter.targetSize.
  cbv zeta. fold aw ah ratio.
  destruct (aw / ah <? ratio)%float eqn:Wide; cbn [fst snd].
  - (* fitted to the width *)
    assert (S : (aw <? 144)%float = false).
    { apply (ltb_false_value aw 144 Faw eq_refl).
      assert (E : (valueOf 144 == 144)%Q) by reflexivity. now rewrite E. }
    rewrite S. cbn [andb fst snd WordInserter.width WordInserter.height].
    apply (ltb_value _ _ Fa Fr) in Wide. fold a v in Wide.
    destruct (div_near aw ratio Faw Fr) as [Fq Nq].
    { rewrite Qabs_pos by lra. lra. }
    { fold v. rewrite Qabs_pos by lra. lra. }
    fold v in Nq.
    set (u := (valueOf aw / v)%Q) in *.
    assert (Eu : (u * v == valueOf aw)%Q) by (unfold u; field; lra).
    assert (Hu0 : (0 <= u)%Q) by (unfold u; apply Qle_shift_div_l; lra).
    rewrite (Qabs_pos u) in Nq by exact Hu0.
    apply Qabs_Qle_condition in Nq.
    assert (Hu : (u * (1 - delta) <= valueOf ah)%Q).
    { apply Qmult_le_r with q; [exact Hq0|].
      assert (M : (0 <= u * (v - (1 - delta) * q))%Q)
        by (apply Qmult_le_0_compat; lra).
      unfold delta in *. lra. }
    rewrite Waw.
    split; [exact Faw|]. split; [apply (Math_round_value _ Fq)|].
    split; [lra|].
    rewrite Enh. apply Math_round_ceiling; [exact Fq|]. rewrite <- Enh.
    unfold eps, delta, slack in *. lra.
  - (* fitted to the height *)
    assert (S : (ah <? 144)%float = false).
    { apply (ltb_false_value ah 144 Fah eq_refl).
      assert (E : (valueOf 144 == 144)%Q) by reflexivity. now rewrite E. }
    rewrite S, andb_false_r. cbn [fst snd WordInserter.width WordInserter.height].
    apply (ltb_false_value _ _ Fa Fr) in Wide. fold a v in Wide.
    destruct (mul_near ah ratio Fah Fr) as [Fp Np].
    { rewrite Qabs_pos by lra. lra. }
    { fold v. rewrite Qabs_pos by lra. lra. }
    fold v in Np.
    assert (Hp0 : (0 <= valueOf ah * v)%Q) by (apply Qmult_le_0_compat; lra).
    rewrite (Qabs_pos _ Hp0) in Np.
    apply Qabs_Qle_condition in Np.
    assert (Hp : (valueOf ah * v <= (1 + delta) * valueOf aw)%Q).
    { assert (M : (0 <= valueOf ah * ((1 + delta) * q - v))%Q)
        by (apply Qmult_le_0_compat; lra).
      unfold delta in *. lra. }
    rewrite Wah.
    split; [apply (Math_round_value _ Fp)|]. split; [exact Fah|].
    split; [|lra].
    rewrite Enw. apply Math_round_ceiling; [exact Fp|]. rewrite <- Enw.
    unfold eps, delta, slack in *. lra.
Qed.

(** Why the extents have to be whole: on a printable area one unit in the
    last place below 326.5 points wide and 648 high, a diagram of that very
    size is given a width of 327, above the rounded width 326 of the area
    (the product of the height and the computed ratio rounds up to
    326.5). *)
Example planner_overshoots_fractional_area :
  let size := WordInserter.calculateOptimalDiagramSize
                0x1.467ffffffffffp+8 648 0x1.d67ffffffffffp+8 792 72 72 72 72 in
  (0x1.d67ffffffffffp+8 - 72 - 72 = 0x1.467ffffffffffp+8)%float /\
  WordInserter.width size = 327%float /\
  Math_round 0x1.467ffffffffffp+8 = 326%float.
Proof. repeat split; vm_compute; reflexivity. Qed.

Lemma planned_size_fits_printable_area_witness :
  within (pow2 (-64)) (pow2 64) 1000%float /\
  within (pow2 (-64)) (pow2 64) 700%float /\
  within 144 (pow2 32) (612 - 72 - 72)%float /\
  Math_round (612 - 72 - 72) = (612 - 72 - 72)%float /\
  within 144 (pow2 32) (792 - 72 - 72)%float /\
  Math_round (792 - 72 - 72) = (792 - 72 - 72)%float /\
  let size := WordInserter.calculateOptimalDiagramSize 1000 700 612 792 72 72 72 72 in
  isFinite (WordInserter.width size) = true /\
  isFinite (WordInserter.height size) = true /\
  (valueOf (WordInserter.width size) <= valueOf (Math_round (612 - 72 - 72)))%Q /\
  (valueOf (WordInserter.height size) <= valueOf (Math_round (792 - 72 - 72)))%Q.
Proof.
  assert (H1 : within (pow2 (-64)) (pow2 64) 1000%float)
    by (split; [reflexivity|split; vm_compute; discriminate]).
  assert (H2 : within (pow2 (-64)) (pow2 64) 700%float)
    by (split; [reflexivity|split; vm_compute; discriminate]).
  assert (H3 : within 144 (pow2 32) (612 - 72 - 72)%float)
    by (split; [reflexivity|split; vm_compute; discriminate]).
  assert (H4 : Math_round (612 - 72 - 72) = (612 - 72 - 72)%float)
    by (vm_compute; reflexivity).
  assert (H5 : within 144 (pow2 32) (792 - 72 - 72)%float)
    by (split; [reflexivity|split; vm_compute; discriminate]).
  assert (H6 : Math_round (792 - 72 - 72) = (792 - 72 - 72)%float)
    by (vm_compute; reflexivity).
  refine (conj H1 (conj H2 (conj H3 (conj H4 (conj H5 (conj H6 _)))))).
  exact (planned_size_fits_printable_area 1000 700 612 792 72 72 72 72
           H1 H2 H3 H4 H5 H6).
Defined.

(** ** The shape matcher: symmetry and unreadable descriptors *)

Lemma position_symmetric (a b t : number) :
  (Math_abs (a - b) <=? t)%float = (Math_abs (b - a) <=? t)%float.
Proof. now rewrite Math_abs_sub_sym. Qed.

Lemma ratio_symmetric (a b : number) : Matcher.sizeRatio a b = Matcher.sizeRatio b a.
Proof.
  unfold Matcher.sizeRatio. now rewrite (Math_min_comm a b), (Math_max_comm a b).
Qed.

(** X9: the shape matcher is symmetric: the answer does not depend on which
    of the two descriptors is given first. *)
Theorem matcher_is_symmetric {P : Platform} (info1 info2 : str) :
  Matcher.shapesApproximatelyMatch info1 info2 =
  Matcher.shapesApproximatelyMatch info2 info1.
Proof.
  unfold Matcher.shapesApproximatelyMatch.
  destruct (map parseFloat (splitUnit ","%char info1))
    as [|l1 [|t1 [|w1 [|h1 [|? ?]]]]];
  destruct (map parseFloat (splitUnit ","%char info2))
    as [|l2 [|t2 [|w2 [|h2 [|? ?]]]]];
  try reflexivity.
  cbv zeta.
  rewrite (position_symmetric l1 l2), (position_symmetric t1 t2).
  now rewrite (ratio_symmetric w1 w2), (ratio_symmetric h1 h2).
Qed.

Lemma position_NaN (a b t : number) :
  isNaN a = true -> (Math_abs (a - b) <=? t)%float = false.
Proof.
  intros H. apply leb_NaN_l, isNaN_abs, isNaN_sub_l, H.
Qed.

Lemma ratio_NaN (a b t : number) :
  isNaN a = true -> (t <=? Matcher.sizeRatio a b)%float = false.
Proof.
  intros H. apply leb_NaN_r. unfold Matcher.sizeRatio.
  apply isNaN_div_l, isNaN_min_l, H.
Qed.

(** X10: a descriptor that does not have exactly four comma-separated
    fields, or one of whose fields reads as [NaN], matches no descriptor at
    all, itself included. *)
Theorem matcher_rejects_unreadable {P : Platform} (info1 info2 : str) :
  length (splitUnit ","%char info1) <> 4 \/
  existsb isNaN (map parseFloat (splitUnit ","%char info1)) = true ->
  Matcher.shapesApproximatelyMatch info1 info2 = false /\
  Matcher.shapesApproximatelyMatch info2 info1 = false.
Proof.
  intros H. unfold Matcher.shapesApproximatelyMatch.
  rewrite <- (length_map parseFloat) in H.
  destruct (map parseFloat (splitUnit ","%char info1))
    as [|l1 [|t1 [|w1 [|h1 [|? ?]]]]];
  destruct (map parseFloat (splitUnit ","%char info2))
    as [|l2 [|t2 [|w2 [|h2 [|? ?]]]]];
  try (split; reflexivity).
  destruct H as [H|H]; [now contradiction H|].
  cbv zeta.
  rewrite (position_symmetric l2 l1), (position_symmetric t2 t1),
          (ratio_symmetric w2 w1), (ratio_symmetric h2 h1).
  assert (G : (if negb (Math_abs (l1 - l2) <=? 5)%float
                  || negb (Math_abs (t1 - t2) <=? 5)%float
               then false
               else if negb (1 - 0.5 <=? Matcher.sizeRatio w1 w2)%float
                       || negb (1 - 0.5 <=? Matcher.sizeRatio h1 h2)%float
                    then false else true) = false).
  { cbn [existsb] in H. rewrite orb_false_r in H.
    apply orb_true_iff in H. destruct H as [H|H];
      [now rewrite (position_NaN _ _ _ H)|].
    apply orb_true_iff in H. destruct H as [H|H];
      [rewrite (position_NaN t1 t2 _ H); cbn [negb]; now rewrite orb_true_r|].
    destruct (negb _ || negb _); [reflexivity|].
    apply orb_true_iff in H. destruct H as [H|H].
    - now rewrite (ratio_NaN _ _ _ H).
    - rewrite (ratio_NaN h1 h2 _ H). cbn [negb]. now rewrite orb_true_r. }
  split; exact G.
Qed.

Lemma matcher_rejects_unreadable_witness :
  (length (splitUnit ","%char (lit "10,x,100,100")) <> 4 \/
   existsb isNaN (map (parseFloat (Platform := Sample.platform))
                    (splitUnit ","%char (lit "10,x,100,100"))) = true) /\
  Matcher.shapesApproximatelyMatch (P := Sample.platform)
    (lit "10,x,100,100") (lit "10,10,100,100") = false /\
  Matcher.shapesApproximatelyMatch (P := Sample.platform)
    (lit "10,10,100,100") (lit "10,x,100,100") = false.
Proof.
  assert (H1 : length (splitUnit ","%char (lit "10,x,100,100")) <> 4 \/
               existsb isNaN (map (parseFloat (Platform := Sample.platform))
                                (splitUnit ","%char (lit "10,x,100,100"))) = true)
    by (right; vm_compute; reflexivity).
  refine (conj H1 _).
  exact (matcher_rejects_unreadable (P := Sample.platform)
           (lit "10,x,100,100") (lit "10,10,100,100") H1).
Defined.

(** ** The presentation host: what [insertDiagram] reports *)

(** X11: outside an Office context [insertDiagram] of the presentation host
    returns without any effect.  Inside, whatever the host answers, it
    either returns, or throws the message that the image is on the
    clipboard, or throws the one general failure message; no other message
    reaches the caller.  When it returns, an image was placed and a record
    was stored; the clipboard message is thrown only after the clipboard
    was written; the failure message is thrown only with nothing written
    to the clipboard. *)
Theorem insertDiagram_reports_three_outcomes {P : Platform}
  (naturalSize : str -> number * number) (isOfficeContext : bool)
  (host : PowerPoint.InsertionAnswers) (diagramId mermaidCode svgContent : str) :
  let r := PowerPoint.insertDiagram naturalSize isOfficeContext host
             diagramId mermaidCode svgContent in
  (isOfficeContext = false -> r = (Returned tt, [])) /\
  (fst r = Returned tt \/
   fst r = Thrown PowerPoint.clipboardSuccess \/
   fst r = Thrown PowerPoint.insertionFailed) /\
  (isOfficeContext = true -> fst r = Returned tt ->
   (exists data w h, In (PowerPoint.ImagePlaced data 50 50 w h) (snd r)) /\
   (In (PowerPoint.RecordStoredAfterInsertion diagramId mermaidCode) (snd r) \/
    In (PowerPoint.RecordStored diagramId mermaidCode) (snd r))) /\
  (fst r = Thrown PowerPoint.clipboardSuccess ->
   exists data, In (PowerPoint.ClipboardWritten data) (snd r)) /\
  (fst r = Thrown PowerPoint.insertionFailed ->
   forall data, ~ In (PowerPoint.ClipboardWritten data) (snd r)).
Proof.
  cbv zeta. destruct isOfficeContext.
  2:{ cbn. repeat split; auto; try discriminate. }
  unfold PowerPoint.insertDiagram, PowerPoint.primaryInsertion,
    PowerPoint.fallbackInsertion, PowerPoint.copyPngToClipboard,
    PowerPoint.setSelectedData.
  cbn [negb].
  destruct (fst (PowerPoint.svgToPng naturalSize svgContent)) as [png|m];
  destruct host as [[[|n]|m1] [|] [|m2] [u|m3] [|m4] [u'|m5] [u''|m6]];
  cbn;
  repeat split; intros;
  try discriminate; auto;
  try (repeat eexists; cbn; eauto; fail);
  try (intuition discriminate).
Qed.

(** X12: when the image has been placed and the storage of its record then
    fails, the failure is not reported: the fallback places the image a
    second time, as a data URL; when the host accepts that second placement
    and [storeDiagramData] then succeeds, the call returns normally,
    leaving two images on the slide and one record. *)
Theorem insertDiagram_storage_failure_places_twice {P : Platform}
  (naturalSize : str -> number * number) (host : PowerPoint.InsertionAnswers)
  (diagramId mermaidCode svgContent storageError : str)
  (pngResult : PowerPoint.PngResult) (others : nat) :
  fst (PowerPoint.svgToPng naturalSize svgContent) = Returned pngResult ->
  PowerPoint.selectedSlideCount host = Returned (S others) ->
  PowerPoint.officeDocument host = true ->
  PowerPoint.firstPlacement host = PowerPoint.Succeeded ->
  PowerPoint.storedAfterInsertion host = Thrown storageError ->
  PowerPoint.secondPlacement host = PowerPoint.Succeeded ->
  PowerPoint.storedData host = Returned tt ->
  PowerPoint.insertDiagram naturalSize true host diagramId mermaidCode svgContent
  = (Returned tt,
     [PowerPoint.ImagePlaced (PowerPoint.base64 pngResult) 50 50
        (PowerPoint.naturalWidth pngResult)
        (PowerPoint.naturalHeight pngResult);
      PowerPoint.ImagePlaced
        (lit "data:image/png;base64," ++ PowerPoint.base64 pngResult) 50 50
        (PowerPoint.naturalWidth pngResult)
        (PowerPoint.naturalHeight pngResult);
      PowerPoint.RecordStored diagramId mermaidCode]).
Proof.
  intros Hpng Hslides Hdoc Hfirst Hstore Hsecond Hdata.
  unfold PowerPoint.insertDiagram, PowerPoint.primaryInsertion,
    PowerPoint.fallbackInsertion, PowerPoint.setSelectedData.
  now rewrite Hpng, Hslides, Hdoc, Hfirst, Hstore, Hsecond, Hdata.
Qed.

Lemma insertDiagram_storage_failure_places_twice_witness :
  fst (PowerPoint.svgToPng (P := Sample.platform) (fun _ => (800, 600)%float)
         (lit "<svg viewBox='0 0 800 600'></svg>"))
    = Returned {| PowerPoint.base64 := lit "iVBORw0KGgo=";
                  PowerPoint.naturalWidth := 800;
                  PowerPoint.naturalHeight := 600 |} /\
  fst (PowerPoint.insertDiagram (P := Sample.platform) (fun _ => (800, 600)%float) true
         {| PowerPoint.selectedSlideCount := Returned 1;
            PowerPoint.officeDocument := true;
            PowerPoint.firstPlacement := PowerPoint.Succeeded;
            PowerPoint.storedAfterInsertion := Thrown (lit "Error: GeneralException");
            PowerPoint.secondPlacement := PowerPoint.Succeeded;
            PowerPoint.storedData := Returned tt;
            PowerPoint.clipboardWritten := Returned tt |}
         (lit "mermaid_1714557600000_k3j9x0q1a") sampleCode
         (lit "<svg viewBox='0 0 800 600'></svg>"))
    = Returned tt.
Proof.
  assert (H1 : fst (PowerPoint.svgToPng (P := Sample.platform)
                      (fun _ => (800, 600)%float)
                      (lit "<svg viewBox='0 0 800 600'></svg>"))
               = Returned {| PowerPoint.base64 := lit "iVBORw0KGgo=";
                             PowerPoint.naturalWidth := 800;
                             PowerPoint.naturalHeight := 600 |})
    by reflexivity.
  refine (conj H1 _).
  exact (f_equal fst
           (insertDiagram_storage_failure_places_twice (P := Sample.platform)
              (fun _ => (800, 600)%float)
              {| PowerPoint.selectedSlideCount := Returned 1;
                 PowerPoint.officeDocument := true;
                 PowerPoint.firstPlacement := PowerPoint.Succeeded;
                 PowerPoint.storedAfterInsertion :=
                   Thrown (lit "Error: GeneralException");
                 PowerPoint.secondPlacement := PowerPoint.Succeeded;
                 PowerPoint.storedData := Returned tt;
                 PowerPoint.clipboardWritten := Returned tt |}
              (lit "mermaid_1714557600000_k3j9x0q1a") sampleCode
              (lit "<svg viewBox='0 0 800 600'></svg>")
              (lit "Error: GeneralException") _ 0
              H1 eq_refl eq_refl eq_refl eq_refl eq_refl eq_refl)).
Defined.

(** X13: markup that cannot be turned into an image ends every attempt of
    [insertDiagram]: whatever the host answers, the call throws the general
    failure message and has placed, stored and copied nothing. *)
Theorem insertDiagram_without_image_does_nothing {P : Platform}
  (naturalSize : str -> number * number) (host : PowerPoint.InsertionAnswers)
  (diagramId mermaidCode svgContent message : str) :
  fst (PowerPoint.svgToPng naturalSize svgContent) = Thrown message ->
  PowerPoint.insertDiagram naturalSize true host diagramId mermaidCode svgContent
  = (Thrown PowerPoint.insertionFailed, []).
Proof.
  intros Hpng.
  unfold PowerPoint.insertDiagram, PowerPoint.primaryInsertion,
    PowerPoint.fallbackInsertion, PowerPoint.copyPngToClipboard.
  rewrite Hpng. reflexivity.
Qed.

Lemma insertDiagram_without_image_does_nothing_witness :
  fst (PowerPoint.svgToPng (P := Sample.platform) (fun _ => (0, 0)%float)
         (lit "graph TD")) = Thrown (lit "Failed to load diagram image") /\
  PowerPoint.insertDiagram (P := Sample.platform) (fun _ => (0, 0)%float) true
    {| PowerPoint.selectedSlideCount := Returned 1;
       PowerPoint.officeDocument := true;
       PowerPoint.firstPlacement := PowerPoint.Succeeded;
       PowerPoint.storedAfterInsertion := Returned tt;
       PowerPoint.secondPlacement := PowerPoint.Succeeded;
       PowerPoint.storedData := Returned tt;
       PowerPoint.clipboardWritten := Returned tt |}
    (lit "mermaid_1714557600000_k3j9x0q1a") (lit "graph TD") (lit "graph TD")
  = (Thrown PowerPoint.insertionFailed, []).
Proof.
  assert (H1 : fst (PowerPoint.svgToPng (P := Sample.platform) (fun _ => (0, 0)%float)
                      (lit "graph TD"))
               = Thrown (lit "Failed to load diagram image")) by reflexivity.
  refine (conj H1 _).
  exact (insertDiagram_without_image_does_nothing (P := Sample.platform)
           (fun _ => (0, 0)%float) _ _ _ _ _ H1).
Defined.

(** ** The presentation host: replacing the image of a diagram *)

Lemma findShape_none (items : list PowerPoint.Shape) (j : nat) (diagramId : str) :
  Forall (fun s => PowerPoint.carriesDiagram diagramId s = false) items ->
  PowerPoint.findShape items j diagramId = None.
Proof.
  intros H. revert j. induction H as [|s items Hs _ IH]; intros j; [reflexivity|].
  cbn [PowerPoint.findShape]. rewrite Hs. apply IH.
Qed.

Lemma findShape_first (pre post : list PowerPoint.Shape) (target : PowerPoint.Shape)
  (j : nat) (diagramId : str) :
  Forall (fun s => PowerPoint.carriesDiagram diagramId s = false) pre ->
  PowerPoint.carriesDiagram diagramId target = true ->
  PowerPoint.findShape (pre ++ target :: post) j diagramId
  = Some (j + length pre, target).
Proof.
  intros H Ht. revert j. induction H as [|s pre Hs _ IH]; intros j.
  - cbn. rewrite Ht. now rewrite Nat.add_0_r.
  - cbn [app PowerPoint.findShape]. rewrite Hs, IH. cbn [length].
    now rewrite Nat.add_succ_r.
Qed.

Lemma findTarget_none (slides : list PowerPoint.Slide) (i : nat) (diagramId : str) :
  Forall (fun slide =>
            Forall (fun s => PowerPoint.carriesDiagram diagramId s = false)
              (PowerPoint.shapes slide)) slides ->
  PowerPoint.findTarget slides i diagramId = None.
Proof.
  intros H. revert i. induction H as [|slide slides Hs _ IH]; intros i;
    [reflexivity|].
  cbn [PowerPoint.findTarget]. rewrite (findShape_none _ _ _ Hs). apply IH.
Qed.

Lemma findTarget_first (before after : list PowerPoint.Slide)
  (pre post : list PowerPoint.Shape) (target : PowerPoint.Shape)
  (i : nat) (diagramId : str) :
  Forall (fun slide =>
            Forall (fun s => PowerPoint.carriesDiagram diagramId s = false)
              (PowerPoint.shapes slide)) before ->
  Forall (fun s => PowerPoint.carriesDiagram diagramId s = false) pre ->
  PowerPoint.carriesDiagram diagramId target = true ->
  PowerPoint.findTarget
    (before ++ {| PowerPoint.shapes := pre ++ target :: post |} :: after)
    i diagramId
  = Some (i + length before, length pre, target).
Proof.
  intros H Hpre Ht. revert i. induction H as [|slide before Hs _ IH]; intros i.
  - cbn [app PowerPoint.findTarget PowerPoint.shapes].
    rewrite (findShape_first _ _ _ _ _ Hpre Ht). cbn [length].
    now rewrite Nat.add_0_r.
  - cbn [app PowerPoint.findTarget]. rewrite (findShape_none _ _ _ Hs), IH.
    cbn [length]. now rewrite Nat.add_succ_r.
Qed.

(** X14: when no shape of the presentation carries the identifier in a
    [mermaid_diagram_id] tag, [updateDiagram] of the presentation host
    throws and touches nothing: no shape is deleted, no image is placed and
    the store is as before.  With markup that can be turned into an image
    the message is the one of the missing shape. *)
Theorem updateDiagram_without_target_touches_nothing {P : Platform}
  (naturalSize : str -> number * number) (slides : list PowerPoint.Slide)
  (officeDocument : bool) (placement : PowerPoint.AsyncResult) (retagged : bool)
  (st : store) (diagramId mermaidCode svgContent now : str) :
  Forall (fun slide =>
            Forall (fun s => PowerPoint.carriesDiagram diagramId s = false)
              (PowerPoint.shapes slide)) slides ->
  let r := PowerPoint.updateDiagram naturalSize true slides officeDocument
             placement retagged st diagramId mermaidCode svgContent now in
  (exists message, r = (Thrown message, [], st)) /\
  (forall pngResult,
     fst (PowerPoint.svgToPng naturalSize svgContent) = Returned pngResult ->
     r = (Thrown PowerPoint.shapeNotFound, [], st)).
Proof.
  intros H. cbv zeta. unfold PowerPoint.updateDiagram. cbn [negb].
  rewrite (findTarget_none _ _ _ H).
  destruct (fst (PowerPoint.svgToPng naturalSize svgContent)) as [png|m].
  - split; [now eexists|reflexivity].
  - split; [now eexists|discriminate].
Qed.

Lemma updateDiagram_without_target_touches_nothing_witness :
  Forall (fun slide =>
            Forall (fun s => PowerPoint.carriesDiagram
                               (lit "mermaid-7f3k2m9qz") s = false)
              (PowerPoint.shapes slide))
    [{| PowerPoint.shapes := [plainShape] |}] /\
  PowerPoint.updateDiagram (P := Sample.platform) (fun _ => (800, 600)%float) true
    [{| PowerPoint.shapes := [plainShape] |}] true PowerPoint.Succeeded true
    [sampleOld] (lit "mermaid-7f3k2m9qz") (lit "graph LR")
    (lit "<svg viewBox='0 0 800 600'></svg>") sampleNow
  = (Thrown PowerPoint.shapeNotFound, [], [sampleOld]).
Proof.
  assert (H1 : Forall (fun slide =>
                         Forall (fun s => PowerPoint.carriesDiagram
                                            (lit "mermaid-7f3k2m9qz") s = false)
                           (PowerPoint.shapes slide))
                 [{| PowerPoint.shapes := [plainShape] |}])
    by (repeat constructor).
  refine (conj H1 _).
  exact (proj2 (updateDiagram_without_target_touches_nothing
                  (P := Sample.platform) (fun _ => (800, 600)%float)
                  [{| PowerPoint.shapes := [plainShape] |}] true
                  PowerPoint.Succeeded true [sampleOld]
                  (lit "mermaid-7f3k2m9qz") (lit "graph LR")
                  (lit "<svg viewBox='0 0 800 600'></svg>") sampleNow H1)
           _ eq_refl).
Defined.

(** X15: [updateDiagram] of the presentation host replaces the first shape
    that carries the identifier, in place: that shape is deleted, and the
    new image is then placed at the left, top, width and height of the
    deleted shape, not at the natural size of the new image; the store
    goes through [updateDiagramData], whose result is the result of the
    call. *)
Theorem updateDiagram_replaces_in_place {P : Platform}
  (naturalSize : str -> number * number) (before after : list PowerPoint.Slide)
  (pre post : list PowerPoint.Shape) (target : PowerPoint.Shape)
  (retagged : bool) (st : store) (diagramId mermaidCode svgContent now : str)
  (pngResult : PowerPoint.PngResult) :
  Forall (fun slide =>
            Forall (fun s => PowerPoint.carriesDiagram diagramId s = false)
              (PowerPoint.shapes slide)) before ->
  Forall (fun s => PowerPoint.carriesDiagram diagramId s = false) pre ->
  PowerPoint.carriesDiagram diagramId target = true ->
  fst (PowerPoint.svgToPng naturalSize svgContent) = Returned pngResult ->
  PowerPoint.updateDiagram naturalSize true
    (before ++ {| PowerPoint.shapes := pre ++ target :: post |} :: after)
    true PowerPoint.Succeeded retagged st diagramId mermaidCode svgContent now
  = (fst (PowerPoint.updateDiagramData st diagramId mermaidCode now),
     PowerPoint.ShapeDeleted (length before) (length pre) ::
     PowerPoint.ImagePlaced (PowerPoint.base64 pngResult)
       (PowerPoint.left target) (PowerPoint.top target)
       (PowerPoint.width target) (PowerPoint.height target) ::
     (if retagged then [PowerPoint.TagAdded diagramId] else []),
     snd (PowerPoint.updateDiagramData st diagramId mermaidCode now)).
Proof.
  intros Hbefore Hpre Htarget Hpng.
  unfold PowerPoint.updateDiagram. cbn [negb].
  rewrite Hpng, (findTarget_first _ _ _ _ _ _ _ Hbefore Hpre Htarget).
  reflexivity.
Qed.

Lemma updateDiagram_replaces_in_place_witness :
  Forall (fun s => PowerPoint.carriesDiagram (lit "mermaid-7f3k2m9qz") s = false)
    [plainShape] /\
  PowerPoint.carriesDiagram (lit "mermaid-7f3k2m9qz") taggedShape = true /\
  snd (fst (PowerPoint.updateDiagram (P := Sample.platform)
              (fun _ => (800, 600)%float) true
              ([] ++ {| PowerPoint.shapes := [plainShape] ++ taggedShape :: [] |}
                  :: [])
              true PowerPoint.Succeeded true [sampleOld]
              (lit "mermaid-7f3k2m9qz") (lit "graph LR")
              (lit "<svg viewBox='0 0 800 600'></svg>") sampleNow))
  = [PowerPoint.ShapeDeleted 0 1;
     PowerPoint.ImagePlaced (lit "iVBORw0KGgo=") 50 50 600 450;
     PowerPoint.TagAdded (lit "mermaid-7f3k2m9qz")].
Proof.
  assert (H1 : Forall (fun s => PowerPoint.carriesDiagram
                                  (lit "mermaid-7f3k2m9qz") s = false)
                 [plainShape]) by (repeat constructor).
  assert (H2 : PowerPoint.carriesDiagram (lit "mermaid-7f3k2m9qz") taggedShape
               = true) by reflexivity.
  refine (conj H1 (conj H2 _)).
  exact (f_equal (fun r => snd (fst r))
           (updateDiagram_replaces_in_place (P := Sample.platform)
              (fun _ => (800, 600)%float) [] [] [plainShape] [] taggedShape true
              [sampleOld] (lit "mermaid-7f3k2m9qz") (lit "graph LR")
              (lit "<svg viewBox='0 0 800 600'></svg>") sampleNow
              {| PowerPoint.base64 := lit "iVBORw0KGgo=";
                 PowerPoint.naturalWidth := 800;
                 PowerPoint.naturalHeight := 600 |}
              (Forall_nil _) H1 H2 eq_refl)).
Defined.

(** X16: when the host refuses the new image, [updateDiagram] of the
    presentation host has already deleted the old shape: the call throws,
    the only effect is the deletion, and the store still holds the old
    record. *)
Theorem updateDiagram_refused_image_loses_shape {P : Platform}
  (naturalSize : str -> number * number) (before after : list PowerPoint.Slide)
  (pre post : list PowerPoint.Shape) (target : PowerPoint.Shape)
  (officeDocument retagged : bool) (reason : option str)
  (st : store) (diagramId mermaidCode svgContent now : str)
  (pngResult : PowerPoint.PngResult) :
  Forall (fun slide =>
            Forall (fun s => PowerPoint.carriesDiagram diagramId s = false)
              (PowerPoint.shapes slide)) before ->
  Forall (fun s => PowerPoint.carriesDiagram diagramId s = false) pre ->
  PowerPoint.carriesDiagram diagramId target = true ->
  fst (PowerPoint.svgToPng naturalSize svgContent) = Returned pngResult ->
  exists message,
    PowerPoint.updateDiagram naturalSize true
      (before ++ {| PowerPoint.shapes := pre ++ target :: post |} :: after)
      officeDocument (PowerPoint.Failed reason) retagged st
      diagramId mermaidCode svgContent now
    = (Thrown message,
       [PowerPoint.ShapeDeleted (length before) (length pre)], st).
Proof.
  intros Hbefore Hpre Htarget Hpng.
  unfold PowerPoint.updateDiagram, PowerPoint.setSelectedData. cbn [negb].
  rewrite Hpng, (findTarget_first _ _ _ _ _ _ _ Hbefore Hpre Htarget).
  destruct officeDocument; eexists; reflexivity.
Qed.

Lemma updateDiagram_refused_image_loses_shape_witness :
  Forall (fun s => PowerPoint.carriesDiagram (lit "mermaid-7f3k2m9qz") s = false)
    [plainShape] /\
  PowerPoint.carriesDiagram (lit "mermaid-7f3k2m9qz") taggedShape = true /\
  exists message,
    PowerPoint.updateDiagram (P := Sample.platform) (fun _ => (800, 600)%float) true
      ([] ++ {| PowerPoint.shapes := [plainShape] ++ taggedShape :: [] |} :: [])
      true (PowerPoint.Failed None) true [sampleOld]
      (lit "mermaid-7f3k2m9qz") (lit "graph LR")
      (lit "<svg viewBox='0 0 800 600'></svg>") sampleNow
    = (Thrown message, [PowerPoint.ShapeDeleted (length (@nil PowerPoint.Slide))
                          (length [plainShape])], [sampleOld]).
Proof.
  assert (H1 : Forall (fun s => PowerPoint.carriesDiagram
                                  (lit "mermaid-7f3k2m9qz") s = false)
                 [plainShape]) by (repeat constructor).
  assert (H2 : PowerPoint.carriesDiagram (lit "mermaid-7f3k2m9qz") taggedShape
               = true) by reflexivity.
  refine (conj H1 (conj H2 _)).
  exact (updateDiagram_refused_image_loses_shape (P := Sample.platform)
           (fun _ => (800, 600)%float) [] [] [plainShape] [] taggedShape true true
           None [sampleOld] (lit "mermaid-7f3k2m9qz") (lit "graph LR")
           (lit "<svg viewBox='0 0 800 600'></svg>") sampleNow
           {| PowerPoint.base64 := lit "iVBORw0KGgo=";
              PowerPoint.naturalWidth := 800;
              PowerPoint.naturalHeight := 600 |}
           (Forall_nil _) H1 H2 eq_refl).
Defined.

(** ** The settings block: loading *)

Lemma loadLoop_skip {P : Platform} (parseInt : str -> option Z)
  (kept rest : store) :
  Forall (fun xml => keepsPart xml = true) kept ->
  Settings.loadLoop parseInt (kept ++ rest) = Settings.loadLoop parseInt rest.
Proof.
  induction 1 as [|xml kept Hxml _ IH]; [reflexivity|].
  cbn [app Settings.loadLoop]. rewrite isSettingsPart_includes.
  unfold keepsPart in Hxml. apply negb_true_iff in Hxml. now rewrite Hxml.
Qed.

Lemma filter_keepsPart_kept (st : store) :
  Forall (fun xml => keepsPart xml = true) (filter keepsPart st).
Proof.
  apply Forall_forall. intros xml Hin. now apply filter_In in Hin.
Qed.

(** X17: after [saveSettings] on the presentation host or on the document
    host, [loadSettings] reads the block that was just written, whatever
    settings blocks and diagram records the store held before: the result
    is what the loader makes of that block, or the default settings when
    the loader cannot read it. *)
Theorem loadSettings_reads_the_saved_block {P : Platform}
  (parseInt : str -> option Z) (platform : Settings.OfficePlatform)
  (settings : Settings.MermaidSettings) (now : str) (st : store) :
  platform = Settings.PowerPoint \/ platform = Settings.Word ->
  Settings.loadSettings parseInt true platform
    (snd (Settings.saveSettings true platform settings now st))
  = match Settings.readSettings parseInt (Settings.settingsXml settings now) with
    | Some loadedSettings => loadedSettings
    | None => Settings.defaultSettings
    end.
Proof.
  intros Hplatform.
  assert (E : snd (Settings.saveSettings true platform settings now st)
              = filter keepsPart st ++ [Settings.settingsXml settings now]).
  { unfold Settings.saveSettings, add. cbn [negb].
    rewrite removeExisting_filter. now destruct Hplatform as [-> | ->]. }
  rewrite E.
  assert (L : Settings.loadSettings parseInt true platform
                (filter keepsPart st ++ [Settings.settingsXml settings now])
              = Settings.loadLoop parseInt
                  (filter keepsPart st ++ [Settings.settingsXml settings now]))
    by now destruct Hplatform as [-> | ->].
  rewrite L, (loadLoop_skip _ _ _ (filter_keepsPart_kept st)).
  cbn [Settings.loadLoop].
  now rewrite isSettingsPart_includes, settingsXml_root.
Qed.

Lemma loadSettings_reads_the_saved_block_witness :
  (Settings.Word = Settings.PowerPoint \/ Settings.Word = Settings.Word) /\
  Settings.loadSettings (P := Sample.platform) Sample.readInteger true Settings.Word
    (snd (Settings.saveSettings true Settings.Word sampleSettings sampleNow
            twiceSaved))
  = match Settings.readSettings (P := Sample.platform) Sample.readInteger
            (Settings.settingsXml sampleSettings sampleNow) with
    | Some loadedSettings => loadedSettings
    | None => Settings.defaultSettings
    end.
Proof.
  assert (H : Settings.Word = Settings.PowerPoint \/ Settings.Word = Settings.Word)
    by (right; reflexivity).
  refine (conj H _).
  exact (loadSettings_reads_the_saved_block (P := Sample.platform)
           Sample.readInteger Settings.Word sampleSettings sampleNow twiceSaved H).
Defined.

Lemma orDefault_not_empty (text : option str) (fallback : str) :
  fallback <> [] -> Settings.orDefault text fallback <> [].
Proof.
  intros H. unfold Settings.orDefault.
  destruct text as [[|c t]|]; cbn [isEmpty]; [exact H|discriminate|exact H].
Qed.

(** The fields that [loadSettings] never leaves empty. *)
Lemma readSettings_populated {P : Platform} (parseInt : str -> option Z)
  (xml : str) (loaded : Settings.LoadedSettings) :
  Settings.readSettings parseInt xml = Some loaded ->
  Settings.loadedFontFamily loaded <> [] /\
  Settings.loadedFontSize loaded <> 0%Z /\
  Settings.loadedPrimaryColor loaded <> [] /\
  Settings.loadedPrimaryTextColor loaded <> [] /\
  Settings.loadedPrimaryBorderColor loaded <> [] /\
  Settings.loadedLineColor loaded <> [] /\
  Settings.loadedBackgroundColor loaded <> [] /\
  Settings.loadedSecondaryColor loaded <> [] /\
  Settings.loadedTertiaryColor loaded <> [] /\
  Settings.loadedTheme loaded <> [].
Proof.
  unfold Settings.readSettings.
  destruct (textContentOf (lit "parsererror") xml); [discriminate|].
  destruct (textContentOf (lit "FontFamily") xml) as [ff|]; [|discriminate].
  destruct (textContentOf (lit "FontSize") xml) as [fs|]; [|discriminate].
  destruct (textContentOf (lit "PrimaryColor") xml) as [pc|]; [|discriminate].
  intros [= <-].
  cbn [Settings.loadedFontFamily Settings.loadedFontSize
       Settings.loadedPrimaryColor Settings.loadedPrimaryTextColor
       Settings.loadedPrimaryBorderColor Settings.loadedLineColor
       Settings.loadedBackgroundColor Settings.loadedSecondaryColor
       Settings.loadedTertiaryColor Settings.loadedTheme].
  repeat split; try (apply orDefault_not_empty; discriminate).
  - now destruct ff.
  - match goal with
    | |- context [parseInt ?t] => destruct (parseInt t) as [n|]
    end; [|discriminate].
    destruct (n =? 0)%Z eqn:E; [discriminate|].
    now apply Z.eqb_neq in E.
  - now destruct pc.
Qed.

(** X18: whatever the store holds and whatever the parser makes of it,
    [loadSettings] returns settings without a gap: no text field is empty
    and the font size is not zero (a missing or empty element, a font size
    that does not read as a number and a font size of zero are replaced by
    the defaults). *)
Theorem loadSettings_leaves_no_gap {P : Platform}
  (parseInt : str -> option Z) (isOfficeContext : bool)
  (platform : Settings.OfficePlatform) (st : store) :
  let loaded := Settings.loadSettings parseInt isOfficeContext platform st in
  Settings.loadedFontFamily loaded <> [] /\
  Settings.loadedFontSize loaded <> 0%Z /\
  Settings.loadedPrimaryColor loaded <> [] /\
  Settings.loadedPrimaryTextColor loaded <> [] /\
  Settings.loadedPrimaryBorderColor loaded <> [] /\
  Settings.loadedLineColor loaded <> [] /\
  Settings.loadedBackgroundColor loaded <> [] /\
  Settings.loadedSecondaryColor loaded <> [] /\
  Settings.loadedTertiaryColor loaded <> [] /\
  Settings.loadedTheme loaded <> [].
Proof.
  cbv zeta.
  assert (D : Settings.loadedFontFamily Settings.defaultSettings <> [] /\
              Settings.loadedFontSize Settings.defaultSettings <> 0%Z /\
              Settings.loadedPrimaryColor Settings.defaultSettings <> [] /\
              Settings.loadedPrimaryTextColor Settings.defaultSettings <> [] /\
              Settings.loadedPrimaryBorderColor Settings.defaultSettings <> [] /\
              Settings.loadedLineColor Settings.defaultSettings <> [] /\
              Settings.loadedBackgroundColor Settings.defaultSettings <> [] /\
              Settings.loadedSecondaryColor Settings.defaultSettings <> [] /\
              Settings.loadedTertiaryColor Settings.defaultSettings <> [] /\
              Settings.loadedTheme Settings.defaultSettings <> [])
    by (repeat split; discriminate).
  unfold Settings.loadSettings.
  destruct isOfficeContext; cbn [negb]; [|exact D].
  assert (L : forall items,
            let loaded := Settings.loadLoop parseInt items in
            Settings.loadedFontFamily loaded <> [] /\
            Settings.loadedFontSize loaded <> 0%Z /\
            Settings.loadedPrimaryColor loaded <> [] /\
            Settings.loadedPrimaryTextColor loaded <> [] /\
            Settings.loadedPrimaryBorderColor loaded <> [] /\
            Settings.loadedLineColor loaded <> [] /\
            Settings.loadedBackgroundColor loaded <> [] /\
            Settings.loadedSecondaryColor loaded <> [] /\
            Settings.loadedTertiaryColor loaded <> [] /\
            Settings.loadedTheme loaded <> []).
  { induction items as [|xml rest IH]; [exact D|].
    cbv zeta. cbn [Settings.loadLoop].
    destruct (Settings.isSettingsPart xml); [|exact IH].
    destruct (Settings.readSettings parseInt xml) as [loaded|] eqn:E; [|exact IH].
    exact (readSettings_populated parseInt xml loaded E). }
  destruct platform; [apply L|apply L|exact D].
Qed.

Example loadSettings_after_two_saves :
  Settings.loadSettings (P := Sample.platform) Sample.readInteger true
    Settings.PowerPoint
    (snd (Settings.saveSettings true Settings.PowerPoint
            {| Settings.fontFamily := lit "Georgia, serif";
               Settings.fontSize := lit "0";
               Settings.primaryColor := lit "#1f2020";
               Settings.primaryTextColor := [];
               Settings.primaryBorderColor := lit "#81b1db";
               Settings.lineColor := lit "#81b1db";
               Settings.backgroundColor := lit "#1f2020";
               Settings.secondaryColor := lit "#2d2d2d";
               Settings.tertiaryColor := lit "#3d3d3d";
               Settings.theme := Settings.dark |}
            sampleNow twiceSaved))
  = {| Settings.loadedFontFamily := lit "Georgia, serif";
       Settings.loadedFontSize := 16;
       Settings.loadedPrimaryColor := lit "#1f2020";
       Settings.loadedPrimaryTextColor := lit "#000000";
       Settings.loadedPrimaryBorderColor := lit "#81b1db";
       Settings.loadedLineColor := lit "#81b1db";
       Settings.loadedBackgroundColor := lit "#1f2020";
       Settings.loadedSecondaryColor := lit "#2d2d2d";
       Settings.loadedTertiaryColor := lit "#3d3d3d";
       Settings.loadedTheme := lit "dark" |}.
Proof. reflexivity. Qed.

(** ** The presentation host: an update and the selection after it *)

Lemma examines_selection_only (doc doc' : PowerPoint.Presentation)
  (s : PowerPoint.Shape) :
  PowerPoint.selectedShapes doc' = PowerPoint.selectedShapes doc ->
  PowerPoint.selectedSlides doc' = PowerPoint.selectedSlides doc ->
  examines doc s -> examines doc' s.
Proof.
  intros Hshapes Hslides [Hsel|slide others Hsel Hsl Hlast].
  - apply examines_selected. now rewrite Hshapes.
  - apply (examines_most_recent doc' s slide others).
    + now rewrite Hshapes.
    + now rewrite Hslides.
    + exact Hlast.
Qed.

(** X19: on the presentation host an update is read back through the
    selection.  When the store holds one record for the identifier and the
    parser reads the identifier and the source text out of the block that
    [updateDiagramData] writes, the update returns normally, and
    [getSelectedDiagram] on a shape tagged with the identifier then returns
    the new source text. *)
Theorem slide_update_then_read {P : Platform}
  (doc : PowerPoint.Presentation) (s : PowerPoint.Shape)
  (items : list PowerPoint.Tag) (before after : store)
  (old diagramId mermaidCode now : str) :
  examines doc s ->
  PowerPoint.tags s = Some items ->
  PowerPoint.diagramTag items = diagramId ->
  diagramId <> [] ->
  PowerPoint.customXmlParts doc = before ++ old :: after ->
  (forall p, In p before ->
     p = [] \/ textContentOf (lit "Id") p <> Some diagramId) ->
  old <> [] ->
  textContentOf (lit "Id") old = Some diagramId ->
  (forall p, In p after ->
     p = [] \/ textContentOf (lit "Id") p <> Some diagramId) ->
  textContentOf (lit "Id") (PowerPoint.updatedXml diagramId mermaidCode now)
    = Some diagramId ->
  textContentOf (lit "Code") (PowerPoint.updatedXml diagramId mermaidCode now)
    = Some mermaidCode ->
  let updated :=
    PowerPoint.updateDiagramData (PowerPoint.customXmlParts doc)
      diagramId mermaidCode now in
  fst updated = Returned tt /\
  PowerPoint.getSelectedDiagram true
    {| PowerPoint.selectedShapes := PowerPoint.selectedShapes doc;
       PowerPoint.selectedSlides := PowerPoint.selectedSlides doc;
       PowerPoint.customXmlParts := snd updated |}
  = Some {| id := diagramId; code := mermaidCode |}.
Proof.
  intros Hs Htags Htag Hne Hparts Hbefore Hold0 Hold Hafter Hid Hcode.
  cbv zeta. rewrite Hparts. unfold PowerPoint.updateDiagramData.
  rewrite (updateLoop_found before after (before ++ old :: after) old 0
             diagramId mermaidCode now).
  2:{ intros xml Hin. destruct (Hbefore xml Hin) as [-> | Hx]; [reflexivity|].
      destruct (PowerPoint.idElementIs xml diagramId) eqn:E.
      - apply idElementIs_true in E. congruence.
      - apply andb_false_r. }
  2:{ destruct old; [congruence|]. cbn [isEmpty negb andb].
      now apply idElementIs_true. }
  cbn [fst snd Nat.add]. rewrite delete_app_here. unfold add.
  split; [reflexivity|].
  subst diagramId.
  apply (selection_recovery_returns_record _ s items (before ++ after) []
           (PowerPoint.updatedXml (PowerPoint.diagramTag items) mermaidCode now)).
  - apply (examines_selection_only doc); [reflexivity|reflexivity|exact Hs].
  - exact Htags.
  - exact Hne.
  - reflexivity.
  - intros p Hin. apply in_app_or in Hin. destruct Hin; auto.
  - discriminate.
  - exact Hid.
  - exact Hcode.
Qed.

Lemma slide_update_then_read_witness :
  examines nothingSelected taggedShape /\
  PowerPoint.customXmlParts nothingSelected = sampleSlideParts ++ sampleOld :: [] /\
  textContentOf (Platform := Sample.platform) (lit "Code")
    (PowerPoint.updatedXml (lit "mermaid-7f3k2m9qz") (lit "graph LR; A-->B") sampleNow)
    = Some (lit "graph LR; A-->B") /\
  PowerPoint.getSelectedDiagram (P := Sample.platform) true
    {| PowerPoint.selectedShapes := PowerPoint.selectedShapes nothingSelected;
       PowerPoint.selectedSlides := PowerPoint.selectedSlides nothingSelected;
       PowerPoint.customXmlParts :=
         snd (PowerPoint.updateDiagramData (P := Sample.platform)
                (PowerPoint.customXmlParts nothingSelected)
                (lit "mermaid-7f3k2m9qz") (lit "graph LR; A-->B") sampleNow) |}
  = Some {| id := lit "mermaid-7f3k2m9qz"; code := (lit "graph LR; A-->B") |}.
Proof.
  assert (H1 : examines nothingSelected taggedShape).
  { apply (examines_most_recent nothingSelected taggedShape
             {| PowerPoint.shapes := [plainShape; taggedShape] |} []);
      [left; reflexivity|reflexivity|reflexivity]. }
  assert (H2 : PowerPoint.customXmlParts nothingSelected
               = sampleSlideParts ++ sampleOld :: []) by reflexivity.
  assert (H3 : textContentOf (Platform := Sample.platform) (lit "Code")
                 (PowerPoint.updatedXml (lit "mermaid-7f3k2m9qz") (lit "graph LR; A-->B")
                    sampleNow) = Some (lit "graph LR; A-->B")) by reflexivity.
  refine (conj H1 (conj H2 (conj H3 _))).
  refine (proj2 (slide_update_then_read (P := Sample.platform) nothingSelected
                   taggedShape _ sampleSlideParts [] sampleOld
                   (lit "mermaid-7f3k2m9qz") (lit "graph LR; A-->B") sampleNow
                   H1 eq_refl eq_refl _ H2 _ _ eq_refl _ eq_refl H3)).
  - discriminate.
  - intros p [<-|[]]. right. vm_compute. discriminate.
  - discriminate.
  - intros p [].
Defined.

(** ** The settings panel: theme presets *)

(** X20: choosing a preset in the settings panel sets the theme and never
    touches the font family or the font size; the presets [custom] and
    [base] keep all seven colours as they are; for the other presets the
    result does not depend on the preset chosen before, so that after any
    sequence of choices the colours are those of the last such preset. *)
Theorem handlePresetChange_presets
  (localSettings : Settings.MermaidSettings) (preset : Settings.Theme) :
  let chosen := Settings.handlePresetChange localSettings preset in
  Settings.theme chosen = preset /\
  Settings.fontFamily chosen = Settings.fontFamily localSettings /\
  Settings.fontSize chosen = Settings.fontSize localSettings /\
  (preset = Settings.custom \/ preset = Settings.base ->
   Settings.primaryColor chosen = Settings.primaryColor localSettings /\
   Settings.primaryTextColor chosen = Settings.primaryTextColor localSettings /\
   Settings.primaryBorderColor chosen = Settings.primaryBorderColor localSettings /\
   Settings.lineColor chosen = Settings.lineColor localSettings /\
   Settings.backgroundColor chosen = Settings.backgroundColor localSettings /\
   Settings.secondaryColor chosen = Settings.secondaryColor localSettings /\
   Settings.tertiaryColor chosen = Settings.tertiaryColor localSettings) /\
  (preset <> Settings.custom -> preset <> Settings.base ->
   forall earlier,
     Settings.handlePresetChange
       (Settings.handlePresetChange localSettings earlier) preset
     = chosen).
Proof.
  cbv zeta. destruct localSettings. split; [|split; [|split; [|split]]].
  - now destruct preset.
  - now destruct preset.
  - now destruct preset.
  - intros [-> | ->]; repeat split.
  - intros Hc Hb earlier. destruct preset; try congruence; now destruct earlier.
Qed.

(** ** The document host: what the selection can return *)

Lemma findMetadata_sound (parts : list str) (diagramId : str) (d : DiagramData) :
  WordInserter.findMetadata parts diagramId = Some d ->
  id d = diagramId /\
  exists xml,
    In xml parts /\
    includes (lit "<MermaidDiagram>") xml = true /\
    includes (idMarker diagramId) xml = true /\
    WordInserter.codeMatch xml = Some (code d).
Proof.
  induction parts as [|xml rest IH]; [discriminate|].
  cbn [WordInserter.findMetadata].
  destruct (includes (lit "<MermaidDiagram>") xml) eqn:Eroot;
  destruct (includes (idMarker diagramId) xml) eqn:Eid; cbn [andb];
  try (intros H; destruct (IH H) as (Hd & x & Hin & Hx);
       split; [exact Hd|exists x; split; [now right|exact Hx]]).
  destruct (WordInserter.codeMatch xml) as [c|] eqn:Ecode.
  - intros [= <-]. split; [reflexivity|]. exists xml. cbn [code].
    repeat split; auto. now left.
  - intros H. destruct (IH H) as (Hd & x & Hin & Hx).
    split; [exact Hd|exists x; split; [now right|exact Hx]].
Qed.

(** X21: what [getSelectedDiagram] of the document host returns comes from
    the store and from the first selected picture alone: the alternative
    text of that picture is [MERMAID_ID:] followed by the identifier
    returned, and the source text returned is what the code expression
    extracts from a part of the store that holds the root element and the
    marker of that identifier. *)
Theorem word_selection_returns_stored_text
  (st : store) (selectedPictures : list WordInserter.InlinePicture)
  (d : DiagramData) :
  WordInserter.getSelectedDiagram st selectedPictures = Some d ->
  exists selectedPicture others xml,
    selectedPictures = selectedPicture :: others /\
    WordInserter.altTextDescription selectedPicture = lit "MERMAID_ID:" ++ id d /\
    In xml st /\
    includes (lit "<MermaidDiagram>") xml = true /\
    includes (idMarker (id d)) xml = true /\
    WordInserter.codeMatch xml = Some (code d).
Proof.
  unfold WordInserter.getSelectedDiagram.
  destruct selectedPictures as [|selectedPicture others]; [discriminate|].
  destruct (isEmpty (WordInserter.altTextDescription selectedPicture));
    cbn [orb]; [discriminate|].
  destruct (startsWith (lit "MERMAID_ID:")
              (WordInserter.altTextDescription selectedPicture)) eqn:E;
    cbn [negb]; [|discriminate].
  intros H. apply findMetadata_sound in H as (Hd & xml & Hin & Hroot & Hid & Hcode).
  exists selectedPicture, others, xml.
  apply startsWith_inv in E as [r Hr].
  rewrite Hr, skipn_length_app in Hd. subst r.
  rewrite Hr, skipn_length_app in Hid.
  repeat split; assumption.
Qed.

Lemma word_selection_returns_stored_text_witness :
  WordInserter.getSelectedDiagram sampleStore
    [WordInserter.insertedPicture (lit "mermaid-k3j9x0q1a")]
  = Some {| id := lit "mermaid-k3j9x0q1a"; code := lit "graph LR" |} /\
  exists selectedPicture others xml,
    [WordInserter.insertedPicture (lit "mermaid-k3j9x0q1a")]
    = selectedPicture :: others /\
    WordInserter.altTextDescription selectedPicture
    = lit "MERMAID_ID:" ++ lit "mermaid-k3j9x0q1a" /\
    In xml sampleStore /\
    includes (lit "<MermaidDiagram>") xml = true /\
    includes (idMarker (lit "mermaid-k3j9x0q1a")) xml = true /\
    WordInserter.codeMatch xml = Some (lit "graph LR").
Proof.
  assert (H1 : WordInserter.getSelectedDiagram sampleStore
                 [WordInserter.insertedPicture (lit "mermaid-k3j9x0q1a")]
               = Some {| id := lit "mermaid-k3j9x0q1a"; code := lit "graph LR" |})
    by reflexivity.
  refine (conj H1 _).
  exact (word_selection_returns_stored_text sampleStore
           [WordInserter.insertedPicture (lit "mermaid-k3j9x0q1a")]
           {| id := lit "mermaid-k3j9x0q1a"; code := lit "graph LR" |} H1).
Defined.

(** ** The presentation host: from the selection to the update *)

Lemma getSelectedDiagram_some_examined {P : Platform}
  (doc : PowerPoint.Presentation) (d : DiagramData) :
  PowerPoint.getSelectedDiagram true doc = Some d ->
  exists s, examines doc s /\ PowerPoint.diagramOfShape doc s = Some d.
Proof.
  unfold PowerPoint.getSelectedDiagram. cbn [negb].
  destruct (PowerPoint.selectedShapes doc) as [[|s [|s' rest]]|] eqn:Hsel;
    try discriminate.
  - destruct (PowerPoint.selectedSlides doc) as [[|slide others]|] eqn:Hsl;
      try discriminate.
    destruct (nth_error (PowerPoint.shapes slide)
                (length (PowerPoint.shapes slide) - 1)) as [lastShape|] eqn:Hlast;
      [|discriminate].
    intros H. exists lastShape. split; [|exact H].
    apply (examines_most_recent doc lastShape slide others); auto.
  - intros H. exists s. split; [|exact H]. now apply examines_selected.
  - destruct (PowerPoint.selectedSlides doc) as [[|slide others]|] eqn:Hsl;
      try discriminate.
    destruct (nth_error (PowerPoint.shapes slide)
                (length (PowerPoint.shapes slide) - 1)) as [lastShape|] eqn:Hlast;
      [|discriminate].
    intros H. exists lastShape. split; [|exact H].
    apply (examines_most_recent doc lastShape slide others); auto.
Qed.

Lemma lookupByTag_id {P : Platform} (parts : list str) (diagramId : str)
  (d : DiagramData) :
  PowerPoint.lookupByTag parts diagramId = Some d -> id d = diagramId.
Proof.
  induction parts as [|xml rest IH]; [discriminate|].
  cbn [PowerPoint.lookupByTag].
  destruct (negb (isEmpty xml)); [|exact IH].
  destruct (textContentOf (lit "Id") xml) as [idText|]; [|exact IH].
  destruct (textContentOf (lit "Code") xml) as [codeText|]; [|exact IH].
  destruct (JsString.eqb idText diagramId); [|exact IH].
  now intros [= <-].
Qed.

Lemma diagramTag_carries (items : list PowerPoint.Tag) :
  PowerPoint.diagramTag items <> [] ->
  existsb (fun tag =>
             JsString.eqb (toLowerCase (PowerPoint.key tag))
               (lit "mermaid_diagram_id") &&
             JsString.eqb (PowerPoint.value tag) (PowerPoint.diagramTag items))
    items = true.
Proof.
  induction items as [|tag rest IH]; [intros H; now elim H|].
  cbn [PowerPoint.diagramTag existsb].
  destruct (JsString.eqb (toLowerCase (PowerPoint.key tag))
              (lit "mermaid_diagram_id")); cbn [andb].
  - intros _. now rewrite str_eqb_refl.
  - intros H. now rewrite (IH H).
Qed.

Lemma findShape_some (items : list PowerPoint.Shape) (j : nat) (diagramId : str)
  (s : PowerPoint.Shape) :
  In s items -> PowerPoint.carriesDiagram diagramId s = true ->
  PowerPoint.findShape items j diagramId <> None.
Proof.
  revert j. induction items as [|x items IH]; intros j Hin Hs; [destruct Hin|].
  cbn [PowerPoint.findShape].
  destruct (PowerPoint.carriesDiagram diagramId x) eqn:E; [discriminate|].
  destruct Hin as [-> | Hin]; [congruence|]. now apply IH.
Qed.

Lemma findTarget_some (slides : list PowerPoint.Slide) (i : nat) (diagramId : str)
  (slide : PowerPoint.Slide) (s : PowerPoint.Shape) :
  In slide slides -> In s (PowerPoint.shapes slide) ->
  PowerPoint.carriesDiagram diagramId s = true ->
  PowerPoint.findTarget slides i diagramId <> None.
Proof.
  revert i. induction slides as [|x slides IH]; intros i Hin Hs Hc; [destruct Hin|].
  cbn [PowerPoint.findTarget].
  destruct (PowerPoint.findShape (PowerPoint.shapes x) 0 diagramId)
    as [[j t]|] eqn:E; [discriminate|].
  destruct Hin as [-> | Hin].
  - now elim (findShape_some _ 0 _ _ Hs Hc).
  - now apply IH.
Qed.

(** X22: the selection and the update of the presentation host agree on
    what a diagram shape is.  When [getSelectedDiagram] returns a diagram,
    the shape it looked at carries the identifier of that diagram in the
    sense of [updateDiagram]; so an update of that identifier on a
    presentation that holds the shape finds a shape to replace and never
    throws the missing-shape error. *)
Theorem selected_diagram_has_update_target {P : Platform}
  (naturalSize : str -> number * number) (doc : PowerPoint.Presentation)
  (slides : list PowerPoint.Slide) (d : DiagramData)
  (officeDocument : bool) (placement : PowerPoint.AsyncResult) (retagged : bool)
  (mermaidCode svgContent now : str) :
  PowerPoint.getSelectedDiagram true doc = Some d ->
  (forall s, examines doc s ->
     exists slide, In slide slides /\ In s (PowerPoint.shapes slide)) ->
  (exists s, examines doc s /\ PowerPoint.carriesDiagram (id d) s = true) /\
  PowerPoint.findTarget slides 0 (id d) <> None /\
  fst (fst (PowerPoint.updateDiagram naturalSize true slides officeDocument
              placement retagged (PowerPoint.customXmlParts doc)
              (id d) mermaidCode svgContent now))
  <> Thrown PowerPoint.shapeNotFound.
Proof.
  intros Hsel Hon.
  destruct (getSelectedDiagram_some_examined doc d Hsel) as (s & Hs & Hd).
  assert (Hc : PowerPoint.carriesDiagram (id d) s = true).
  { unfold PowerPoint.diagramOfShape in Hd. unfold PowerPoint.carriesDiagram.
    destruct (PowerPoint.tags s) as [items|]; [|discriminate].
    destruct (PowerPoint.diagramTag items) as [|c t] eqn:E; [discriminate|].
    cbn [isEmpty negb] in Hd. apply lookupByTag_id in Hd. rewrite Hd, <- E.
    apply diagramTag_carries. rewrite E. discriminate. }
  destruct (Hon s Hs) as (slide & Hslide & Hshape).
  pose proof (findTarget_some slides 0 (id d) slide s Hslide Hshape Hc) as Hfound.
  split; [now exists s|]. split; [exact Hfound|].
  unfold PowerPoint.updateDiagram, PowerPoint.setSelectedData,
    PowerPoint.svgToPng. cbn [negb].
  destruct (PowerPoint.findTarget slides 0 (id d)) as [[[i j] target]|];
    [|congruence].
  unfold PowerPoint.updateDiagramData.
  destruct (imageLoads svgContent); [|discriminate].
  match goal with
  | |- context [pngBase64 ?ops] => destruct (pngBase64 ops)
  end; cbn [fst]; [|discriminate].
  destruct officeDocument; [|discriminate].
  destruct placement as [|reason]; cbn [fst]; [|discriminate].
  generalize 0 at 1. generalize (PowerPoint.customXmlParts doc) at 2.
  induction (PowerPoint.customXmlParts doc) as [|xml rest IH]; intros st i0.
  - discriminate.
  - cbn [PowerPoint.updateLoop].
    destruct (negb (isEmpty xml) && PowerPoint.idElementIs xml (id d));
      [discriminate|apply IH].
Qed.

Lemma selected_diagram_has_update_target_witness :
  PowerPoint.getSelectedDiagram (P := Sample.platform) true nothingSelected
  = Some {| id := lit "mermaid-7f3k2m9qz"; code := lit "graph TD" |} /\
  (forall s, examines nothingSelected s ->
     exists slide,
       In slide [{| PowerPoint.shapes := [plainShape; taggedShape] |}] /\
       In s (PowerPoint.shapes slide)) /\
  PowerPoint.findTarget [{| PowerPoint.shapes := [plainShape; taggedShape] |}] 0
    (lit "mermaid-7f3k2m9qz") <> None.
Proof.
  assert (H1 : PowerPoint.getSelectedDiagram (P := Sample.platform) true
                 nothingSelected
               = Some {| id := lit "mermaid-7f3k2m9qz"; code := lit "graph TD" |})
    by reflexivity.
  assert (H2 : forall s, examines nothingSelected s ->
                 exists slide,
                   In slide [{| PowerPoint.shapes := [plainShape; taggedShape] |}] /\
                   In s (PowerPoint.shapes slide)).
  { intros s [Hsel|slide others _ Hslides Hlast]; [discriminate|].
    injection Hslides as <- <-. cbn in Hlast. injection Hlast as <-.
    eexists. split; [left; reflexivity|right; left; reflexivity]. }
  refine (conj H1 (conj H2 _)).
  exact (proj1 (proj2 (selected_diagram_has_update_target (P := Sample.platform)
                         (fun _ => (800, 600)%float) nothingSelected
                         [{| PowerPoint.shapes := [plainShape; taggedShape] |}]
                         {| id := lit "mermaid-7f3k2m9qz"; code := lit "graph TD" |}
                         true PowerPoint.Succeeded true (lit "graph LR")
                         (lit "<svg viewBox='0 0 800 600'></svg>") sampleNow
                         H1 H2))).
Defined.

(** ** The document host: a second request before the placement *)

(** X23: a second [insertDiagram] before the first diagram was placed
    replaces the pending diagram and registers a second handler; the
    placement that follows inserts the second diagram only, and with the
    removal confirmed by the host no handler is left. *)
Theorem second_request_replaces_pending {P : Platform}
  (wordApi13 wordApi11 : bool)
  (firstCode firstSvg secondCode secondSvg diagramId now : str) (parts : store) :
  WordInserter.checkWordApiSupport wordApi13 wordApi11 = true ->
  looksLikeSvg firstSvg ->
  looksLikeSvg secondSvg ->
  imageLoads secondSvg = true ->
  (forall ops, exists encoded, pngBase64 ops = Returned encoded) ->
  let once :=
    snd (WordInserter.insertDiagram wordApi13 wordApi11
           (Returned WordInserter.Succeeded) firstCode firstSvg (idle parts)) in
  let twice :=
    snd (WordInserter.insertDiagram wordApi13 wordApi11
           (Returned WordInserter.Succeeded) secondCode secondSvg once) in
  WordInserter.pendingInsertion twice = Some (secondCode, secondSvg) /\
  WordInserter.handlers twice = 2 /\
  WordInserter.insertAtCurrentPosition (Returned WordInserter.Succeeded)
    diagramId now twice
  = (Returned tt,
     idle (parts ++ [WordInserter.metadataXml diagramId secondCode now])).
Proof.
  intros Hapi Hfirst Hsecond Hload Hencode. cbv zeta.
  rewrite (insertDiagram_enters wordApi13 wordApi11 firstCode firstSvg
             (idle parts) Hapi Hfirst).
  cbn [snd].
  rewrite (insertDiagram_enters wordApi13 wordApi11 secondCode secondSvg _
             Hapi Hsecond).
  cbn [snd idle WordInserter.handlers WordInserter.customXmlParts
       WordInserter.pendingInsertion].
  split; [reflexivity|]. split; [reflexivity|].
  unfold WordInserter.insertAtCurrentPosition.
  cbn [WordInserter.insertionMode WordInserter.pendingInsertion
       WordInserter.customXmlParts].
  now rewrite (performActualInsertion_done _ _ _ _ _ Hload Hencode).
Qed.

Lemma second_request_replaces_pending_witness :
  WordInserter.checkWordApiSupport true false = true /\
  looksLikeSvg (lit "<svg viewBox='0 0 400 300'></svg>") /\
  looksLikeSvg (lit "<svg viewBox='0 0 800 600'></svg>") /\
  WordInserter.insertAtCurrentPosition (P := Sample.platform)
    (Returned WordInserter.Succeeded) (lit "mermaid-7f3k2m9qz") sampleNow
    (snd (WordInserter.insertDiagram true false (Returned WordInserter.Succeeded)
            sampleCode (lit "<svg viewBox='0 0 800 600'></svg>")
            (snd (WordInserter.insertDiagram true false
                    (Returned WordInserter.Succeeded) (lit "graph LR")
                    (lit "<svg viewBox='0 0 400 300'></svg>")
                    (idle sampleStore)))))
  = (Returned tt,
     idle (sampleStore ++
           [WordInserter.metadataXml (lit "mermaid-7f3k2m9qz") sampleCode
              sampleNow])).
Proof.
  assert (H1 : WordInserter.checkWordApiSupport true false = true) by reflexivity.
  assert (H2 : looksLikeSvg (lit "<svg viewBox='0 0 400 300'></svg>"))
    by (repeat split; reflexivity).
  assert (H3 : looksLikeSvg (lit "<svg viewBox='0 0 800 600'></svg>"))
    by (repeat split; reflexivity).
  refine (conj H1 (conj H2 (conj H3 _))).
  exact (proj2 (proj2 (second_request_replaces_pending (P := Sample.platform)
                         true false (lit "graph LR")
                         (lit "<svg viewBox='0 0 400 300'></svg>") sampleCode
                         (lit "<svg viewBox='0 0 800 600'></svg>")
                         (lit "mermaid-7f3k2m9qz") sampleNow sampleStore
                         H1 H2 H3 eq_refl
                         (fun ops => ex_intro _ _ eq_refl)))).
Defined.
